(** * HLS playlist parser ([streamlink/stream/hls_playlist.py])

    A shallow embedding of [M3U8Parser] and of the Python primitives it
    relies on, followed by the properties of the parser.

    Text.  A Python [str] is modelled as a [string] whose characters are the
    code points below 256 (type [ascii]); the character classes of [re] and
    of the [str] methods are Python's Unicode classes restricted to that
    range.  Code points from 256 on are outside the model. *)

From Stdlib Require Import ZArith NArith Ascii String List Bool Lia.
From stdpp Require Import base option gmap strings.

Import ListNotations.
Local Open Scope string_scope.
Local Open Scope list_scope.

(** ** Characters *)

Module Char.

Definition code (c : ascii) : N := N_of_ascii c.

Definition between (lo hi : N) (c : ascii) : bool :=
  (lo <=? code c)%N && (code c <=? hi)%N.

Definition code_is (n : N) (c : ascii) : bool := (code c =? n)%N.

(** [\d] on [str] patterns: the decimal digits, [0-9] below 256. *)
Definition digit : ascii -> bool := between 48 57.

Definition upper : ascii -> bool := between 65 90.
Definition lower : ascii -> bool := between 97 122.

(** [str.isspace], also [\s] on [str] patterns and what [str.strip]
    removes: tab to carriage return, the four separators 0x1c-0x1f, the
    space, NEL (0x85) and the no-break space (0xa0). *)
Definition space (c : ascii) : bool :=
  between 9 13 c || between 28 31 c || code_is 32 c || code_is 133 c || code_is 160 c.

(** Line boundaries of [str.splitlines]. *)
Definition linebreak (c : ascii) : bool :=
  between 10 13 c || between 28 30 c || code_is 133 c.

(** [str.isalnum] on one character, below 256: ASCII letters and digits,
    the letters of Latin-1 (0xaa, 0xb5, 0xba, 0xc0-0xd6, 0xd8-0xf6,
    0xf8-0xff), the superscript digits (0xb2, 0xb3, 0xb9) and the vulgar
    fractions (0xbc-0xbe). *)
Definition alnum (c : ascii) : bool :=
  digit c || upper c || lower c
  || code_is 170 c || code_is 181 c || code_is 186 c
  || between 192 214 c || between 216 246 c || between 248 255 c
  || code_is 178 c || code_is 179 c || code_is 185 c || between 188 190 c.

(** [\w] on [str] patterns: [str.isalnum] or the underscore. *)
Definition word (c : ascii) : bool := alnum c || code_is 95 c.

Definition hexdigit (c : ascii) : bool :=
  digit c || between 65 70 c || between 97 102 c.

Definition is_ascii (c : ascii) : bool := (code c <? 128)%N.

Definition eqb (a b : ascii) : bool := Ascii.eqb a b.

Definition LF : ascii := ascii_of_N 10.
Definition CR : ascii := ascii_of_N 13.

(** [c.lower()] for an ASCII letter (used for case-insensitive literals). *)
Definition to_lower (c : ascii) : ascii :=
  if upper c then ascii_of_N (code c + 32) else c.

End Char.

(** ** Strings: the [str] methods the parser uses *)

Module Str.

Fixpoint rev_onto (s acc : string) : string :=
  match s with
  | EmptyString => acc
  | String c s' => rev_onto s' (String c acc)
  end.

Definition rev (s : string) : string := rev_onto s EmptyString.

(** [bool(s)]: a string is true when it is not empty. *)
Definition truthy (s : string) : bool :=
  match s with EmptyString => false | String _ _ => true end.

(** [s.startswith(p)] *)
Fixpoint startswith (p s : string) : bool :=
  match p with
  | EmptyString => true
  | String a p' =>
      match s with
      | EmptyString => false
      | String b s' => Ascii.eqb a b && startswith p' s'
      end
  end.

Fixpoint lstrip (s : string) : string :=
  match s with
  | EmptyString => EmptyString
  | String c s' => if Char.space c then lstrip s' else s
  end.

Fixpoint rstrip (s : string) : string :=
  match s with
  | EmptyString => EmptyString
  | String c s' =>
      match rstrip s' with
      | EmptyString => if Char.space c then EmptyString else String c EmptyString
      | r => String c r
      end
  end.

(** [s.strip()] *)
Definition strip (s : string) : string := rstrip (lstrip s).

(** [s[:n]] *)
Fixpoint take (n : nat) (s : string) : string :=
  match n, s with
  | S n', String c s' => String c (take n' s')
  | _, _ => EmptyString
  end.

(** [s[n:]] *)
Fixpoint drop (n : nat) (s : string) : string :=
  match n, s with
  | S n', String _ s' => drop n' s'
  | _, _ => s
  end.

(** [s.splitlines()]: [cur] is the current line, reversed.  A carriage
    return directly followed by a line feed is one boundary; a final line
    break does not open an empty last line. *)
Fixpoint splitlines_from (cur : string) (s : string) : list string :=
  match s with
  | EmptyString =>
      match cur with EmptyString => [] | _ => [rev cur] end
  | String c s' =>
      if Char.linebreak c then
        match s' with
        | String d s'' =>
            if Char.eqb c Char.CR && Char.eqb d Char.LF
            then rev cur :: splitlines_from EmptyString s''
            else rev cur :: splitlines_from EmptyString s'
        | EmptyString => [rev cur]
        end
      else splitlines_from (String c cur) s'
  end.

Definition splitlines (s : string) : list string := splitlines_from EmptyString s.

(** [s.split(sep)] for a separator of one character: never an empty list,
    the empty string splits to one empty string. *)
Fixpoint split_from (sep : ascii) (cur : string) (s : string) : list string :=
  match s with
  | EmptyString => [rev cur]
  | String c s' =>
      if Char.eqb c sep then rev cur :: split_from sep EmptyString s'
      else split_from sep (String c cur) s'
  end.

Definition split (sep : ascii) (s : string) : list string :=
  split_from sep EmptyString s.

Definition all (p : ascii -> bool) (s : string) : bool :=
  forallb p (list_ascii_of_string s).

End Str.

(** ** Regular expressions: a backtracking matcher in the manner of [re]

    A pattern is a syntax tree; [run] tries alternatives from left to right
    and repetitions longest first, passing what is left of the subject and
    the groups captured so far to a continuation, and falls back to the
    next choice when the continuation fails.  That is the order in which
    [re.match] explores a pattern, so [run] finds the match [re] finds.
    Repetition is on character classes, which is all the parser's patterns
    repeat.  None of the patterns looks behind, so matching at a position
    [pos] of a string is matching its suffix [s[pos:]]. *)

Module Re.

Inductive regex : Type :=
| Eps : regex                             (* the empty pattern *)
| Chr : ascii -> regex                    (* one literal character *)
| Cls : (ascii -> bool) -> regex          (* one character of a class *)
| Seq : regex -> regex -> regex
| Alt : regex -> regex -> regex           (* r1|r2, r1 tried first *)
| Star : (ascii -> bool) -> regex         (* [class]*, greedy *)
| Group : string -> regex -> regex        (* a capturing group, by name or number *)
| Eol : regex.                            (* $ (without re.MULTILINE) *)

(** [[class]+] *)
Definition Plus (p : ascii -> bool) : regex := Seq (Cls p) (Star p).

(** [r?], greedy *)
Definition Opt (r : regex) : regex := Alt r Eps.

(** Groups that took part in the match, the latest first. *)
Definition captures : Type := list (string * string).

(** The part of [s] that was consumed when [rest] is what is left of it. *)
Definition consumed (s rest : string) : string :=
  Str.take (String.length s - String.length rest) s.

Section Matcher.
Context {R : Type}.

Fixpoint star (p : ascii -> bool) (s : string) (k : string -> option R) : option R :=
  match s with
  | String c s' =>
      if p c then
        match star p s' k with
        | Some x => Some x
        | None => k s
        end
      else k s
  | EmptyString => k s
  end.

Fixpoint run (r : regex) (s : string) (caps : captures)
    (k : string -> captures -> option R) : option R :=
  match r with
  | Eps => k s caps
  | Chr a =>
      match s with
      | String c s' => if Ascii.eqb a c then k s' caps else None
      | EmptyString => None
      end
  | Cls p =>
      match s with
      | String c s' => if p c then k s' caps else None
      | EmptyString => None
      end
  | Seq r1 r2 => run r1 s caps (fun s' caps' => run r2 s' caps' k)
  | Alt r1 r2 =>
      match run r1 s caps k with
      | Some x => Some x
      | None => run r2 s caps k
      end
  | Star p => star p s (fun s' => k s' caps)
  | Group name r1 =>
      run r1 s caps (fun s' caps' => k s' ((name, consumed s s') :: caps'))
  | Eol =>
      match s with
      | EmptyString => k s caps
      | String c EmptyString => if Char.eqb c Char.LF then k s caps else None
      | String _ (String _ _) => None
      end
  end.

End Matcher.

(** A match object: what follows the match in the subject ([m.end()] is
    the position where [rest] starts) and the groups. *)
Record Match : Type := { rest : string; groups : captures }.

(** [pattern.match(s)] *)
Definition re_match (r : regex) (s : string) : option Match :=
  run r s [] (fun s' caps => Some {| rest := s'; groups := caps |}).

(** [m.group(name)], [None] for a group that took no part in the match. *)
Fixpoint lookup_group (name : string) (caps : captures) : option string :=
  match caps with
  | [] => None
  | (n, v) :: caps' => if String.eqb n name then Some v else lookup_group name caps'
  end.

Definition group (m : Match) (name : string) : option string :=
  lookup_group name (groups m).

(** Classes used by the patterns. *)
Definition dot (c : ascii) : bool := negb (Char.eqb c Char.LF).
Definition one_of (s : string) (c : ascii) : bool :=
  existsb (Ascii.eqb c) (list_ascii_of_string s).

End Re.

Definition dquote : ascii := ascii_of_N 34.

(** ** The patterns of [M3U8Parser] *)

(** [(?P<duration>\d+(\.\d+)?)(,(?P<title>.+))?]; the two groups without
    a name are groups 2 and 3. *)
Definition _extinf_re : Re.regex :=
  Re.Seq
    (Re.Group "duration"
       (Re.Seq (Re.Plus Char.digit)
               (Re.Opt (Re.Group "2" (Re.Seq (Re.Chr ".") (Re.Plus Char.digit))))))
    (Re.Opt (Re.Group "3" (Re.Seq (Re.Chr ",") (Re.Group "title" (Re.Plus Re.dot))))).

(** [[A-Z0-9\-]] *)
Definition attr_key_char (c : ascii) : bool :=
  Char.upper c || Char.digit c || Char.eqb c "-".

(** The class of the quoted-string body: any character but CR, LF and the
    double quote. *)
Definition quoted_char (c : ascii) : bool :=
  negb (Char.eqb c Char.CR || Char.eqb c Char.LF || Char.eqb c dquote).

(** The class of the enumerated-string: any character but the double quote,
    the comma and white space. *)
Definition enumerated_char (c : ascii) : bool :=
  negb (Char.eqb c dquote || Char.eqb c "," || Char.space c).

(** The six alternatives of the [value] group of [_attr_re], in the order
    of the source. *)
Definition attr_value_re : Re.regex :=
  Re.Alt (Re.Plus Char.digit)
 (Re.Alt (Re.Seq (Re.Chr "0") (Re.Seq (Re.Cls (Re.one_of "xX")) (Re.Plus Char.hexdigit)))
 (Re.Alt (Re.Seq (Re.Opt (Re.Chr "-"))
            (Re.Seq (Re.Plus Char.digit) (Re.Seq (Re.Chr ".") (Re.Plus Char.digit))))
 (Re.Alt (Re.Seq (Re.Chr dquote)
            (Re.Seq (Re.Group "quoted" (Re.Star quoted_char)) (Re.Chr dquote)))
 (Re.Alt (Re.Plus enumerated_char)
         (Re.Seq (Re.Plus Char.digit) (Re.Seq (Re.Chr "x") (Re.Plus Char.digit))))))).

(** [_attr_re] (written with re.VERBOSE in the source):
    [(?P<key>[A-Z0-9\-]+)=(?P<value>...)\s*(?:,\s*|$)] *)
Definition _attr_re : Re.regex :=
  Re.Seq (Re.Group "key" (Re.Plus attr_key_char))
 (Re.Seq (Re.Chr "=")
 (Re.Seq (Re.Group "value" attr_value_re)
 (Re.Seq (Re.Star Char.space)
         (Re.Alt (Re.Seq (Re.Chr ",") (Re.Star Char.space)) Re.Eol)))).

(** [(?P<range>\d+)(?:@(?P<offset>\d+))?] *)
Definition _range_re : Re.regex :=
  Re.Seq (Re.Group "range" (Re.Plus Char.digit))
         (Re.Opt (Re.Seq (Re.Chr "@") (Re.Group "offset" (Re.Plus Char.digit)))).

(** [[\w-]] *)
Definition tag_char (c : ascii) : bool := Char.word c || Char.eqb c "-".

(** [#(?P<tag>[\w-]+)(:(?P<value>.+))?]; the group without a name is
    group 2. *)
Definition _tag_re : Re.regex :=
  Re.Seq (Re.Chr "#")
 (Re.Seq (Re.Group "tag" (Re.Plus tag_char))
         (Re.Opt (Re.Group "2" (Re.Seq (Re.Chr ":") (Re.Group "value" (Re.Plus Re.dot)))))).

(** [(\d+)x(\d+)] *)
Definition _res_re : Re.regex :=
  Re.Seq (Re.Group "1" (Re.Plus Char.digit))
         (Re.Seq (Re.Chr "x") (Re.Group "2" (Re.Plus Char.digit))).

(** ** Exceptions and Python numbers *)

(** The exceptions that reach the parser.  [binascii.Error] and
    [isodate.ISO8601Error] are caught where they are raised and never
    leave [parse_hex] and [parse_iso8601]. *)
Inductive Exn : Type :=
| ValueError (msg : string)
| OverflowError (msg : string).

Inductive result (A : Type) : Type :=
| Ok (a : A)
| Raise (e : Exn).
Arguments Ok {A} a.
Arguments Raise {A} e.

Module Py.

(** White space that [int] and [float] skip around a number: the ASCII
    white space of the C locale, and the spaces outside ASCII (NEL and the
    no-break space below 256), which CPython maps to a blank before it
    reads the number.  The separators 0x1c-0x1f are not skipped. *)
Definition num_space (c : ascii) : bool :=
  Char.between 9 13 c || Char.code_is 32 c || Char.code_is 133 c || Char.code_is 160 c.

Fixpoint lskip (s : string) : string :=
  match s with
  | EmptyString => EmptyString
  | String c s' => if num_space c then lskip s' else s
  end.

Fixpoint rskip (s : string) : string :=
  match s with
  | EmptyString => EmptyString
  | String c s' =>
      match rskip s' with
      | EmptyString => if num_space c then EmptyString else String c EmptyString
      | r => String c r
      end
  end.

Definition skip_spaces (s : string) : string := rskip (lskip s).

Definition digit_value (c : ascii) : Z := Z.of_N (Char.code c) - 48.

(** Digits with single underscores between them, read in base 10. *)
Fixpoint digits_from (s : string) (acc : Z) (after_underscore : bool) : option Z :=
  match s with
  | EmptyString => if after_underscore then None else Some acc
  | String c s' =>
      if Char.digit c then digits_from s' (10 * acc + digit_value c) false
      else if Char.eqb c "_" then
        if after_underscore then None else digits_from s' acc true
      else None
  end.

Definition digits (s : string) : option Z :=
  match s with
  | String c _ => if Char.digit c then digits_from s 0 false else None
  | EmptyString => None
  end.

Definition invalid_int : Exn := ValueError "invalid literal for int() with base 10".

(** [int(s)] for a string [s]: white space around, an optional sign, then
    digits.  The limit CPython 3.11 puts on the number of digits
    ([sys.set_int_max_str_digits], 4300 unless configured) is not part of
    the model. *)
Definition int (s : string) : result Z :=
  let body := skip_spaces s in
  let '(negative, ds) :=
    match body with
    | String c r =>
        if Char.eqb c "-" then (true, r)
        else if Char.eqb c "+" then (false, r)
        else (false, body)
    | EmptyString => (false, body)
    end in
  match digits ds with
  | Some n => Ok (if negative then (- n)%Z else n)
  | None => Raise invalid_int
  end.

(** A [float].  The binary64 value is not computed: a float is kept as the
    text or the integer it was converted from, so two floats of the model
    may stand for the same number. *)
Inductive float : Type :=
| FloatOfStr (literal : string)
| FloatOfInt (z : Z).

(** A Python number where the code stores an [int] or a [float]. *)
Inductive number : Type :=
| Int (z : Z)
| Float (f : float).

(** Underscores of a numeric literal stand between two digits. *)
Fixpoint underscores_ok (prev : option ascii) (s : string) : bool :=
  let prev_digit := match prev with Some p => Char.digit p | None => false end in
  let prev_underscore := match prev with Some p => Char.eqb p "_" | None => false end in
  match s with
  | EmptyString => negb prev_underscore
  | String c s' =>
      if Char.eqb c "_" then prev_digit && underscores_ok (Some c) s'
      else (negb prev_underscore || Char.digit c) && underscores_ok (Some c) s'
  end.

Fixpoint remove_underscores (s : string) : string :=
  match s with
  | EmptyString => EmptyString
  | String c s' =>
      if Char.eqb c "_" then remove_underscores s' else String c (remove_underscores s')
  end.

(** The longest prefix of characters of a class, and what follows it. *)
Fixpoint span (p : ascii -> bool) (s : string) : string * string :=
  match s with
  | EmptyString => (EmptyString, EmptyString)
  | String c s' =>
      if p c then let '(a, b) := span p s' in (String c a, b) else (EmptyString, s)
  end.

Fixpoint lower (s : string) : string :=
  match s with
  | EmptyString => EmptyString
  | String c s' => String (Char.to_lower c) (lower s')
  end.

Definition drop_sign (s : string) : string :=
  match s with
  | String c r => if Char.eqb c "-" || Char.eqb c "+" then r else s
  | EmptyString => s
  end.

(** [digits [. [digits]] | . digits], then an optional exponent, to the end. *)
Definition decimal_ok (s : string) : bool :=
  let '(i, r1) := span Char.digit s in
  let '(f, r2) :=
    match r1 with
    | String c r => if Char.eqb c "." then span Char.digit r else (EmptyString, r1)
    | EmptyString => (EmptyString, r1)
    end in
  if negb (Str.truthy i) && negb (Str.truthy f) then false
  else
    match r2 with
    | EmptyString => true
    | String c r3 =>
        if Char.eqb c "e" || Char.eqb c "E" then
          let '(x, r4) := span Char.digit (drop_sign r3) in
          Str.truthy x && negb (Str.truthy r4)
        else false
    end.

Definition float_literal_ok (s : string) : bool :=
  underscores_ok None s &&
  let body := drop_sign (skip_spaces (remove_underscores s)) in
  let low := lower body in
  String.eqb low "inf" || String.eqb low "infinity" || String.eqb low "nan"
  || decimal_ok body.

Definition invalid_float : Exn := ValueError "could not convert string to float".

(** [float(s)] for a string [s] *)
Definition float_of_str (s : string) : result float :=
  if float_literal_ok s then Ok (FloatOfStr s) else Raise invalid_float.

Definition math_domain_error : Exn := ValueError "math domain error".

(** The number of decimal digits of a positive [n], less one. *)
Fixpoint ilog10_fuel (fuel : nat) (n : Z) : Z :=
  match fuel with
  | O => 0
  | S fuel' => if (n <? 10)%Z then 0%Z else (1 + ilog10_fuel fuel' (n / 10))%Z
  end.

Definition ilog10 (n : Z) : Z :=
  match n with
  | Zpos p => ilog10_fuel (Pos.size_nat p) n
  | _ => 0%Z
  end.

(** [int(math.log10(n))] for an integer [n]: [math.log10] raises on what is
    not positive; on a positive [n] the logarithm is read exactly, that is
    as the floor of the base 10 logarithm of [n].  (The float that
    [math.log10] returns can reach the next integer when [n] is within a
    few units in the last place of a power of ten; [round] below then
    gives that power of ten on both readings.) *)
Definition int_log10 (n : Z) : result Z :=
  if (n <=? 0)%Z then Raise math_domain_error else Ok (ilog10 n).

(** [round(n, ndigits)] for integers: [n] itself when [ndigits] is not
    negative, else the multiple of [10 ** -ndigits] nearest to [n], a tie
    going to the even multiple. *)
Definition round (n ndigits : Z) : Z :=
  if (0 <=? ndigits)%Z then n
  else
    let pow := (10 ^ (- ndigits))%Z in
    let q := (n / pow)%Z in
    let r := (n mod pow)%Z in
    if (pow <? 2 * r)%Z || ((2 * r =? pow)%Z && Z.odd q)
    then ((q + 1) * pow)%Z
    else (q * pow)%Z.

End Py.

(** ** The data model: the named tuples and [M3U8] *)

(** [datetime.datetime] and [datetime.timedelta], by their fields. *)
Record datetime : Type := {
  year : Z; month : Z; day : Z; hour : Z; minute : Z; second : Z;
  microsecond : Z;
  utcoffset : option Z   (* tzinfo, as seconds east of UTC *)
}.

Record timedelta : Type := { days : Z; seconds : Z; microseconds : Z }.

(** An attribute list, [Dict[str, str]]. *)
Abbreviation attrs := (gmap string string).

Module Resolution.
Record t : Type := mk { width : Z; height : Z }.
End Resolution.

Module ExtInf.
Record t : Type := mk { duration : Py.number; title : option string }.
End ExtInf.

Module ByteRange.
Record t : Type := mk { range : Z; offset : option Z }.
End ByteRange.

Module DateRange.
Record t : Type := mk {
  id : option string;
  classname : option string;
  start_date : option datetime;
  end_date : option datetime;
  duration : option timedelta;
  planned_duration : option timedelta;
  end_on_next : bool;
  x : attrs
}.
End DateRange.

Module Key.
Record t : Type := mk {
  method : string;
  uri : option string;
  iv : option (list N);          (* bytes *)
  key_format : option string;
  key_format_versions : option string
}.
End Key.

Module Map.
Record t : Type := mk { uri : string; byterange : option ByteRange.t }.
End Map.

Module Media.
Record t : Type := mk {
  uri : option string;
  type : string;
  group_id : string;
  language : option string;
  name : string;
  default : bool;
  autoselect : bool;
  forced : bool;
  characteristics : option string
}.
End Media.

Module Start.
Record t : Type := mk { time_offset : Py.float; precise : bool }.
End Start.

Module StreamInfo.
Record t : Type := mk {
  bandwidth : Z;
  program_id : option string;
  codecs : list string;
  resolution : option Resolution.t;
  audio : option string;
  video : option string;
  subtitles : option string
}.
End StreamInfo.

Module IFrameStreamInfo.
Record t : Type := mk {
  bandwidth : Z;
  program_id : option string;
  codecs : list string;
  resolution : option Resolution.t;
  video : option string
}.
End IFrameStreamInfo.

(** [Union[StreamInfo, IFrameStreamInfo]] *)
Inductive stream_info : Type :=
| IsStreamInfo (s : StreamInfo.t)
| IsIFrameStreamInfo (s : IFrameStreamInfo.t).

Definition stream_info_bandwidth (s : stream_info) : Z :=
  match s with
  | IsStreamInfo s => StreamInfo.bandwidth s
  | IsIFrameStreamInfo s => IFrameStreamInfo.bandwidth s
  end.

Definition stream_info_resolution (s : stream_info) : option Resolution.t :=
  match s with
  | IsStreamInfo s => StreamInfo.resolution s
  | IsIFrameStreamInfo s => IFrameStreamInfo.resolution s
  end.

Module Playlist.
Record t : Type := mk {
  uri : string;
  stream_info : stream_info;
  media : list Media.t;
  is_iframe : bool
}.
End Playlist.

Module Segment.
Record t : Type := mk {
  uri : string;
  duration : Py.number;
  title : option string;
  key : option Key.t;
  discontinuity : bool;
  byterange : option ByteRange.t;
  date : option datetime;
  map : option Map.t
}.
End Segment.

Module M3U8.
Record t : Type := mk {
  uri : option string;
  is_endlist : bool;
  is_master : bool;
  allow_cache : option bool;
  discontinuity_sequence : option Z;
  iframes_only : option bool;
  media_sequence : option Z;
  playlist_type : option string;
  targetduration : option Py.float;
  start : option Start.t;
  version : option Z;
  media : list Media.t;
  playlists : list Playlist.t;
  dateranges : list DateRange.t;
  segments : list Segment.t
}.

(** [M3U8.__init__] *)
Definition init (uri : option string) : t := {|
  uri := uri;
  is_endlist := false;
  is_master := false;
  allow_cache := None;
  discontinuity_sequence := None;
  iframes_only := None;
  media_sequence := None;
  playlist_type := None;
  targetduration := None;
  start := None;
  version := None;
  media := [];
  playlists := [];
  dateranges := [];
  segments := []
|}.

(** Assignments to one attribute. *)
Definition set_is_endlist (v : bool) (m : t) : t :=
  mk (uri m) v (is_master m) (allow_cache m) (discontinuity_sequence m)
     (iframes_only m) (media_sequence m) (playlist_type m) (targetduration m)
     (start m) (version m) (media m) (playlists m) (dateranges m) (segments m).
Definition set_is_master (v : bool) (m : t) : t :=
  mk (uri m) (is_endlist m) v (allow_cache m) (discontinuity_sequence m)
     (iframes_only m) (media_sequence m) (playlist_type m) (targetduration m)
     (start m) (version m) (media m) (playlists m) (dateranges m) (segments m).
Definition set_allow_cache (v : option bool) (m : t) : t :=
  mk (uri m) (is_endlist m) (is_master m) v (discontinuity_sequence m)
     (iframes_only m) (media_sequence m) (playlist_type m) (targetduration m)
     (start m) (version m) (media m) (playlists m) (dateranges m) (segments m).
Definition set_discontinuity_sequence (v : option Z) (m : t) : t :=
  mk (uri m) (is_endlist m) (is_master m) (allow_cache m) v
     (iframes_only m) (media_sequence m) (playlist_type m) (targetduration m)
     (start m) (version m) (media m) (playlists m) (dateranges m) (segments m).
Definition set_iframes_only (v : option bool) (m : t) : t :=
  mk (uri m) (is_endlist m) (is_master m) (allow_cache m) (discontinuity_sequence m)
     v (media_sequence m) (playlist_type m) (targetduration m)
     (start m) (version m) (media m) (playlists m) (dateranges m) (segments m).
Definition set_media_sequence (v : option Z) (m : t) : t :=
  mk (uri m) (is_endlist m) (is_master m) (allow_cache m) (discontinuity_sequence m)
     (iframes_only m) v (playlist_type m) (targetduration m)
     (start m) (version m) (media m) (playlists m) (dateranges m) (segments m).
Definition set_playlist_type (v : option string) (m : t) : t :=
  mk (uri m) (is_endlist m) (is_master m) (allow_cache m) (discontinuity_sequence m)
     (iframes_only m) (media_sequence m) v (targetduration m)
     (start m) (version m) (media m) (playlists m) (dateranges m) (segments m).
Definition set_targetduration (v : option Py.float) (m : t) : t :=
  mk (uri m) (is_endlist m) (is_master m) (allow_cache m) (discontinuity_sequence m)
     (iframes_only m) (media_sequence m) (playlist_type m) v
     (start m) (version m) (media m) (playlists m) (dateranges m) (segments m).
Definition set_start (v : option Start.t) (m : t) : t :=
  mk (uri m) (is_endlist m) (is_master m) (allow_cache m) (discontinuity_sequence m)
     (iframes_only m) (media_sequence m) (playlist_type m) (targetduration m)
     v (version m) (media m) (playlists m) (dateranges m) (segments m).
Definition set_version (v : option Z) (m : t) : t :=
  mk (uri m) (is_endlist m) (is_master m) (allow_cache m) (discontinuity_sequence m)
     (iframes_only m) (media_sequence m) (playlist_type m) (targetduration m)
     (start m) v (media m) (playlists m) (dateranges m) (segments m).
Definition set_media (v : list Media.t) (m : t) : t :=
  mk (uri m) (is_endlist m) (is_master m) (allow_cache m) (discontinuity_sequence m)
     (iframes_only m) (media_sequence m) (playlist_type m) (targetduration m)
     (start m) (version m) v (playlists m) (dateranges m) (segments m).
Definition set_playlists (v : list Playlist.t) (m : t) : t :=
  mk (uri m) (is_endlist m) (is_master m) (allow_cache m) (discontinuity_sequence m)
     (iframes_only m) (media_sequence m) (playlist_type m) (targetduration m)
     (start m) (version m) (media m) v (dateranges m) (segments m).
Definition set_dateranges (v : list DateRange.t) (m : t) : t :=
  mk (uri m) (is_endlist m) (is_master m) (allow_cache m) (discontinuity_sequence m)
     (iframes_only m) (media_sequence m) (playlist_type m) (targetduration m)
     (start m) (version m) (media m) (playlists m) v (segments m).
Definition set_segments (v : list Segment.t) (m : t) : t :=
  mk (uri m) (is_endlist m) (is_master m) (allow_cache m) (discontinuity_sequence m)
     (iframes_only m) (media_sequence m) (playlist_type m) (targetduration m)
     (start m) (version m) (media m) (playlists m) (dateranges m) v.
End M3U8.

(** The parser object: the document under construction and the pending
    fields of [M3U8Parser.__init__]. *)
Module M3U8Parser.
Record t : Type := mk {
  m3u8 : M3U8.t;
  _expect_playlist : bool;
  _streaminf : option attrs;
  _expect_segment : bool;
  _extinf : option ExtInf.t;
  _byterange : option ByteRange.t;
  _discontinuity : bool;
  _map : option Map.t;
  _key : option Key.t;
  _date : option datetime
}.

(** [M3U8Parser.__init__] with the default document class *)
Definition init (base_uri : option string) : t := {|
  m3u8 := M3U8.init base_uri;
  _expect_playlist := false;
  _streaminf := None;
  _expect_segment := false;
  _extinf := None;
  _byterange := None;
  _discontinuity := false;
  _map := None;
  _key := None;
  _date := None
|}.

Definition set_m3u8 (v : M3U8.t) (p : t) : t :=
  mk v (_expect_playlist p) (_streaminf p) (_expect_segment p) (_extinf p)
     (_byterange p) (_discontinuity p) (_map p) (_key p) (_date p).
Definition set_expect_playlist (v : bool) (p : t) : t :=
  mk (m3u8 p) v (_streaminf p) (_expect_segment p) (_extinf p)
     (_byterange p) (_discontinuity p) (_map p) (_key p) (_date p).
Definition set_streaminf (v : option attrs) (p : t) : t :=
  mk (m3u8 p) (_expect_playlist p) v (_expect_segment p) (_extinf p)
     (_byterange p) (_discontinuity p) (_map p) (_key p) (_date p).
Definition set_expect_segment (v : bool) (p : t) : t :=
  mk (m3u8 p) (_expect_playlist p) (_streaminf p) v (_extinf p)
     (_byterange p) (_discontinuity p) (_map p) (_key p) (_date p).
Definition set_extinf (v : option ExtInf.t) (p : t) : t :=
  mk (m3u8 p) (_expect_playlist p) (_streaminf p) (_expect_segment p) v
     (_byterange p) (_discontinuity p) (_map p) (_key p) (_date p).
Definition set_byterange (v : option ByteRange.t) (p : t) : t :=
  mk (m3u8 p) (_expect_playlist p) (_streaminf p) (_expect_segment p) (_extinf p)
     v (_discontinuity p) (_map p) (_key p) (_date p).
Definition set_discontinuity (v : bool) (p : t) : t :=
  mk (m3u8 p) (_expect_playlist p) (_streaminf p) (_expect_segment p) (_extinf p)
     (_byterange p) v (_map p) (_key p) (_date p).
Definition set_map (v : option Map.t) (p : t) : t :=
  mk (m3u8 p) (_expect_playlist p) (_streaminf p) (_expect_segment p) (_extinf p)
     (_byterange p) (_discontinuity p) v (_key p) (_date p).
Definition set_key (v : option Key.t) (p : t) : t :=
  mk (m3u8 p) (_expect_playlist p) (_streaminf p) (_expect_segment p) (_extinf p)
     (_byterange p) (_discontinuity p) (_map p) v (_date p).
Definition set_date (v : option datetime) (p : t) : t :=
  mk (m3u8 p) (_expect_playlist p) (_streaminf p) (_expect_segment p) (_extinf p)
     (_byterange p) (_discontinuity p) (_map p) (_key p) v.

(** An assignment to an attribute of [self.m3u8]. *)
Definition on_m3u8 (f : M3U8.t -> M3U8.t) (p : t) : t := set_m3u8 (f (m3u8 p)) p.
End M3U8Parser.

(** ** Effects: warnings and exceptions

    A computation gives the warnings it logged ([log.warning], in order)
    and either its value or the exception it raised.  The trace of the
    lines at level [ALL] ([log.iter]) is not a warning and is left out. *)

Definition M (A : Type) : Type := list string * result A.

Definition ret {A : Type} (a : A) : M A := ([], Ok a).

Definition raise {A : Type} (e : Exn) : M A := ([], Raise e).

Definition warning (msg : string) : M unit := ([msg], Ok tt).

Definition bind {A B : Type} (m : M A) (f : A -> M B) : M B :=
  match m with
  | (w, Ok a) => let '(w', r) := f a in (w ++ w', r)
  | (w, Raise e) => (w, Raise e)
  end.

(** A computation that logs nothing. *)
Definition lift {A : Type} (r : result A) : M A := ([], r).

Definition rbind {A B : Type} (r : result A) (f : A -> result B) : result B :=
  match r with
  | Ok a => f a
  | Raise e => Raise e
  end.

Declare Scope eff_scope.
Delimit Scope eff_scope with eff.
Notation "'let*' x := m 'in' k" := (bind m (fun x => k))
  (at level 10, x name, m at level 100, k at level 200) : eff_scope.
Notation "m ;; k" := (bind m (fun _ => k))
  (at level 100, k at level 200, right associativity) : eff_scope.
Notation "'let?' x := r 'in' k" := (rbind r (fun x => k))
  (at level 10, x name, r at level 100, k at level 200) : eff_scope.
Local Open Scope eff_scope.

(** The value and the warnings of a computation. *)
Definition outcome {A : Type} (m : M A) : result A := snd m.
Definition warnings {A : Type} (m : M A) : list string := fst m.

(** ** What the parser takes from outside this file

    [urllib.parse], [isodate] and [datetime] are not modelled: the parser
    is defined over any behaviour of these four functions. *)
Record Host : Type := {
  (** [urlparse(uri).scheme] *)
  urlparse_scheme : string -> string;
  (** [urljoin(base, uri)] *)
  urljoin : string -> string -> string;
  (** [isodate.parse_datetime(value)]; [None] when it raises [ISO8601Error]
      or [ValueError], the two exceptions [parse_iso8601] catches. *)
  parse_datetime : string -> option datetime;
  (** [timedelta(seconds=f)], which raises on a NaN and on a span out of
      range. *)
  timedelta_of_seconds : Py.float -> result timedelta
}.

(** [binascii.unhexlify] on a [str]. *)
Inductive unhexlify_outcome : Type :=
| Unhexlified (b : list N)
| BinasciiError                      (* odd length, or not a hexadecimal digit *)
| NotAscii.                          (* ValueError: the string is not ASCII *)

Definition hex_value (c : ascii) : N :=
  if Char.digit c then (Char.code c - 48)%N
  else if Char.between 65 70 c then (Char.code c - 55)%N
  else (Char.code c - 87)%N.

Fixpoint unhex_pairs (s : string) : option (list N) :=
  match s with
  | EmptyString => Some []
  | String a (String b s') =>
      if Char.hexdigit a && Char.hexdigit b then
        match unhex_pairs s' with
        | Some bs => Some ((16 * hex_value a + hex_value b)%N :: bs)
        | None => None
        end
      else None
  | String _ EmptyString => None
  end.

Definition unhexlify (s : string) : unhexlify_outcome :=
  if negb (Str.all Char.is_ascii s) then NotAscii
  else if Nat.odd (String.length s) then BinasciiError
  else match unhex_pairs s with
       | Some bs => Unhexlified bs
       | None => BinasciiError
       end.

(** Truth of an optional string: [None] and the empty string are false. *)
Definition truthy_opt (o : option string) : bool :=
  match o with
  | Some s => Str.truthy s
  | None => false
  end.

(** [d or {}], [a or b] on attribute lists: an empty one is false. *)
Definition attrs_truthy (d : attrs) : bool := negb (bool_decide (d = ∅)).

(** A group that takes part in every match of its pattern. *)
Definition group_str (m : Re.Match) (name : string) : string :=
  default EmptyString (Re.group m name).

(** ** The class methods of [M3U8Parser] *)

(** [parse_resolution] *)
Definition parse_resolution (value : string) : result Resolution.t :=
  match Re.re_match _res_re value with
  | None => Ok (Resolution.mk 0 0)
  | Some m =>
      let? w := Py.int (group_str m "1") in
      let? h := Py.int (group_str m "2") in
      Ok (Resolution.mk w h)
  end.

(** The [bandwidth] of [create_stream_info]:
    [0 if not _bandwidth else
     round(int(_bandwidth), 1 - int(math.log10(int(_bandwidth))))] *)
Definition stream_bandwidth (_bandwidth : option string) : result Z :=
  if negb (truthy_opt _bandwidth) then Ok 0%Z
  else
    let? n := Py.int (default EmptyString _bandwidth) in
    let? l := Py.int_log10 n in
    Ok (Py.round n (1 - l)).

(** The [resolution] of [create_stream_info]. *)
Definition stream_resolution (_resolution : option string) : result (option Resolution.t) :=
  if negb (truthy_opt _resolution) then Ok None
  else
    let? r := parse_resolution (default EmptyString _resolution) in
    Ok (Some r).

(** [create_stream_info]; [iframe] is [streaminfoclass is IFrameStreamInfo]. *)
Definition create_stream_info (streaminf : attrs) (iframe : bool) : result stream_info :=
  let program_id := streaminf !! "PROGRAM-ID" in
  let? bandwidth := stream_bandwidth (streaminf !! "BANDWIDTH") in
  let? resolution := stream_resolution (streaminf !! "RESOLUTION") in
  let codecs :=
    Str.split ","
      (if truthy_opt (streaminf !! "CODECS")
       then default EmptyString (streaminf !! "CODECS") else EmptyString) in
  if iframe then
    Ok (IsIFrameStreamInfo
          (IFrameStreamInfo.mk bandwidth program_id codecs resolution
             (streaminf !! "VIDEO")))
  else
    Ok (IsStreamInfo
          (StreamInfo.mk bandwidth program_id codecs resolution
             (streaminf !! "AUDIO") (streaminf !! "VIDEO") (streaminf !! "SUBTITLES"))).

(** [split_tag]: the tag and the stripped value, or [(None, None)]. *)
Definition split_tag (line : string) : option string * option string :=
  match Re.re_match _tag_re line with
  | Some m =>
      (Re.group m "tag",
       Some (Str.strip (if truthy_opt (Re.group m "value")
                        then default EmptyString (Re.group m "value")
                        else EmptyString)))
  | None => (None, None)
  end.

Definition discarded_attributes : string := "Discarded invalid attributes list".

(** The loop of [parse_attributes] on [value[pos:]].  Every match of
    [_attr_re] consumes a character, so a [fuel] of the length of the
    string is never used up (see [parse_attributes_loop_fuel]). *)
Fixpoint parse_attributes_loop (fuel : nat) (value : string) (res : attrs) : M attrs :=
  match value with
  | EmptyString => ret res
  | String _ _ =>
      match Re.re_match _attr_re value with
      | None =>
          warning discarded_attributes ;;
          ret ∅
      | Some m =>
          match fuel with
          | O => ret res
          | S fuel' =>
              parse_attributes_loop fuel' (Re.rest m)
                (<[group_str m "key" :=
                     match Re.group m "quoted" with
                     | Some q => q
                     | None => group_str m "value"
                     end]> res)
          end
      end
  end.

(** [parse_attributes] *)
Definition parse_attributes (value : string) : M attrs :=
  parse_attributes_loop (String.length value) value ∅.

(** [parse_bool] *)
Definition parse_bool (value : string) : bool := String.eqb value "YES".

(** [parse_byterange] *)
Definition parse_byterange (value : string) : result (option ByteRange.t) :=
  match Re.re_match _range_re value with
  | None => Ok None
  | Some m =>
      let? r := Py.int (group_str m "range") in
      let? o :=
        match Re.group m "offset" with
        | Some offset => let? o := Py.int offset in Ok (Some o)
        | None => Ok None
        end in
      Ok (Some (ByteRange.mk r o))
  end.

(** [parse_extinf] *)
Definition parse_extinf (value : string) : result ExtInf.t :=
  match Re.re_match _extinf_re value with
  | None => Ok (ExtInf.mk (Py.Int 0) None)
  | Some m =>
      let? d := Py.float_of_str (group_str m "duration") in
      Ok (ExtInf.mk (Py.Float d) (Re.group m "title"))
  end.

Definition discarded_hex : string :=
  "Discarded invalid hexadecimal-sequence attribute value".

Definition not_ascii : Exn :=
  ValueError "string argument should contain only ASCII characters".

(** [parse_hex] *)
Definition parse_hex (value : option string) : M (option (list N)) :=
  match value with
  | None => ret None
  | Some value =>
      let discard := (warning discarded_hex ;; ret None) in
      if String.eqb (Str.take 2 value) "0x" || String.eqb (Str.take 2 value) "0X" then
        match unhexlify
                ((if Nat.odd (String.length value) then "0" else EmptyString)
                 ++ Str.drop 2 value) with
        | Unhexlified b => ret (Some b)
        | BinasciiError => discard
        | NotAscii => raise not_ascii
        end
      else discard
  end.

Definition discarded_iso8601 : string := "Discarded invalid ISO8601 attribute value".

(** ** The instance methods of [M3U8Parser] *)

(** What [parse] reads: a [str], or a [requests.Response], of which the
    parser uses the lines that [iter_lines(decode_unicode=True)] yields and
    [load] the URL.  The lines are taken to be [str] (a response with a
    known encoding); the iterator is taken as the list of what it yields. *)
Record Response : Type := { url : string; iter_lines : list string }.

Inductive Data : Type :=
| DataStr (s : string)
| DataResponse (r : Response).

Section Parser.

Variable host : Host.

(** [parse_iso8601] *)
Definition parse_iso8601 (value : option string) : M (option datetime) :=
  match value with
  | None => ret None
  | Some value =>
      match parse_datetime host value with
      | Some d => ret (Some d)
      | None =>
          warning discarded_iso8601 ;;
          ret None
      end
  end.

(** [parse_timedelta] *)
Definition parse_timedelta (value : option string) : result (option timedelta) :=
  match value with
  | None => Ok None
  | Some value =>
      let? f := Py.float_of_str value in
      let? d := timedelta_of_seconds host f in
      Ok (Some d)
  end.

(** [uri] *)
Definition uri (self : M3U8Parser.t) (uri : string) : string :=
  if Str.truthy uri && Str.truthy (urlparse_scheme host uri) then uri
  else if Str.truthy uri && truthy_opt (M3U8.uri (M3U8Parser.m3u8 self)) then
    urljoin host (default EmptyString (M3U8.uri (M3U8Parser.m3u8 self))) uri
  else uri.

(** [self.uri(uri) if uri else None] *)
Definition uri_opt (self : M3U8Parser.t) (u : option string) : option string :=
  if truthy_opt u then Some (uri self (default EmptyString u)) else None.

(** A tag parser: the method applied to [self] and the value gives the
    parser after the call. *)
Definition handler : Type := M3U8Parser.t -> string -> M M3U8Parser.t.

Definition parse_tag_ext_x_version : handler := fun self value =>
  let* v := lift (Py.int value) in
  ret (M3U8Parser.on_m3u8 (M3U8.set_version (Some v)) self).

Definition parse_tag_extinf : handler := fun self value =>
  let self := M3U8Parser.set_expect_segment true self in
  let* e := lift (parse_extinf value) in
  ret (M3U8Parser.set_extinf (Some e) self).

Definition parse_tag_ext_x_byterange : handler := fun self value =>
  let self := M3U8Parser.set_expect_segment true self in
  let* b := lift (parse_byterange value) in
  ret (M3U8Parser.set_byterange b self).

Definition parse_tag_ext_x_discontinuity : handler := fun self value =>
  let self := M3U8Parser.set_discontinuity true self in
  ret (M3U8Parser.set_map None self).

Definition parse_tag_ext_x_key : handler := fun self value =>
  let* attr := parse_attributes value in
  let method := attr !! "METHOD" in
  let uri := attr !! "URI" in
  if negb (truthy_opt method) then ret self
  else
    let* iv := parse_hex (attr !! "IV") in
    ret (M3U8Parser.set_key
           (Some (Key.mk (default EmptyString method) (uri_opt self uri) iv
                    (attr !! "KEYFORMAT") (attr !! "KEYFORMATVERSIONS")))
           self).

Definition parse_tag_ext_x_map : handler := fun self value =>
  let* attr := parse_attributes value in
  let u := attr !! "URI" in
  if negb (truthy_opt u) then ret self
  else
    let* byterange := lift (parse_byterange (default EmptyString (attr !! "BYTERANGE"))) in
    ret (M3U8Parser.set_map
           (Some (Map.mk (uri self (default EmptyString u)) byterange)) self).

Definition parse_tag_ext_x_program_date_time : handler := fun self value =>
  let* d := parse_iso8601 (Some value) in
  ret (M3U8Parser.set_date d self).

(** [attr.pop(key, None)]: the value, and the dictionary without the key. *)
Definition pop (key : string) (attr : attrs) : option string * attrs :=
  (attr !! key, delete key attr).

Definition parse_tag_ext_x_daterange : handler := fun self value =>
  let* attr := parse_attributes value in
  let '(id, attr) := pop "ID" attr in
  let '(classname, attr) := pop "CLASS" attr in
  let '(start_date, attr) := pop "START-DATE" attr in
  let* start_date := parse_iso8601 start_date in
  let '(end_date, attr) := pop "END-DATE" attr in
  let* end_date := parse_iso8601 end_date in
  let '(duration, attr) := pop "DURATION" attr in
  let* duration := lift (parse_timedelta duration) in
  let '(planned_duration, attr) := pop "PLANNED-DURATION" attr in
  let* planned_duration := lift (parse_timedelta planned_duration) in
  let '(end_on_next, attr) := pop "END-ON-NEXT" attr in
  let end_on_next := parse_bool (default "NO" end_on_next) in
  let daterange :=
    DateRange.mk id classname start_date end_date duration planned_duration
      end_on_next attr in
  ret (M3U8Parser.on_m3u8
         (fun m => M3U8.set_dateranges (M3U8.dateranges m ++ [daterange]) m) self).

Definition parse_tag_ext_x_targetduration : handler := fun self value =>
  let* v := lift (Py.float_of_str value) in
  ret (M3U8Parser.on_m3u8 (M3U8.set_targetduration (Some v)) self).

Definition parse_tag_ext_x_media_sequence : handler := fun self value =>
  let* v := lift (Py.int value) in
  ret (M3U8Parser.on_m3u8 (M3U8.set_media_sequence (Some v)) self).

Definition parse_tag_ext_x_discontinuity_sequence : handler := fun self value =>
  let* v := lift (Py.int value) in
  ret (M3U8Parser.on_m3u8 (M3U8.set_discontinuity_sequence (Some v)) self).

Definition parse_tag_ext_x_endlist : handler := fun self value =>
  ret (M3U8Parser.on_m3u8 (M3U8.set_is_endlist true) self).

Definition parse_tag_ext_x_playlist_type : handler := fun self value =>
  ret (M3U8Parser.on_m3u8 (M3U8.set_playlist_type (Some value)) self).

Definition parse_tag_ext_x_i_frames_only : handler := fun self value =>
  ret (M3U8Parser.on_m3u8 (M3U8.set_iframes_only (Some true)) self).

Definition parse_tag_ext_x_media : handler := fun self value =>
  let* attr := parse_attributes value in
  let _type := attr !! "TYPE" in
  let uri := attr !! "URI" in
  let group_id := attr !! "GROUP-ID" in
  let name := attr !! "NAME" in
  if negb (truthy_opt _type) || negb (truthy_opt group_id) || negb (truthy_opt name)
  then ret self
  else
    let media :=
      Media.mk (uri_opt self uri) (default EmptyString _type)
        (default EmptyString group_id) (attr !! "LANGUAGE")
        (default EmptyString name)
        (parse_bool (default "NO" (attr !! "DEFAULT")))
        (parse_bool (default "NO" (attr !! "AUTOSELECT")))
        (parse_bool (default "NO" (attr !! "FORCED")))
        (attr !! "CHARACTERISTICS") in
    ret (M3U8Parser.on_m3u8 (fun m => M3U8.set_media (M3U8.media m ++ [media]) m) self).

Definition parse_tag_ext_x_stream_inf : handler := fun self value =>
  let self := M3U8Parser.set_expect_playlist true self in
  let* attr := parse_attributes value in
  ret (M3U8Parser.set_streaminf (Some attr) self).

(** [self._streaminf or attr] *)
Definition streaminf_or (pending : option attrs) (attr : attrs) : attrs :=
  match pending with
  | Some s => if attrs_truthy s then s else attr
  | None => attr
  end.

Definition parse_tag_ext_x_i_frame_stream_inf : handler := fun self value =>
  let* attr := parse_attributes value in
  let u := attr !! "URI" in
  let streaminf := streaminf_or (M3U8Parser._streaminf self) attr in
  let self := M3U8Parser.set_streaminf None self in
  if negb (truthy_opt u) then ret self
  else
    let* stream_info := lift (create_stream_info streaminf true) in
    let playlist := Playlist.mk (uri self (default EmptyString u)) stream_info [] true in
    ret (M3U8Parser.on_m3u8
           (fun m => M3U8.set_playlists (M3U8.playlists m ++ [playlist]) m) self).

Definition parse_tag_ext_x_session_data : handler := fun self value => ret self.

Definition parse_tag_ext_x_session_key : handler := fun self value => ret self.

Definition parse_tag_ext_x_independent_segments : handler := fun self value => ret self.

Definition parse_tag_ext_x_start : handler := fun self value =>
  let* attr := parse_attributes value in
  let* time_offset :=
    lift (match attr !! "TIME-OFFSET" with
          | Some v => Py.float_of_str v
          | None => Ok (Py.FloatOfInt 0)
          end) in
  let precise := parse_bool (default "NO" (attr !! "PRECISE")) in
  ret (M3U8Parser.on_m3u8 (M3U8.set_start (Some (Start.mk time_offset precise))) self).

Definition parse_tag_ext_x_allow_cache : handler := fun self value =>
  ret (M3U8Parser.on_m3u8 (M3U8.set_allow_cache (Some (parse_bool value))) self).

(** [_TAGS], the registry that [M3U8ParserMeta] collects from the methods
    decorated with [parse_tag]: the tag names as the decorators spell them,
    in the order of the class body. *)
Definition _TAGS : list (string * handler) := [
  ("EXT-X-VERSION", parse_tag_ext_x_version);
  ("EXTINF", parse_tag_extinf);
  ("EXT-X-BYTERANGE", parse_tag_ext_x_byterange);
  ("EXT-X-DISCONTINUITY", parse_tag_ext_x_discontinuity);
  ("EXT-X-KEY", parse_tag_ext_x_key);
  ("EXT-X-MAP", parse_tag_ext_x_map);
  ("EXT-X-PROGRAM-DATE-TIME", parse_tag_ext_x_program_date_time);
  ("EXT-X-DATERANGE", parse_tag_ext_x_daterange);
  ("EXT-X-TARGETDURATION", parse_tag_ext_x_targetduration);
  ("EXT-X-MEDIA-SEQUENCE", parse_tag_ext_x_media_sequence);
  ("EXT-X-DISCONTINUTY-SEQUENCE", parse_tag_ext_x_discontinuity_sequence);
  ("EXT-X-ENDLIST", parse_tag_ext_x_endlist);
  ("EXT-X-PLAYLIST-TYPE", parse_tag_ext_x_playlist_type);
  ("EXT-X-I-FRAMES-ONLY", parse_tag_ext_x_i_frames_only);
  ("EXT-X-MEDIA", parse_tag_ext_x_media);
  ("EXT-X-STREAM-INF", parse_tag_ext_x_stream_inf);
  ("EXT-X-I-FRAME-STREAM-INF", parse_tag_ext_x_i_frame_stream_inf);
  ("EXT-X-SESSION-DATA", parse_tag_ext_x_session_data);
  ("EXT-X-SESSION-KEY", parse_tag_ext_x_session_key);
  ("EXT-X-INDEPENDENT-SEGMENTS", parse_tag_ext_x_independent_segments);
  ("EXT-X-START", parse_tag_ext_x_start);
  ("EXT-X-ALLOW-CACHE", parse_tag_ext_x_allow_cache)
].

(** [self._TAGS[tag]], [None] when [tag not in self._TAGS]. *)
Fixpoint lookup_tag (tag : string) (tags : list (string * handler)) : option handler :=
  match tags with
  | [] => None
  | (name, h) :: tags' => if String.eqb name tag then Some h else lookup_tag tag tags'
  end.

(** [get_segment]: the segment, and the parser with the pending fields of
    one segment cleared. *)
Definition get_segment (self : M3U8Parser.t) (uri : string) : Segment.t * M3U8Parser.t :=
  let extinf := default (ExtInf.mk (Py.Int 0) None) (M3U8Parser._extinf self) in
  let self1 := M3U8Parser.set_extinf None self in
  let discontinuity := M3U8Parser._discontinuity self1 in
  let self2 := M3U8Parser.set_discontinuity false self1 in
  let byterange := M3U8Parser._byterange self2 in
  let self3 := M3U8Parser.set_byterange None self2 in
  let date := M3U8Parser._date self3 in
  let self4 := M3U8Parser.set_date None self3 in
  (Segment.mk uri (ExtInf.duration extinf) (ExtInf.title extinf)
     (M3U8Parser._key self4) discontinuity byterange date (M3U8Parser._map self4),
   self4).

(** [get_playlist] *)
Definition get_playlist (self : M3U8Parser.t) (uri : string)
  : result (Playlist.t * M3U8Parser.t) :=
  let streaminf := streaminf_or (M3U8Parser._streaminf self) ∅ in
  let self := M3U8Parser.set_streaminf None self in
  let? stream_info := create_stream_info streaminf false in
  Ok (Playlist.mk uri stream_info [] false, self).

(** [parse_line] *)
Definition parse_line (self : M3U8Parser.t) (line : string) : M M3U8Parser.t :=
  if Str.startswith "#" line then
    let '(tag, value) := split_tag line in
    match tag, value with
    | Some tag, Some value =>
        if negb (Str.truthy tag) then ret self
        else
          match lookup_tag tag _TAGS with
          | None => ret self
          | Some parse_tag => parse_tag self value
          end
    | _, _ => ret self
    end
  else if M3U8Parser._expect_segment self then
    let self := M3U8Parser.set_expect_segment false self in
    let '(segment, self) := get_segment self (uri self line) in
    ret (M3U8Parser.on_m3u8
           (fun m => M3U8.set_segments (M3U8.segments m ++ [segment]) m) self)
  else if M3U8Parser._expect_playlist self then
    let self := M3U8Parser.set_expect_playlist false self in
    let* made := lift (get_playlist self (uri self line)) in
    let '(playlist, self) := made in
    ret (M3U8Parser.on_m3u8
           (fun m => M3U8.set_playlists (M3U8.playlists m ++ [playlist]) m) self)
  else ret self.

(** [for line in lines: parse_line(line)] *)
Fixpoint parse_lines (self : M3U8Parser.t) (lines : list string) : M M3U8Parser.t :=
  match lines with
  | [] => ret self
  | line :: lines' =>
      let* self' := parse_line self line in
      parse_lines self' lines'
  end.

(** [getattr(playlist.stream_info, media_type, None)]: an
    [IFrameStreamInfo] has no [audio] and no [subtitles]. *)
Definition getattr_group (s : stream_info) (media_type : string) : option string :=
  match s with
  | IsStreamInfo s =>
      if String.eqb media_type "audio" then StreamInfo.audio s
      else if String.eqb media_type "video" then StreamInfo.video s
      else if String.eqb media_type "subtitles" then StreamInfo.subtitles s
      else None
  | IsIFrameStreamInfo s =>
      if String.eqb media_type "video" then IFrameStreamInfo.video s else None
  end.

(** [playlist.media.append(media)] *)
Definition media_append (playlist : Playlist.t) (media : Media.t) : Playlist.t :=
  Playlist.mk (Playlist.uri playlist) (Playlist.stream_info playlist)
    (Playlist.media playlist ++ [media]) (Playlist.is_iframe playlist).

(** The body of the loop over the playlists at the end of [parse]: the
    loops over the three media types and over the matching media. *)
Definition associate (media : list Media.t) (playlist : Playlist.t) : Playlist.t :=
  fold_left
    (fun playlist media_type =>
       let group_id := getattr_group (Playlist.stream_info playlist) media_type in
       if truthy_opt group_id then
         fold_left media_append
           (List.filter
              (fun m => String.eqb (Media.group_id m) (default EmptyString group_id))
              media)
           playlist
       else playlist)
    ["audio"; "video"; "subtitles"]
    playlist.

Definition malformed_playlist (line : string) : string :=
  "Malformed HLS Playlist. Expected #EXTM3U, but got " ++ Str.take 250 line.

Definition missing_header : Exn := ValueError "Missing #EXTM3U header".

(** The lines [parse] iterates over: [filter(bool, ...)]. *)
Definition data_lines (data : Data) : list string :=
  List.filter Str.truthy
    match data with
    | DataStr s => Str.splitlines s
    | DataResponse r => iter_lines r
    end.

(** The end of [parse], after the loop over the lines. *)
Definition finish (self : M3U8Parser.t) : M3U8.t :=
  let m := M3U8Parser.m3u8 self in
  let m := M3U8.set_playlists (List.map (associate (M3U8.media m)) (M3U8.playlists m)) m in
  M3U8.set_is_master
    (match M3U8.playlists m with [] => false | _ :: _ => true end) m.

(** [parse] *)
Definition parse (self : M3U8Parser.t) (data : Data) : M M3U8.t :=
  match data_lines data with
  | [] => ret (M3U8Parser.m3u8 self)
  | line :: lines =>
      if negb (Str.startswith "#EXTM3U" line) then
        warning (malformed_playlist line) ;;
        raise missing_header
      else
        let* self' := parse_lines self lines in
        ret (finish self')
  end.

(** [load] with the default parser class *)
Definition load (data : Data) (base_uri : option string) : M M3U8.t :=
  let base_uri :=
    match base_uri, data with
    | None, DataResponse r => Some (url r)
    | _, _ => base_uri
    end in
  parse (M3U8Parser.init base_uri) data.

End Parser.

(** ** What the properties below are stated with *)

(** The strings a pattern matches, with the groups a match of them
    captures (the latest first).  [Eol] is a condition on what follows
    the match and consumes nothing. *)
Inductive matches : Re.regex -> string -> Re.captures -> Prop :=
| matches_eps : matches Re.Eps EmptyString []
| matches_chr a : matches (Re.Chr a) (String a EmptyString) []
| matches_cls (p : ascii -> bool) c :
    p c = true -> matches (Re.Cls p) (String c EmptyString) []
| matches_seq r1 r2 s1 s2 c1 c2 :
    matches r1 s1 c1 -> matches r2 s2 c2 ->
    matches (Re.Seq r1 r2) (s1 +:+ s2) (c2 ++ c1)
| matches_alt_l r1 r2 s c : matches r1 s c -> matches (Re.Alt r1 r2) s c
| matches_alt_r r1 r2 s c : matches r2 s c -> matches (Re.Alt r1 r2) s c
| matches_star (p : ascii -> bool) s :
    Str.all p s = true -> matches (Re.Star p) s []
| matches_group name r s c :
    matches r s c -> matches (Re.Group name r) s ((name, s) :: c)
| matches_eol : matches Re.Eol EmptyString [].

(** A line feed, and a double quote, as strings. *)
Definition nl : string := String Char.LF EmptyString.
Definition dq : string := String dquote EmptyString.

(** A host to run examples with: no reference has a scheme, joining keeps
    the reference, no timestamp and no time span is accepted.  The
    examples run with no base URI and use neither timestamps nor time
    spans, so their results are those of every host. *)
Definition example_host : Host := {|
  urlparse_scheme := fun _ => EmptyString;
  urljoin := fun _ reference => reference;
  parse_datetime := fun _ => None;
  timedelta_of_seconds := fun _ => Raise (OverflowError "timedelta")
|}.

(** [(:(?P<value>.+))], the second group of [_tag_re]. *)
Definition tag_value_group : Re.regex :=
  Re.Group "2" (Re.Seq (Re.Chr ":") (Re.Group "value" (Re.Plus Re.dot))).

(** A directive line with one of the tags that describe the next segment
    without touching the key, the map or the discontinuity. *)
Definition segment_tag_line (line : string) : Prop :=
  Str.startswith "#" line = true /\
  exists tag value,
    split_tag line = (Some tag, Some value) /\
    In tag ["EXTINF"; "EXT-X-BYTERANGE"; "EXT-X-PROGRAM-DATE-TIME"].

(** The entry of an attribute list that a match of [_attr_re] stands for:
    the key, and the text between the quotes for a quoted string, else the
    value as it is written. *)
Definition attr_entry (m : Re.Match) : string * string :=
  (group_str m "key",
   match Re.group m "quoted" with
   | Some q => q
   | None => group_str m "value"
   end).

(** An attribute list is a sequence of entries: each one is matched by
    [_attr_re] where the one before it ended, up to the end of the string. *)
Inductive attr_list : string -> list (string * string) -> Prop :=
| attr_list_end : attr_list EmptyString []
| attr_list_entry value m entries :
    value <> EmptyString ->
    Re.re_match _attr_re value = Some m ->
    attr_list (Re.rest m) entries ->
    attr_list value (attr_entry m :: entries).

(** Some entry of the list does not match where it is expected. *)
Inductive attr_list_broken : string -> Prop :=
| attr_list_broken_here value :
    value <> EmptyString ->
    Re.re_match _attr_re value = None ->
    attr_list_broken value
| attr_list_broken_later value m :
    value <> EmptyString ->
    Re.re_match _attr_re value = Some m ->
    attr_list_broken (Re.rest m) ->
    attr_list_broken value.

(** The dictionary after assigning the entries in order. *)
Definition assign (entries : list (string * string)) (res : attrs) : attrs :=
  fold_left (fun res kv => <[fst kv := snd kv]> res) entries res.

(** The value of the last entry with a key. *)
Fixpoint last_value (key : string) (entries : list (string * string)) : option string :=
  match entries with
  | [] => None
  | (k, v) :: entries' =>
      match last_value key entries' with
      | Some v' => Some v'
      | None => if String.eqb k key then Some v else None
      end
  end.

(** [r] is [n] rounded to two significant figures, a tie going to the even
    multiple: with [d + 1] the number of decimal digits of [n], a number
    of at most two digits is kept, and otherwise [r] is a multiple of
    [10 ^ (d - 1)] at most half of it away from [n], an even multiple when
    exactly half of it away. *)
Definition two_significant (n r : Z) : Prop :=
  exists d : Z,
    (0 <= d /\ 10 ^ d <= n < 10 ^ (d + 1))%Z /\
    if (d <=? 1)%Z then r = n
    else
      let u := (10 ^ (d - 1))%Z in
      (exists q : Z, r = q * u /\ (2 * Z.abs (r - n) <= u) /\
                     (2 * Z.abs (r - n) = u -> Z.even q = true))%Z.

(** The characters of a decimal number without sign and exponent. *)
Definition decimal_char (c : ascii) : bool := Char.digit c || Char.eqb c ".".

(** The group references of a stream, in the order audio, video,
    subtitles, without those that are absent or empty.  An
    [IFrameStreamInfo] has a video reference only. *)
Definition group_refs (s : stream_info) : list string :=
  flat_map
    (fun reference =>
       match reference with
       | Some g => if Str.truthy g then [g] else []
       | None => []
       end)
    match s with
    | IsStreamInfo s => [StreamInfo.audio s; StreamInfo.video s; StreamInfo.subtitles s]
    | IsIFrameStreamInfo s => [IFrameStreamInfo.video s]
    end.

(** The media of a group, in the order of the document. *)
Definition media_of_group (media : list Media.t) (g : string) : list Media.t :=
  List.filter (fun m => String.eqb (Media.group_id m) g) media.

(** The exceptions of the conversions that the parser does not guard:
    [int], [float], [math.log10], the ASCII check of [unhexlify] and
    [timedelta]. *)
Definition conversion_error (host : Host) (e : Exn) : Prop :=
  (exists s, Py.int s = Raise e) \/
  (exists s, Py.float_of_str s = Raise e) \/
  e = Py.math_domain_error \/
  e = not_ascii \/
  (exists f, timedelta_of_seconds host f = Raise e).

(** The tags whose parsers convert a value without a guard. *)
Definition unguarded_tags : list string := [
  "EXT-X-VERSION"; "EXT-X-MEDIA-SEQUENCE"; "EXT-X-DISCONTINUTY-SEQUENCE";
  "EXT-X-TARGETDURATION"; "EXT-X-START"; "EXT-X-DATERANGE"; "EXT-X-KEY";
  "EXT-X-I-FRAME-STREAM-INF"
].

(** The lines on which a conversion without a guard runs: the directives
    with one of these tags, and the URI line of a variant, where the
    stream information is made. *)
Definition unguarded_line (self : M3U8Parser.t) (line : string) : Prop :=
  (Str.startswith "#" line = true /\
   exists tag value, split_tag line = (Some tag, Some value) /\ In tag unguarded_tags) \/
  (Str.startswith "#" line = false /\
   M3U8Parser._expect_segment self = false /\
   M3U8Parser._expect_playlist self = true).

(** ** Further definitions for the properties of the decoders *)

(** The number that a string of digits writes in base 10. *)
Fixpoint decimal_value_from (s : string) (acc : Z) : Z :=
  match s with
  | EmptyString => acc
  | String c s' => decimal_value_from s' (10 * acc + Py.digit_value c)
  end.

Definition decimal_value (s : string) : Z := decimal_value_from s 0.

(** A string does not start with a character of a class. *)
Definition stops (p : ascii -> bool) (s : string) : Prop :=
  match s with
  | String c _ => p c = false
  | EmptyString => True
  end.

(** What a step of the parser may do to the four lists of the document:
    append to them. *)
Definition appends_to (before after : M3U8.t) : Prop :=
  (exists l, M3U8.segments after = M3U8.segments before ++ l) /\
  (exists l, M3U8.playlists after = M3U8.playlists before ++ l) /\
  (exists l, M3U8.media after = M3U8.media before ++ l) /\
  (exists l, M3U8.dateranges after = M3U8.dateranges before ++ l).

(** A line that is no directive. *)
Definition content_line (line : string) : bool := negb (Str.startswith "#" line).

(** An [EXTINF] line. *)
Definition extinf_line (line : string) : Prop :=
  Str.startswith "#" line = true /\
  exists value, split_tag line = (Some "EXTINF", Some value).


(** A line of text: no character of it is a line boundary. *)
Definition line_text (l : string) : bool :=
  Str.all (fun c => negb (Char.linebreak c)) l.

(** The usual line ends: a line feed, a carriage return and a line feed,
    a carriage return. *)
Definition line_ends : list string :=
  [String Char.LF EmptyString; String Char.CR (String Char.LF EmptyString);
   String Char.CR EmptyString].

(** The text of some lines, each one followed by the line end. *)
Fixpoint unlines (term : string) (lines : list string) : string :=
  match lines with
  | [] => EmptyString
  | l :: lines' => l +:+ term +:+ unlines term lines'
  end.

(** A reference is one of the lines that are no directives. *)
Definition line_of (lines : list string) (u : string) : Prop :=
  In u (List.filter content_line lines).

(** The hexadecimal digit of a number below 16, in lower or in upper case. *)
Definition hex_digit (upper : bool) (n : N) : ascii :=
  if (n <? 10)%N then ascii_of_N (48 + n)
  else ascii_of_N ((if upper then 55 else 87) + n).

(** [binascii.hexlify], with the digits in one case: two digits for every
    byte. *)
Fixpoint hexlify (upper : bool) (bs : list N) : string :=
  match bs with
  | [] => EmptyString
  | b :: bs' =>
      String (hex_digit upper (b / 16)) (String (hex_digit upper (b mod 16))
        (hexlify upper bs'))
  end.

(** The text starts with the at sign and a digit: an offset follows. *)
Definition offset_follows (tail : string) : bool :=
  match tail with
  | String c (String d _) => Char.eqb c "@" && Char.digit d
  | _ => false
  end.

(** The text starts with the letter x and a digit: a height follows. *)
Definition height_follows (tail : string) : bool :=
  match tail with
  | String c (String d _) => Char.eqb c "x" && Char.digit d
  | _ => false
  end.

(** The three messages with which the parser discards a value. *)
Definition discard_messages : list string :=
  [discarded_attributes; discarded_hex; discarded_iso8601].

(** A computation logs nothing but these messages. *)
Definition logs_discards {A : Type} (m : M A) : Prop :=
  Forall (fun msg => In msg discard_messages) (warnings m).

(** A pattern matches nowhere at the start of a string, whatever follows
    the pattern. *)
Definition no_match (r : Re.regex) (s : string) : Prop :=
  forall (R : Type) (caps : Re.captures) (k : string -> Re.captures -> option R),
    Re.run r s caps k = None.

(** The match that the matcher tries first: [first_match r pre rest c] when,
    on [pre +:+ rest], the first attempt of [r] consumes [pre] and captures
    [c] (the latest group first).  Repetitions are greedy and an
    alternative is taken when the ones before it match nowhere. *)
Inductive first_match : Re.regex -> string -> string -> Re.captures -> Prop :=
| first_eps rest : first_match Re.Eps EmptyString rest []
| first_chr a rest : first_match (Re.Chr a) (String a EmptyString) rest []
| first_cls (p : ascii -> bool) c rest :
    p c = true -> first_match (Re.Cls p) (String c EmptyString) rest []
| first_seq r1 r2 s1 s2 rest c1 c2 :
    first_match r1 s1 (s2 +:+ rest) c1 -> first_match r2 s2 rest c2 ->
    first_match (Re.Seq r1 r2) (s1 +:+ s2) rest (c2 ++ c1)
| first_alt_l r1 r2 s rest c :
    first_match r1 s rest c -> first_match (Re.Alt r1 r2) s rest c
| first_alt_r r1 r2 s rest c :
    no_match r1 (s +:+ rest) -> first_match r2 s rest c ->
    first_match (Re.Alt r1 r2) s rest c
| first_star (p : ascii -> bool) s rest :
    Str.all p s = true -> stops p rest -> first_match (Re.Star p) s rest []
| first_group name r s rest c :
    first_match r s rest c -> first_match (Re.Group name r) s rest ((name, s) :: c).

(** A string of digits that is not empty. *)
Definition is_digits (s : string) : Prop :=
  s <> EmptyString /\ Str.all Char.digit s = true.

(** A decimal number as a playlist writes it: digits, and digits after a
    point or no point. *)
Definition decimal (i : string) (f : option string) : string :=
  match f with
  | Some f => i +:+ "." +:+ f
  | None => i
  end.

(** A segment as a media playlist writes it: the seconds and the fraction
    of its duration, its title and its URI. *)
Module Entry.
Record t : Type := mk {
  seconds : string;
  fraction : option string;
  title : option string;
  uri : string
}.
End Entry.

Definition entry_duration (e : Entry.t) : string :=
  decimal (Entry.seconds e) (Entry.fraction e).

(** The two lines of a segment: the [EXTINF] tag with the duration, a comma
    and the title, and the URI. *)
Definition entry_lines (e : Entry.t) : list string :=
  ["#EXTINF:" +:+ entry_duration e +:+ "," +:+ default EmptyString (Entry.title e);
   Entry.uri e].

(** What can be written so: a duration in digits, a title that is a text
    of one line and does not end with white space, a URI that is a text of
    one line and does not start like a directive. *)
Definition entry_ok (e : Entry.t) : Prop :=
  is_digits (Entry.seconds e) /\
  match Entry.fraction e with Some f => is_digits f | None => True end /\
  match Entry.title e with
  | Some t => t <> EmptyString /\ line_text t = true /\ Str.rstrip t = t
  | None => True
  end /\
  Entry.uri e <> EmptyString /\ line_text (Entry.uri e) = true /\
  Str.startswith "#" (Entry.uri e) = false.

(** The text of a media playlist with these segments: the header and the
    lines of the segments, each line ended by a line feed. *)
Definition media_playlist (es : list Entry.t) : string :=
  unlines nl ("#EXTM3U" :: flat_map entry_lines es).

(** The segment that a parser makes of such an entry. *)
Definition entry_segment (host : Host) (self : M3U8Parser.t) (e : Entry.t) : Segment.t :=
  Segment.mk (uri host self (Entry.uri e))
    (Py.Float (Py.FloatOfStr (entry_duration e))) (Entry.title e)
    (M3U8Parser._key self) false None None (M3U8Parser._map self).

(** Nothing is pending for the next segment. *)
Definition nothing_pending (self : M3U8Parser.t) : Prop :=
  M3U8Parser._extinf self = None /\ M3U8Parser._byterange self = None /\
  M3U8Parser._date self = None /\ M3U8Parser._discontinuity self = false /\
  M3U8Parser._expect_segment self = false.

(** [sep.join(l)] *)
Fixpoint join (sep : string) (l : list string) : string :=
  match l with
  | [] => EmptyString
  | s :: l' =>
      s +:+ match l' with
            | [] => EmptyString
            | _ :: _ => sep +:+ join sep l'
            end
  end.

(** The pattern has no end-of-line assertion. *)
Fixpoint no_eol (r : Re.regex) : bool :=
  match r with
  | Re.Seq r1 r2 | Re.Alt r1 r2 => no_eol r1 && no_eol r2
  | Re.Group _ r1 => no_eol r1
  | Re.Eol => false
  | _ => true
  end.

(** What follows the value in [_attr_re]: [\s*(?:,\s*|$)]. *)
Definition attr_sep_re : Re.regex :=
  Re.Seq (Re.Star Char.space)
         (Re.Alt (Re.Seq (Re.Chr ",") (Re.Star Char.space)) Re.Eol).

(** Where the separator can match: at the end, before white space or
    before a comma. *)
Definition separator_starts (s : string) : Prop :=
  match s with
  | EmptyString => True
  | String c _ => Char.space c = true \/ c = ","%char
  end.

(** Neither a comma nor a double quote. *)
Definition plain_char (c : ascii) : bool :=
  negb (Char.eqb c "," || Char.eqb c dquote).

(** The value of an attribute as a playlist writes it: as it is, or
    between double quotes. *)
Inductive attr_value : Type :=
| Plain (v : string)
| Quoted (q : string).

Definition render_value (v : attr_value) : string :=
  match v with
  | Plain v => v
  | Quoted q => dq +:+ q +:+ dq
  end.

(** The text that the value stands for. *)
Definition value_text (v : attr_value) : string :=
  match v with
  | Plain v => v
  | Quoted q => q
  end.

(** What can be written so: a key of capital letters, digits and hyphens;
    a plain value without double quote, comma and white space, or a
    quoted one without double quote, carriage return and line feed. *)
Definition attribute_ok (kv : string * attr_value) : Prop :=
  fst kv <> EmptyString /\ Str.all attr_key_char (fst kv) = true /\
  match snd kv with
  | Plain v => v <> EmptyString /\ Str.all enumerated_char v = true
  | Quoted q => Str.all quoted_char q = true
  end.

Definition render_attribute (kv : string * attr_value) : string :=
  fst kv +:+ "=" +:+ render_value (snd kv).

(** An attribute list: the attributes with a comma between them. *)
Definition render_attributes (l : list (string * attr_value)) : string :=
  join "," (map render_attribute l).

Definition attribute_entry (kv : string * attr_value) : string * string :=
  (fst kv, value_text (snd kv)).

(** The [codecs] of a stream. *)
Definition stream_info_codecs (s : stream_info) : list string :=
  match s with
  | IsStreamInfo s => StreamInfo.codecs s
  | IsIFrameStreamInfo s => IFrameStreamInfo.codecs s
  end.

(** A text without a comma. *)
Definition no_comma (s : string) : bool :=
  Str.all (fun c => negb (Char.eqb c ",")) s.

(** A variant as a master playlist writes it: the bandwidth, the width
    and the height of the resolution when it has one, and the URI. *)
Module Variant.
Record t : Type := mk {
  bandwidth : string;
  resolution : option (string * string);
  uri : string
}.
End Variant.

Definition variant_attributes (v : Variant.t) : list (string * attr_value) :=
  ("BANDWIDTH", Plain (Variant.bandwidth v))
  :: match Variant.resolution v with
     | Some (w, h) => [("RESOLUTION", Plain (w +:+ "x" +:+ h))]
     | None => []
     end.

(** The two lines of a variant: the [EXT-X-STREAM-INF] tag with the
    attributes, and the URI. *)
Definition variant_lines (v : Variant.t) : list string :=
  ["#EXT-X-STREAM-INF:" +:+ render_attributes (variant_attributes v); Variant.uri v].

(** What can be written so: a bandwidth in digits that is not zero, a
    resolution in digits, a URI that is a text of one line and does not
    start like a directive. *)
Definition variant_ok (v : Variant.t) : Prop :=
  is_digits (Variant.bandwidth v) /\ (0 < decimal_value (Variant.bandwidth v))%Z /\
  match Variant.resolution v with
  | Some (w, h) => is_digits w /\ is_digits h
  | None => True
  end /\
  Variant.uri v <> EmptyString /\ line_text (Variant.uri v) = true /\
  Str.startswith "#" (Variant.uri v) = false.

(** The text of a master playlist with these variants. *)
Definition master_playlist (vs : list Variant.t) : string :=
  unlines nl ("#EXTM3U" :: flat_map variant_lines vs).

(** The stream information and the playlist that a parser makes of such a
    variant: the bandwidth rounded as [create_stream_info] rounds it, no
    codecs but the empty string, no group of media. *)
Definition variant_stream_info (v : Variant.t) : stream_info :=
  let n := decimal_value (Variant.bandwidth v) in
  IsStreamInfo
    (StreamInfo.mk (Py.round n (1 - Py.ilog10 n)) None [EmptyString]
       match Variant.resolution v with
       | Some (w, h) => Some (Resolution.mk (decimal_value w) (decimal_value h))
       | None => None
       end
       None None None).

Definition variant_playlist (host : Host) (self : M3U8Parser.t) (v : Variant.t)
  : Playlist.t :=
  Playlist.mk (uri host self (Variant.uri v)) (variant_stream_info v) [] false.

(** Neither a segment nor a playlist is expected. *)
Definition nothing_expected (self : M3U8Parser.t) : Prop :=
  M3U8Parser._expect_segment self = false /\
  M3U8Parser._expect_playlist self = false /\
  M3U8Parser._streaminf self = None.

(** The attributes of a date range that have a field of their own. *)
Definition daterange_keys : list string :=
  ["ID"; "CLASS"; "START-DATE"; "END-DATE"; "DURATION"; "PLANNED-DURATION";
   "END-ON-NEXT"].

(** The line is no directive with one of these tags. *)
Definition no_tag_of (tags : list string) (line : string) : Prop :=
  forall tag, In tag tags -> fst (split_tag line) <> Some tag.

(** ** Dates and date ranges *)

(** What the operations of [datetime] raise: [TypeError] when a naive
    datetime is compared with an aware one, [OverflowError] when a sum is
    out of range. *)
Inductive DateError : Type :=
| TypeError
| DateOverflow.

Inductive checked (A : Type) : Type :=
| Fine (a : A)
| Fails (e : DateError).
Arguments Fine {A} a.
Arguments Fails {A} e.

Definition cbind {A B : Type} (c : checked A) (f : A -> checked B) : checked B :=
  match c with
  | Fine a => f a
  | Fails e => Fails e
  end.

(** The operations of [datetime] that [is_date_in_daterange] uses: the
    two comparisons and the sum of a datetime and a time span. *)
Record Clock : Type := {
  datetime_le : datetime -> datetime -> checked bool;
  datetime_lt : datetime -> datetime -> checked bool;
  datetime_add : datetime -> timedelta -> checked datetime
}.

(** [bool(d)] of a time span: a span of zero is false. *)
Definition timedelta_truthy (d : timedelta) : bool :=
  negb ((days d =? 0)%Z && (seconds d =? 0)%Z && (microseconds d =? 0)%Z).

(** [a or b] on optional time spans. *)
Definition timedelta_or (a b : option timedelta) : option timedelta :=
  match a with
  | Some d => if timedelta_truthy d then Some d else b
  | None => b
  end.

(** [lo <= date < hi]: the second comparison is made when the first holds. *)
Definition between_dates (clock : Clock) (lo date hi : datetime) : checked bool :=
  cbind (datetime_le clock lo date)
    (fun a => if a then datetime_lt clock date hi else Fine false).

(** [M3U8.is_date_in_daterange] *)
Definition is_date_in_daterange (clock : Clock) (date : option datetime)
    (daterange : DateRange.t) : checked (option bool) :=
  match date, DateRange.start_date daterange with
  | Some date, Some start_date =>
      match DateRange.end_date daterange with
      | Some end_date =>
          cbind (between_dates clock start_date date end_date)
            (fun b => Fine (Some b))
      | None =>
          match timedelta_or (DateRange.duration daterange)
                  (DateRange.planned_duration daterange) with
          | Some duration =>
              cbind (datetime_add clock start_date duration)
                (fun end_date =>
                   cbind (between_dates clock start_date date end_date)
                     (fun b => Fine (Some b)))
          | None =>
              cbind (datetime_le clock start_date date) (fun b => Fine (Some b))
          end
      end
  | _, _ => Fine None
  end.

(** The date range with another duration. *)
Definition with_duration (d : option timedelta) (r : DateRange.t) : DateRange.t :=
  DateRange.mk (DateRange.id r) (DateRange.classname r) (DateRange.start_date r)
    (DateRange.end_date r) d (DateRange.planned_duration r)
    (DateRange.end_on_next r) (DateRange.x r).

(** A clock for examples: it compares the years and has no sum. *)
Definition example_clock : Clock := {|
  datetime_le := fun a b => Fine (year a <=? year b)%Z;
  datetime_lt := fun a b => Fine (year a <? year b)%Z;
  datetime_add := fun _ _ => Fails DateOverflow
|}.

Definition new_year (y : Z) : datetime :=
  Build_datetime y 1 1 0 0 0 0 None.
(** * Properties *)

(** ** Strings *)

Lemma append_cons (c : ascii) (a b : string) :
  String c a +:+ b = String c (a +:+ b).
Proof. reflexivity. Qed.

Lemma append_nil_l (s : string) : EmptyString +:+ s = s.
Proof. reflexivity. Qed.

Lemma append_nil_r (s : string) : s +:+ EmptyString = s.
Proof.
  induction s as [|c s IH]; [reflexivity|]. now rewrite append_cons, IH.
Qed.

Lemma append_assoc (a b c : string) : (a +:+ b) +:+ c = a +:+ (b +:+ c).
Proof.
  induction a as [|x a IH]; [reflexivity|]. now rewrite !append_cons, IH.
Qed.

Lemma length_append (a b : string) :
  String.length (a +:+ b) = (String.length a + String.length b)%nat.
Proof.
  induction a as [|x a IH]; [reflexivity|]. rewrite append_cons. simpl. now rewrite IH.
Qed.

Lemma take_append (a b : string) : Str.take (String.length a) (a +:+ b) = a.
Proof.
  induction a as [|x a IH]; [now destruct b|]. rewrite append_cons. simpl. now rewrite IH.
Qed.

Lemma consumed_append (pre rest : string) : Re.consumed (pre +:+ rest) rest = pre.
Proof.
  unfold Re.consumed. rewrite length_append.
  replace (String.length pre + String.length rest - String.length rest)%nat
    with (String.length pre) by lia.
  apply take_append.
Qed.

Lemma consumed_all (s : string) : Re.consumed s EmptyString = s.
Proof.
  pose proof (consumed_append s EmptyString) as H. now rewrite append_nil_r in H.
Qed.

Lemma all_append (p : ascii -> bool) (a b : string) :
  Str.all p (a +:+ b) = Str.all p a && Str.all p b.
Proof.
  unfold Str.all. induction a as [|x a IH]; [reflexivity|].
  rewrite append_cons. simpl. rewrite IH. now rewrite andb_assoc.
Qed.

Lemma all_cons (p : ascii -> bool) (c : ascii) (s : string) :
  Str.all p (String c s) = p c && Str.all p s.
Proof. reflexivity. Qed.

(** ** The matcher finds matches of the pattern *)

Lemma star_sound {R : Type} (p : ascii -> bool) (s : string)
    (k : string -> option R) (x : R) :
  Re.star p s k = Some x ->
  exists pre s', s = pre +:+ s' /\ Str.all p pre = true /\ k s' = Some x.
Proof.
  induction s as [|c s IH]; simpl; intros H.
  - exists EmptyString, EmptyString. auto.
  - destruct (p c) eqn:Hc.
    + destruct (Re.star p s k) as [y|] eqn:Hs.
      * injection H as ->. destruct (IH eq_refl) as (pre & s' & -> & Hall & Hk).
        exists (String c pre), s'. rewrite all_cons, Hc, Hall. auto.
      * exists EmptyString, (String c s). auto.
    + exists EmptyString, (String c s). auto.
Qed.

Lemma run_sound {R : Type} (r : Re.regex) :
  forall (s : string) (caps : Re.captures)
         (k : string -> Re.captures -> option R) (x : R),
    Re.run r s caps k = Some x ->
    exists pre s' caps',
      s = pre +:+ s' /\ matches r pre caps' /\ k s' (caps' ++ caps) = Some x.
Proof.
  induction r as [|a|p|r1 IH1 r2 IH2|r1 IH1 r2 IH2|p|name r1 IH1|];
    intros s caps k x H; simpl in H.
  - exists EmptyString, s, []. split; [reflexivity|]. split; [constructor | exact H].
  - destruct s as [|c s]; [discriminate|].
    destruct (Ascii.eqb a c) eqn:E; [|discriminate].
    apply Ascii.eqb_eq in E. subst c.
    exists (String a EmptyString), s, []. split; [reflexivity|].
    split; [constructor | exact H].
  - destruct s as [|c s]; [discriminate|].
    destruct (p c) eqn:E; [|discriminate].
    exists (String c EmptyString), s, []. split; [reflexivity|].
    split; [now constructor | exact H].
  - apply IH1 in H. destruct H as (p1 & s1 & c1 & -> & M1 & H).
    apply IH2 in H. destruct H as (p2 & s2 & c2 & -> & M2 & H).
    exists (p1 +:+ p2), s2, (c2 ++ c1). rewrite append_assoc, <- app_assoc.
    split; [reflexivity|]. split; [now constructor | exact H].
  - destruct (Re.run r1 s caps k) as [y|] eqn:E.
    + injection H as ->. apply IH1 in E. destruct E as (p1 & s1 & c1 & -> & M1 & H).
      exists p1, s1, c1. split; [reflexivity|]. split; [now apply matches_alt_l | exact H].
    + apply IH2 in H. destruct H as (p2 & s2 & c2 & -> & M2 & H).
      exists p2, s2, c2. split; [reflexivity|]. split; [now apply matches_alt_r | exact H].
  - apply star_sound in H. destruct H as (pre & s' & -> & Hall & H).
    exists pre, s', []. split; [reflexivity|]. split; [now constructor | exact H].
  - apply IH1 in H. destruct H as (p1 & s1 & c1 & -> & M1 & H).
    rewrite consumed_append in H.
    exists p1, s1, ((name, p1) :: c1). split; [reflexivity|].
    split; [now constructor | exact H].
  - exists EmptyString, s, []. split; [reflexivity|]. split; [constructor|].
    destruct s as [|c [|d s]]; try discriminate; [exact H|].
    destruct (Char.eqb c Char.LF); [exact H | discriminate].
Qed.

(** [pattern.match(s)] returns a match of the pattern at the start of [s]. *)
Lemma re_match_sound (r : Re.regex) (s : string) (m : Re.Match) :
  Re.re_match r s = Some m ->
  exists pre, s = pre +:+ Re.rest m /\ matches r pre (Re.groups m).
Proof.
  unfold Re.re_match. intros H. apply run_sound in H.
  destruct H as (pre & s' & caps' & -> & Hm & H). injection H as <-. simpl.
  rewrite app_nil_r. eauto.
Qed.

(** Repetition is greedy: it runs to the first character outside the class
    when the rest of the pattern matches from there. *)
Lemma star_greedy {R : Type} (p : ascii -> bool) (pre rest : string)
    (k : string -> option R) (x : R) :
  Str.all p pre = true ->
  match rest with String d _ => p d = false | EmptyString => True end ->
  k rest = Some x ->
  Re.star p (pre +:+ rest) k = Some x.
Proof.
  intros Hall Hstop Hk. induction pre as [|c pre IH].
  - rewrite append_nil_l. destruct rest as [|d rest]; simpl; [exact Hk|]. now rewrite Hstop.
  - rewrite append_cons. simpl. rewrite all_cons in Hall. apply andb_prop in Hall as [Hc Hall].
    rewrite Hc, (IH Hall). reflexivity.
Qed.

(** Inversion of [matches], one lemma for each form of pattern. *)

Lemma matches_eps_inv s c : matches Re.Eps s c -> s = EmptyString /\ c = [].
Proof. intros H. inversion H. auto. Qed.

Lemma matches_eol_inv s c : matches Re.Eol s c -> s = EmptyString /\ c = [].
Proof. intros H. inversion H. auto. Qed.

Lemma matches_chr_inv a s c :
  matches (Re.Chr a) s c -> s = String a EmptyString /\ c = [].
Proof. intros H. inversion H. auto. Qed.

Lemma matches_cls_inv p s c :
  matches (Re.Cls p) s c -> exists x, s = String x EmptyString /\ p x = true /\ c = [].
Proof. intros H. inversion H; subst. eauto. Qed.

Lemma matches_seq_inv r1 r2 s c :
  matches (Re.Seq r1 r2) s c ->
  exists s1 s2 c1 c2,
    s = s1 +:+ s2 /\ c = c2 ++ c1 /\ matches r1 s1 c1 /\ matches r2 s2 c2.
Proof. intros H. inversion H; subst. eauto 10. Qed.

Lemma matches_alt_inv r1 r2 s c :
  matches (Re.Alt r1 r2) s c -> matches r1 s c \/ matches r2 s c.
Proof. intros H. inversion H; subst; auto. Qed.

Lemma matches_star_inv p s c :
  matches (Re.Star p) s c -> Str.all p s = true /\ c = [].
Proof. intros H. inversion H; subst. auto. Qed.

Lemma matches_group_inv name r s c :
  matches (Re.Group name r) s c -> exists c', c = (name, s) :: c' /\ matches r s c'.
Proof. intros H. inversion H; subst. eauto. Qed.

Lemma matches_plus_inv p s c :
  matches (Re.Plus p) s c -> s <> EmptyString /\ Str.all p s = true /\ c = [].
Proof.
  intros H. apply matches_seq_inv in H.
  destruct H as (s1 & s2 & c1 & c2 & -> & -> & H1 & H2).
  apply matches_cls_inv in H1. destruct H1 as (x & -> & Hx & ->).
  apply matches_star_inv in H2. destruct H2 as [Hall ->].
  rewrite append_cons, append_nil_l, all_cons, Hx, Hall.
  split; [discriminate | auto].
Qed.

Lemma matches_opt_inv r s c :
  matches (Re.Opt r) s c -> matches r s c \/ (s = EmptyString /\ c = []).
Proof.
  intros H. apply matches_alt_inv in H. destruct H as [H|H]; [now left|].
  right. now apply matches_eps_inv.
Qed.

Ltac inv_matches :=
  repeat match goal with
    | H : matches (Re.Plus _) _ _ |- _ =>
        apply matches_plus_inv in H; destruct H as (? & ? & ?); subst
    | H : matches (Re.Opt _) _ _ |- _ =>
        apply matches_opt_inv in H; destruct H as [H | [? ?]]; subst
    | H : matches (Re.Seq _ _) _ _ |- _ =>
        apply matches_seq_inv in H; destruct H as (? & ? & ? & ? & ? & ? & ? & ?); subst
    | H : matches (Re.Group _ _) _ _ |- _ =>
        apply matches_group_inv in H; destruct H as (? & ? & ?); subst
    | H : matches (Re.Chr _) _ _ |- _ =>
        apply matches_chr_inv in H; destruct H as (? & ?); subst
    | H : matches (Re.Cls _) _ _ |- _ =>
        apply matches_cls_inv in H; destruct H as (? & ? & ? & ?); subst
    | H : matches (Re.Star _) _ _ |- _ =>
        apply matches_star_inv in H; destruct H as (? & ?); subst
    | H : matches Re.Eps _ _ |- _ =>
        apply matches_eps_inv in H; destruct H as (? & ?); subst
    | H : matches Re.Eol _ _ |- _ =>
        apply matches_eol_inv in H; destruct H as (? & ?); subst
    | H : matches (Re.Alt _ _) _ _ |- _ =>
        apply matches_alt_inv in H; destruct H as [H | H]
    end.

(** ** Effects *)

Lemma bind_ret_l {A B : Type} (a : A) (f : A -> M B) : bind (ret a) f = f a.
Proof. unfold bind, ret. now destruct (f a). Qed.

Lemma bind_ok {A B : Type} (m : M A) (f : A -> M B) (w : list string) (b : B) :
  bind m f = (w, Ok b) ->
  exists a w1 w2, m = (w1, Ok a) /\ f a = (w2, Ok b) /\ w = w1 ++ w2.
Proof.
  destruct m as [w1 [a|e]]; simpl; [|discriminate].
  destruct (f a) as [w2 r] eqn:E. intros H. injection H as <- ->.
  exists a, w1, w2. auto.
Qed.

Lemma bind_raise {A B : Type} (m : M A) (f : A -> M B) (w : list string) (e : Exn) :
  bind m f = (w, Raise e) ->
  m = (w, Raise e) \/
  exists a w1 w2, m = (w1, Ok a) /\ f a = (w2, Raise e) /\ w = w1 ++ w2.
Proof.
  destruct m as [w1 [a|e']]; simpl.
  - destruct (f a) as [w2 r] eqn:E. intros H. injection H as <- ->.
    right. exists a, w1, w2. auto.
  - intros H. injection H as <- <-. now left.
Qed.

Lemma lift_ok {A : Type} (r : result A) (w : list string) (a : A) :
  lift r = (w, Ok a) -> r = Ok a /\ w = [].
Proof. unfold lift. intros H. injection H as <- ->. auto. Qed.

Lemma lift_raise {A : Type} (r : result A) (w : list string) (e : Exn) :
  lift r = (w, Raise e) -> r = Raise e /\ w = [].
Proof. unfold lift. intros H. injection H as <- ->. auto. Qed.

Lemma ret_ok {A : Type} (a b : A) (w : list string) :
  ret a = (w, Ok b) -> a = b /\ w = [].
Proof. unfold ret. intros H. injection H as <- <-. auto. Qed.

(** ** The lines of a document *)

Lemma truthy_rev_onto (s acc : string) :
  Str.truthy (Str.rev_onto s acc) = Str.truthy s || Str.truthy acc.
Proof.
  revert acc. induction s as [|c s IH]; intros acc; simpl; [reflexivity|].
  rewrite IH. simpl. now rewrite orb_true_r.
Qed.

Lemma splitlines_from_current (cur s : string) :
  Str.truthy cur = true ->
  List.filter Str.truthy (Str.splitlines_from cur s) <> [].
Proof.
  revert cur. induction s as [|c s IH]; intros cur Hcur; simpl.
  - destruct cur; [discriminate|]. simpl.
    unfold Str.rev. simpl. rewrite truthy_rev_onto. simpl.
    rewrite orb_true_r. discriminate.
  - assert (Hrev : Str.truthy (Str.rev cur) = true).
    { unfold Str.rev. rewrite truthy_rev_onto. now rewrite Hcur. }
    destruct (Char.linebreak c).
    + destruct s as [|d s]; [simpl; rewrite Hrev; discriminate|].
      destruct (Char.eqb c Char.CR && Char.eqb d Char.LF);
        simpl; rewrite Hrev; discriminate.
    + apply IH. reflexivity.
Qed.

Lemma linebreak_LF : Char.linebreak Char.LF = true.
Proof. reflexivity. Qed.

Lemma splitlines_from_cons (cur : string) (c : ascii) (s : string) :
  Str.splitlines_from cur (String c s)
  = if Char.linebreak c then
      match s with
      | String d s'' =>
          if Char.eqb c Char.CR && Char.eqb d Char.LF
          then Str.rev cur :: Str.splitlines_from EmptyString s''
          else Str.rev cur :: Str.splitlines_from EmptyString s
      | EmptyString => [Str.rev cur]
      end
    else Str.splitlines_from (String c cur) s.
Proof. reflexivity. Qed.

Lemma filter_truthy_empty_line (l : list string) :
  List.filter Str.truthy (Str.rev EmptyString :: l) = List.filter Str.truthy l.
Proof. reflexivity. Qed.

(** A string has no line that is not empty exactly when all its characters
    are line boundaries. *)
Lemma splitlines_empty_lines (s : string) :
  List.filter Str.truthy (Str.splitlines s) = [] <-> Str.all Char.linebreak s = true.
Proof.
  unfold Str.splitlines.
  remember (String.length s) as n eqn:Hn.
  assert (Hle : (String.length s <= n)%nat) by lia. clear Hn.
  revert s Hle. induction n as [|n IH]; intros s Hle.
  - destruct s; [|simpl in Hle; lia]. simpl. tauto.
  - destruct s as [|c s]; [simpl; tauto|].
    simpl in Hle. rewrite all_cons, splitlines_from_cons.
    destruct (Char.linebreak c) eqn:Hc.
    + rewrite andb_true_l. destruct s as [|d s]; [simpl; tauto|].
      simpl in Hle.
      destruct (Char.eqb c Char.CR && Char.eqb d Char.LF) eqn:Hcr;
        rewrite filter_truthy_empty_line.
      * rewrite IH by lia.
        apply andb_prop in Hcr as [_ Hd]. apply Ascii.eqb_eq in Hd. subst d.
        rewrite all_cons, linebreak_LF, andb_true_l. tauto.
      * apply IH. simpl. lia.
    + rewrite andb_false_l. split; [|discriminate]. intros H. exfalso.
      now apply (splitlines_from_current (String c EmptyString) s).
Qed.

(** C9.  An input with no line that is not empty is parsed to the document
    the parser was created with, without error and without a warning, the
    header never having been seen: for [load], the empty document (no
    segments, no playlists, [is_master] false).  For a string input, these
    are the strings of line boundaries only, the empty string among them. *)
Theorem parse_no_lines (host : Host) (data : Data) (base_uri : option string) :
  data_lines data = [] ->
  (forall self, parse host self data = ([], Ok (M3U8Parser.m3u8 self))) /\
  exists doc,
    load host data base_uri = ([], Ok doc) /\
    doc = M3U8.init (M3U8.uri doc) /\
    M3U8.segments doc = [] /\ M3U8.playlists doc = [] /\
    M3U8.is_master doc = false.
Proof.
  intros H. split.
  - intros self. unfold parse. now rewrite H.
  - unfold load, parse. rewrite H. eexists. split; [reflexivity|]. simpl. auto.
Qed.

Lemma parse_no_lines_witness :
  data_lines (DataStr (nl +:+ nl)) = [] /\
  exists doc,
    load example_host (DataStr (nl +:+ nl)) None = ([], Ok doc) /\
    doc = M3U8.init (M3U8.uri doc) /\
    M3U8.segments doc = [] /\ M3U8.playlists doc = [] /\
    M3U8.is_master doc = false.
Proof.
  split; [reflexivity|].
  apply (parse_no_lines example_host (DataStr (nl +:+ nl)) None). reflexivity.
Defined.

(** The strings with no line that is not empty. *)
Lemma data_lines_str_empty (s : string) :
  data_lines (DataStr s) = [] <-> Str.all Char.linebreak s = true.
Proof. unfold data_lines. apply splitlines_empty_lines. Qed.

(** C1.  When the first line that is not empty does not start with
    [#EXTM3U], [parse] logs the line and raises [ValueError]: no document
    is returned.  When it does, the header raises and logs nothing, and
    the outcome of [parse] is that of parsing the lines after it and
    finishing the document. *)
Theorem parse_header (host : Host) (self : M3U8Parser.t) (data : Data)
    (line : string) (lines : list string) :
  data_lines data = line :: lines ->
  (Str.startswith "#EXTM3U" line = false ->
     parse host self data = ([malformed_playlist line], Raise missing_header)) /\
  (Str.startswith "#EXTM3U" line = true ->
     parse host self data
     = bind (parse_lines host self lines) (fun self' => ret (finish self')) /\
     (lines = [] -> parse host self data = ([], Ok (finish self)))).
Proof.
  intros H. unfold parse. rewrite H. split; intros Hs; rewrite Hs; simpl.
  - reflexivity.
  - split; [reflexivity|]. intros ->. reflexivity.
Qed.

Lemma parse_header_witness :
  parse example_host (M3U8Parser.init None) (DataStr ("hello" +:+ nl +:+ "#EXTM3U"))
  = (["Malformed HLS Playlist. Expected #EXTM3U, but got hello"],
     Raise (ValueError "Missing #EXTM3U header")) /\
  parse example_host (M3U8Parser.init None)
    (DataStr (nl +:+ "#EXTM3U" +:+ nl +:+ "#EXT-X-ENDLIST"))
  = bind (parse_lines example_host (M3U8Parser.init None) ["#EXT-X-ENDLIST"])
      (fun self' => ret (finish self')).
Proof.
  split.
  - apply (proj1 (parse_header example_host (M3U8Parser.init None)
                    (DataStr ("hello" +:+ nl +:+ "#EXTM3U")) "hello" ["#EXTM3U"]
                    eq_refl)).
    reflexivity.
  - apply (proj2 (parse_header example_host (M3U8Parser.init None)
                    (DataStr (nl +:+ "#EXTM3U" +:+ nl +:+ "#EXT-X-ENDLIST"))
                    "#EXTM3U" ["#EXT-X-ENDLIST"] eq_refl)).
    reflexivity.
Defined.

(** ** [split_tag] *)

Lemma tag_value_group_captures (s : string) (caps : Re.captures) :
  matches tag_value_group s caps ->
  exists v, caps = [("2", s); ("value", v)] /\ s = String ":" v /\ v <> EmptyString
            /\ Str.all Re.dot v = true.
Proof.
  unfold tag_value_group. intros H. inv_matches.
  eexists. split; [reflexivity|]. split; [reflexivity|]. auto.
Qed.

(** After the tag, the optional value: the match object either way. *)
Lemma tag_re_tail (rest : string) (t : string) :
  exists m,
    Re.run (Re.Opt tag_value_group) rest [("tag", t)]
      (fun s' caps => Some {| Re.rest := s'; Re.groups := caps |}) = Some m /\
    Re.group m "tag" = Some t /\
    (Re.group m "value" = None \/
     exists v, Re.group m "value" = Some v /\ v <> EmptyString /\
               Str.all Re.dot v = true /\ rest = String ":" v +:+ Re.rest m).
Proof.
  cbn [Re.run Re.Opt].
  destruct (Re.run tag_value_group rest [("tag", t)] _) as [m|] eqn:E.
  - exists m. split; [reflexivity|].
    apply run_sound in E. destruct E as (pre & s' & caps' & -> & Hm & E).
    injection E as <-. apply tag_value_group_captures in Hm.
    destruct Hm as (v & -> & -> & Hv & Hd). split; [reflexivity|].
    right. exists v. simpl. auto.
  - eexists. split; [reflexivity|]. split; [reflexivity|]. now left.
Qed.

Lemma tag_re_unfold (c : ascii) (s : string) :
  Re.re_match _tag_re (String "#" (String c s))
  = if tag_char c then
      Re.star tag_char s
        (fun s' =>
           Re.run (Re.Opt tag_value_group) s' [("tag", Re.consumed (String c s) s')]
             (fun s'0 caps => Some {| Re.rest := s'0; Re.groups := caps |}))
    else None.
Proof. reflexivity. Qed.

(** The tag of a directive line runs to the first character that is not a
    tag character. *)
Lemma tag_re_greedy (tag rest : string) :
  tag <> EmptyString -> Str.all tag_char tag = true ->
  match rest with String d _ => tag_char d = false | EmptyString => True end ->
  exists m,
    Re.re_match _tag_re ("#" +:+ tag +:+ rest) = Some m /\
    Re.group m "tag" = Some tag /\
    (Re.group m "value" = None \/
     exists v, Re.group m "value" = Some v /\ v <> EmptyString /\
               Str.all Re.dot v = true /\ rest = String ":" v +:+ Re.rest m).
Proof.
  intros Hne Hall Hstop. destruct tag as [|c tag]; [congruence|].
  rewrite all_cons in Hall. apply andb_prop in Hall as [Hc Hall].
  rewrite !append_cons, append_nil_l, tag_re_unfold, Hc.
  destruct (tag_re_tail rest (String c tag)) as (m & Hm & Hg).
  exists m. split; [|exact Hg].
  apply star_greedy; [exact Hall | exact Hstop|].
  change (String c (tag +:+ rest)) with (String c tag +:+ rest).
  rewrite consumed_append. exact Hm.
Qed.

Lemma split_tag_greedy (tag rest : string) :
  tag <> EmptyString -> Str.all tag_char tag = true ->
  match rest with String d _ => tag_char d = false | EmptyString => True end ->
  exists value, split_tag ("#" +:+ tag +:+ rest) = (Some tag, Some value).
Proof.
  intros Hne Hall Hstop.
  destruct (tag_re_greedy tag rest Hne Hall Hstop) as (m & Hm & Ht & _).
  unfold split_tag. rewrite Hm, Ht. eauto.
Qed.

(** A tag with nothing after it has the empty value. *)
Lemma split_tag_bare (tag : string) :
  tag <> EmptyString -> Str.all tag_char tag = true ->
  split_tag ("#" +:+ tag) = (Some tag, Some EmptyString).
Proof.
  intros Hne Hall.
  destruct (tag_re_greedy tag EmptyString Hne Hall I) as (m & Hm & Ht & Hv).
  rewrite append_nil_r in Hm. unfold split_tag. rewrite Hm, Ht.
  destruct Hv as [-> | (v & _ & _ & _ & Hv)]; [reflexivity | discriminate].
Qed.

(** A tag, a colon and a value with no line feed in it: the value is all
    that follows the colon, stripped. *)
Lemma split_tag_value (tag v : string) :
  tag <> EmptyString -> Str.all tag_char tag = true -> Str.all Re.dot v = true ->
  split_tag ("#" +:+ tag +:+ ":" +:+ v) = (Some tag, Some (Str.strip v)).
Proof.
  intros Hne Hall Hv.
  destruct (tag_re_greedy tag (String ":" v) Hne Hall eq_refl)
    as (m & Hm & Ht & Hvalue).
  unfold split_tag. change (":" +:+ v) with (String ":" v). rewrite Hm, Ht.
  destruct v as [|c v].
  - destruct Hvalue as [-> | (v' & _ & Hv' & _ & Hrest)]; [reflexivity|].
    injection Hrest as Hrest. destruct v'; [congruence | discriminate].
  - assert (Hg : Re.group m "value" = Some (String c v)); [|now rewrite Hg].
    destruct tag as [|x tag]; [congruence|].
    rewrite all_cons in Hall, Hv.
    apply andb_prop in Hall as [Hx Hall]. apply andb_prop in Hv as [Hc Hv].
    rewrite !append_cons, append_nil_l, tag_re_unfold, Hx in Hm.
    rewrite (star_greedy tag_char tag (String ":" (String c v)) _
               {| Re.rest := EmptyString;
                  Re.groups := [("2", String ":" (String c v));
                                ("value", String c v); ("tag", String x tag)] |}
               Hall eq_refl) in Hm.
    + injection Hm as <-. reflexivity.
    + change (String x (tag +:+ String ":" (String c v)))
        with (String x tag +:+ String ":" (String c v)).
      rewrite consumed_append. unfold tag_value_group.
      cbn [Re.run Re.Opt Re.Plus]. change (Ascii.eqb ":" ":") with true. cbv iota.
      rewrite Hc.
      rewrite <- (append_nil_r v) at 1.
      rewrite (star_greedy Re.dot v EmptyString _
                 {| Re.rest := EmptyString;
                    Re.groups := [("2", String ":" (String c v));
                                  ("value", String c v); ("tag", String x tag)] |}
                 Hv I); [reflexivity|].
      now rewrite !consumed_all.
Qed.

(** What [split_tag] returns: nothing, or a tag that is not empty with a
    value. *)
Lemma split_tag_shape (line : string) :
  split_tag line = (None, None) \/
  exists tag value rest,
    split_tag line = (Some tag, Some value) /\ tag <> EmptyString /\
    Str.all tag_char tag = true /\ line = "#" +:+ tag +:+ rest.
Proof.
  unfold split_tag. destruct (Re.re_match _tag_re line) as [m|] eqn:E; [|now left].
  right. apply re_match_sound in E. destruct E as (pre & -> & Hm).
  unfold _tag_re in Hm. fold tag_value_group in Hm.
  apply matches_seq_inv in Hm. destruct Hm as (s1 & s2 & c1 & c2 & -> & Hc & H1 & H2).
  apply matches_seq_inv in H2. destruct H2 as (s3 & s4 & c3 & c4 & -> & -> & H3 & H4).
  inv_matches.
  - apply tag_value_group_captures in H4. destruct H4 as (v & -> & _).
    unfold Re.group. rewrite Hc. exists s3. eexists. eexists.
    split; [reflexivity|]. split; [assumption|]. split; [assumption|].
    now rewrite !append_assoc.
  - unfold Re.group. rewrite Hc. exists s3. eexists. eexists.
    split; [reflexivity|]. split; [assumption|]. split; [assumption|].
    now rewrite !append_assoc.
Qed.

(** ** The registry and [parse_line] *)

Ltac inv_ok :=
  repeat (match goal with
    | H : bind _ _ = (_, Ok _) |- _ =>
        apply bind_ok in H; destruct H as (? & ? & ? & ? & H & ?)
    | H : lift _ = (_, Ok _) |- _ => apply lift_ok in H; destruct H
    | H : ret _ = (_, Ok _) |- _ => apply ret_ok in H; destruct H
    | H : (if ?b then _ else _) = (_, Ok _) |- _ => destruct b eqn:?
    end; subst).

Ltac unfold_handlers H :=
  unfold parse_tag_ext_x_version, parse_tag_extinf, parse_tag_ext_x_byterange,
    parse_tag_ext_x_discontinuity, parse_tag_ext_x_key, parse_tag_ext_x_map,
    parse_tag_ext_x_program_date_time, parse_tag_ext_x_daterange,
    parse_tag_ext_x_targetduration, parse_tag_ext_x_media_sequence,
    parse_tag_ext_x_discontinuity_sequence, parse_tag_ext_x_endlist,
    parse_tag_ext_x_playlist_type, parse_tag_ext_x_i_frames_only,
    parse_tag_ext_x_media, parse_tag_ext_x_stream_inf,
    parse_tag_ext_x_i_frame_stream_inf, parse_tag_ext_x_session_data,
    parse_tag_ext_x_session_key, parse_tag_ext_x_independent_segments,
    parse_tag_ext_x_start, parse_tag_ext_x_allow_cache, pop in H;
  cbv beta iota zeta in H.

Lemma lookup_tag_In (host : Host) (tag : string) (h : handler)
    (tags : list (string * handler)) :
  lookup_tag tag tags = Some h -> In (tag, h) tags.
Proof.
  induction tags as [|[name h'] tags IH]; simpl; [discriminate|].
  destruct (String.eqb name tag) eqn:E.
  - apply String.eqb_eq in E. intros H. injection H as ->. subst. now left.
  - intros H. right. auto.
Qed.

(** A property of every registered parser holds of the one a tag selects. *)
Lemma lookup_tag_Forall (host : Host) (P : string * handler -> Prop)
    (tag : string) (h : handler) :
  Forall P (_TAGS host) -> lookup_tag tag (_TAGS host) = Some h -> P (tag, h).
Proof.
  intros HP H. apply (lookup_tag_In host) in H.
  rewrite List.Forall_forall in HP. now apply HP.
Qed.

(** [parse_line] on a directive line. *)
Lemma parse_line_directive (host : Host) (self : M3U8Parser.t) (line : string) :
  Str.startswith "#" line = true ->
  parse_line host self line
  = match split_tag line with
    | (Some tag, Some value) =>
        match lookup_tag tag (_TAGS host) with
        | Some parse_tag => parse_tag self value
        | None => ret self
        end
    | _ => ret self
    end.
Proof.
  intros Hs. unfold parse_line. rewrite Hs.
  destruct (split_tag_shape line) as [E | (tag & value & rest & E & Hne & _)];
    rewrite E; [reflexivity|].
  destruct tag; [congruence | reflexivity].
Qed.

(** [parse_line] on a line that is no directive. *)
Lemma parse_line_content (host : Host) (self : M3U8Parser.t) (line : string) :
  Str.startswith "#" line = false ->
  parse_line host self line
  = if M3U8Parser._expect_segment self then
      let self1 := M3U8Parser.set_expect_segment false self in
      let made := get_segment self1 (uri host self1 line) in
      ret (M3U8Parser.on_m3u8
             (fun m => M3U8.set_segments (M3U8.segments m ++ [fst made]) m)
             (snd made))
    else if M3U8Parser._expect_playlist self then
      let self1 := M3U8Parser.set_expect_playlist false self in
      bind (lift (get_playlist self1 (uri host self1 line)))
        (fun made =>
           ret (M3U8Parser.on_m3u8
                  (fun m => M3U8.set_playlists (M3U8.playlists m ++ [fst made]) m)
                  (snd made)))
    else ret self.
Proof.
  intros Hs. unfold parse_line. rewrite Hs.
  destruct (M3U8Parser._expect_segment self); [reflexivity|].
  destruct (M3U8Parser._expect_playlist self); [|reflexivity].
  cbv zeta. destruct (get_playlist _ _) as [[p s]|e]; reflexivity.
Qed.

Lemma get_playlist_ok (self : M3U8Parser.t) (u : string)
    (p : Playlist.t) (self' : M3U8Parser.t) :
  get_playlist self u = Ok (p, self') ->
  self' = M3U8Parser.set_streaminf None self /\
  exists info,
    create_stream_info (streaminf_or (M3U8Parser._streaminf self) ∅) false = Ok info /\
    p = Playlist.mk u info [] false.
Proof.
  unfold get_playlist. cbv zeta.
  destruct (create_stream_info _ false) as [info|e]; simpl; [|discriminate].
  intros H. injection H as <- <-. eauto.
Qed.

Lemma parse_lines_cons_ok (host : Host) (self self'' : M3U8Parser.t)
    (line : string) (lines : list string) (w : list string) :
  parse_lines host self (line :: lines) = (w, Ok self'') ->
  exists self' w1 w2,
    parse_line host self line = (w1, Ok self') /\
    parse_lines host self' lines = (w2, Ok self'') /\ w = w1 ++ w2.
Proof. simpl. intros H. apply bind_ok in H. exact H. Qed.

(** ** The discontinuity sequence *)

Lemma handlers_keep_discontinuity_sequence (host : Host) :
  Forall
    (fun th : string * handler =>
       fst th <> "EXT-X-DISCONTINUTY-SEQUENCE" ->
       forall self value w self',
         snd th self value = (w, Ok self') ->
         M3U8.discontinuity_sequence (M3U8Parser.m3u8 self')
         = M3U8.discontinuity_sequence (M3U8Parser.m3u8 self))
    (_TAGS host).
Proof.
  unfold _TAGS.
  repeat (constructor;
          [simpl fst; simpl snd; intros Hne self value w self' H;
           try congruence; unfold_handlers H; inv_ok; try reflexivity|]).
  constructor.
Qed.

Lemma parse_line_keeps_discontinuity_sequence (host : Host)
    (self self' : M3U8Parser.t) (line : string) (w : list string) :
  parse_line host self line = (w, Ok self') ->
  fst (split_tag line) <> Some "EXT-X-DISCONTINUTY-SEQUENCE" ->
  M3U8.discontinuity_sequence (M3U8Parser.m3u8 self')
  = M3U8.discontinuity_sequence (M3U8Parser.m3u8 self).
Proof.
  intros H Hne. destruct (Str.startswith "#" line) eqn:Hs.
  - rewrite parse_line_directive in H by exact Hs.
    destruct (split_tag line) as [[tag|] [value|]]; inv_ok; try reflexivity.
    destruct (lookup_tag tag (_TAGS host)) as [h|] eqn:El; inv_ok; [|reflexivity].
    pose proof (lookup_tag_Forall host _ _ _
                  (handlers_keep_discontinuity_sequence host) El) as HP.
    simpl in HP. eapply HP; [|exact H]. simpl in Hne. congruence.
  - rewrite parse_line_content in H by exact Hs. cbv zeta in H.
    inv_ok; try reflexivity.
    destruct x as [p s]. apply get_playlist_ok in H0 as [-> _]. reflexivity.
Qed.

Lemma parse_lines_keep_discontinuity_sequence (host : Host) (lines : list string) :
  forall (self self' : M3U8Parser.t) (w : list string),
    parse_lines host self lines = (w, Ok self') ->
    Forall (fun line => fst (split_tag line) <> Some "EXT-X-DISCONTINUTY-SEQUENCE")
      lines ->
    M3U8.discontinuity_sequence (M3U8Parser.m3u8 self')
    = M3U8.discontinuity_sequence (M3U8Parser.m3u8 self).
Proof.
  induction lines as [|line lines IH]; intros self self' w H Hall.
  - apply ret_ok in H as [-> _]. reflexivity.
  - apply parse_lines_cons_ok in H. destruct H as (self1 & w1 & w2 & H1 & H2 & _).
    inversion Hall as [|? ? Hl Hls]; subst.
    rewrite (IH _ _ _ H2 Hls).
    eapply parse_line_keeps_discontinuity_sequence; eauto.
Qed.

Lemma finish_discontinuity_sequence (self : M3U8Parser.t) :
  M3U8.discontinuity_sequence (finish self)
  = M3U8.discontinuity_sequence (M3U8Parser.m3u8 self).
Proof. reflexivity. Qed.

(** C10.  The registry has a parser for the discontinuity sequence under
    the name [EXT-X-DISCONTINUTY-SEQUENCE] only, and none under
    [EXT-X-DISCONTINUITY-SEQUENCE]: a line with the latter tag, whatever
    follows its colon, leaves the parser as it was; a line leaves the
    counter as it was unless its tag is the former; and a document with no
    line of the former tag is loaded with the counter absent. *)
Theorem discontinuity_sequence_tag (host : Host) :
  lookup_tag "EXT-X-DISCONTINUTY-SEQUENCE" (_TAGS host)
  = Some parse_tag_ext_x_discontinuity_sequence /\
  lookup_tag "EXT-X-DISCONTINUITY-SEQUENCE" (_TAGS host) = None /\
  (forall (self : M3U8Parser.t) (v : string),
     fst (split_tag ("#EXT-X-DISCONTINUITY-SEQUENCE:" +:+ v))
     = Some "EXT-X-DISCONTINUITY-SEQUENCE" /\
     parse_line host self ("#EXT-X-DISCONTINUITY-SEQUENCE:" +:+ v) = ([], Ok self)) /\
  (forall (self self' : M3U8Parser.t) (line : string) (w : list string),
     parse_line host self line = (w, Ok self') ->
     fst (split_tag line) <> Some "EXT-X-DISCONTINUTY-SEQUENCE" ->
     M3U8.discontinuity_sequence (M3U8Parser.m3u8 self')
     = M3U8.discontinuity_sequence (M3U8Parser.m3u8 self)) /\
  (forall (data : Data) (base_uri : option string) (w : list string) (doc : M3U8.t),
     load host data base_uri = (w, Ok doc) ->
     Forall (fun line => fst (split_tag line) <> Some "EXT-X-DISCONTINUTY-SEQUENCE")
       (data_lines data) ->
     M3U8.discontinuity_sequence doc = None).
Proof.
  split; [reflexivity|]. split; [reflexivity|]. split; [|split].
  - intros self v.
    assert (Hsplit : exists value,
               split_tag ("#EXT-X-DISCONTINUITY-SEQUENCE:" +:+ v)
               = (Some "EXT-X-DISCONTINUITY-SEQUENCE", Some value)).
    { apply (split_tag_greedy "EXT-X-DISCONTINUITY-SEQUENCE" (String ":" v));
        [discriminate | reflexivity | reflexivity]. }
    destruct Hsplit as (value & Hsplit). rewrite parse_line_directive by reflexivity.
    rewrite Hsplit. split; reflexivity.
  - intros self self' line w. apply parse_line_keeps_discontinuity_sequence.
  - intros data base_uri w doc H Hall. unfold load, parse in H.
    destruct (data_lines data) as [|line lines] eqn:El.
    + apply ret_ok in H as [<- _]. reflexivity.
    + destruct (Str.startswith "#EXTM3U" line); simpl negb in H; cbv iota in H.
      * apply bind_ok in H. destruct H as (self' & w1 & w2 & H & Hr & _).
        apply ret_ok in Hr as [<- _]. rewrite finish_discontinuity_sequence.
        inversion Hall; subst.
        erewrite parse_lines_keep_discontinuity_sequence; eauto. reflexivity.
      * discriminate.
Qed.

(** ** Dispatch of the directive lines *)

(** A registered tag with no value is dispatched, not ignored:
    [#EXT-X-ENDLIST] has no value, and its parser runs on the empty string
    and sets [is_endlist]. *)
Lemma endlist_without_value_dispatched :
  split_tag "#EXT-X-ENDLIST" = (Some "EXT-X-ENDLIST", Some EmptyString) /\
  M3U8.is_endlist (M3U8Parser.m3u8 (M3U8Parser.init None)) = false /\
  exists self',
    parse_line example_host (M3U8Parser.init None) "#EXT-X-ENDLIST" = ([], Ok self') /\
    M3U8.is_endlist (M3U8Parser.m3u8 self') = true.
Proof.
  split; [reflexivity|]. split; [reflexivity|].
  eexists. split; reflexivity.
Qed.

(** The same on every host and every parser. *)
Lemma endlist_dispatched (host : Host) (self : M3U8Parser.t) :
  parse_line host self "#EXT-X-ENDLIST"
  = ([], Ok (M3U8Parser.on_m3u8 (M3U8.set_is_endlist true) self)).
Proof. reflexivity. Qed.

(** C7, amended.  A line that starts with [#] is ignored, parser and
    document unchanged, when it has no tag (it does not match the pattern
    of a tag) or its tag is not in the registry.  Otherwise the parser
    registered for the tag runs on the stripped value; a line that is a
    tag alone has the empty string for value, and is dispatched like any
    other; a line of a tag, a colon and a value has the stripped value. *)
Theorem parse_line_dispatch (host : Host) (self : M3U8Parser.t) (line : string) :
  Str.startswith "#" line = true ->
  (split_tag line = (None, None) \/
   exists tag value, split_tag line = (Some tag, Some value)) /\
  (split_tag line = (None, None) -> parse_line host self line = ([], Ok self)) /\
  (forall tag value,
     split_tag line = (Some tag, Some value) ->
     lookup_tag tag (_TAGS host) = None ->
     parse_line host self line = ([], Ok self)) /\
  (forall tag value parse_tag,
     split_tag line = (Some tag, Some value) ->
     lookup_tag tag (_TAGS host) = Some parse_tag ->
     parse_line host self line = parse_tag self value) /\
  (forall tag,
     tag <> EmptyString -> Str.all tag_char tag = true ->
     split_tag ("#" +:+ tag) = (Some tag, Some EmptyString) /\
     forall v,
       Str.all Re.dot v = true ->
       split_tag ("#" +:+ tag +:+ ":" +:+ v) = (Some tag, Some (Str.strip v))).
Proof.
  intros Hs. rewrite (parse_line_directive host self line Hs).
  split; [|split; [|split; [|split]]].
  - destruct (split_tag_shape line) as [E | (tag & value & rest & E & _)]; eauto.
  - intros ->. reflexivity.
  - intros tag value -> ->. reflexivity.
  - intros tag value h -> ->. reflexivity.
  - intros tag Hne Hall. split; [now apply split_tag_bare|].
    intros v. now apply split_tag_value.
Qed.

Lemma parse_line_dispatch_witness :
  Str.startswith "#" "#EXT-X-PLAYLIST-TYPE: VOD " = true /\
  parse_line example_host (M3U8Parser.init None) "#EXT-X-PLAYLIST-TYPE: VOD "
  = parse_tag_ext_x_playlist_type (M3U8Parser.init None) "VOD".
Proof.
  split; [reflexivity|].
  destruct (parse_line_dispatch example_host (M3U8Parser.init None)
              "#EXT-X-PLAYLIST-TYPE: VOD " eq_refl) as (_ & _ & _ & H & _).
  apply (H "EXT-X-PLAYLIST-TYPE" "VOD"); reflexivity.
Defined.

(** ** Discontinuities *)

Lemma bind_assoc {A B C : Type} (m : M A) (f : A -> M B) (g : B -> M C) :
  bind (bind m f) g = bind m (fun a => bind (f a) g).
Proof.
  destruct m as [w [a|e]]; simpl; [|reflexivity].
  destruct (f a) as [w1 [b|e]]; simpl; [|reflexivity].
  destruct (g b) as [w2 r]. now rewrite app_assoc.
Qed.

Lemma bind_ret_r {A : Type} (m : M A) : bind m ret = m.
Proof. destruct m as [w [a|e]]; simpl; [|reflexivity]. now rewrite app_nil_r. Qed.

Lemma bind_ext {A B : Type} (m : M A) (f g : A -> M B) :
  (forall a, f a = g a) -> bind m f = bind m g.
Proof. intros H. destruct m as [w [a|e]]; simpl; [now rewrite H | reflexivity]. Qed.

Lemma parse_lines_app (host : Host) (l1 l2 : list string) :
  forall self,
    parse_lines host self (l1 ++ l2)
    = bind (parse_lines host self l1) (fun self' => parse_lines host self' l2).
Proof.
  induction l1 as [|line l1 IH]; intros self; cbn [parse_lines app].
  - now rewrite bind_ret_l.
  - rewrite bind_assoc. apply bind_ext. intros s. apply IH.
Qed.

Lemma segment_tag_line_frame (host : Host) (self self' : M3U8Parser.t)
    (line : string) (w : list string) :
  segment_tag_line line ->
  parse_line host self line = (w, Ok self') ->
  M3U8Parser._key self' = M3U8Parser._key self /\
  M3U8Parser._map self' = M3U8Parser._map self /\
  M3U8Parser._discontinuity self' = M3U8Parser._discontinuity self /\
  M3U8Parser.m3u8 self' = M3U8Parser.m3u8 self.
Proof.
  intros (Hs & tag & value & Hsplit & Hin) H.
  rewrite parse_line_directive, Hsplit in H by exact Hs.
  simpl in Hin. destruct Hin as [<- | [<- | [<- | []]]]; simpl in H;
    unfold_handlers H; inv_ok; auto.
Qed.

Lemma segment_tag_lines_frame (host : Host) (lines : list string) :
  forall (self self' : M3U8Parser.t) (w : list string),
    Forall segment_tag_line lines ->
    parse_lines host self lines = (w, Ok self') ->
    M3U8Parser._key self' = M3U8Parser._key self /\
    M3U8Parser._map self' = M3U8Parser._map self /\
    M3U8Parser._discontinuity self' = M3U8Parser._discontinuity self /\
    M3U8Parser.m3u8 self' = M3U8Parser.m3u8 self.
Proof.
  induction lines as [|line lines IH]; intros self self' w Hall H.
  - apply ret_ok in H as [-> _]. auto.
  - apply parse_lines_cons_ok in H. destruct H as (self1 & w1 & w2 & H1 & H2 & _).
    inversion Hall as [|? ? Hl Hls]; subst.
    destruct (IH _ _ _ Hls H2) as (-> & -> & -> & ->).
    eapply segment_tag_line_frame; eauto.
Qed.



(** A document with a key, a map, a discontinuity and a segment. *)
Example discontinuity_document :
  exists doc segment,
    load example_host
      (DataStr ("#EXTM3U" +:+ nl
                +:+ "#EXT-X-KEY:METHOD=AES-128,URI=" +:+ dq +:+ "k" +:+ dq +:+ nl
                +:+ "#EXT-X-MAP:URI=" +:+ dq +:+ "init.mp4" +:+ dq +:+ nl
                +:+ "#EXT-X-DISCONTINUITY" +:+ nl
                +:+ "#EXTINF:10," +:+ nl
                +:+ "seg.ts" +:+ nl))
      None
    = ([], Ok doc) /\
    M3U8.segments doc = [segment] /\
    Segment.map segment = None /\
    Segment.discontinuity segment = true /\
    Segment.key segment = Some (Key.mk "AES-128" (Some "k") None None None).
Proof. eexists. eexists. split; [vm_compute; reflexivity|]. simpl. auto. Qed.

(** ** Attribute lists *)

Lemma attr_re_consumes (s : string) (m : Re.Match) :
  Re.re_match _attr_re s = Some m ->
  (String.length (Re.rest m) < String.length s)%nat.
Proof.
  intros H. apply re_match_sound in H. destruct H as (pre & -> & Hm).
  unfold _attr_re in Hm.
  apply matches_seq_inv in Hm. destruct Hm as (s1 & s2 & c1 & c2 & -> & _ & H1 & _).
  inv_matches. rewrite !length_append.
  destruct s1; [congruence | simpl; lia].
Qed.

(** The fuel of the loop is never used up: every fuel of at least the
    length of the string gives the same result. *)
Lemma parse_attributes_loop_fuel (n : nat) :
  forall (k : nat) (value : string) (res : attrs),
    (String.length value <= n)%nat -> (String.length value <= k)%nat ->
    parse_attributes_loop n value res = parse_attributes_loop k value res.
Proof.
  induction n as [|n IH]; intros k value res Hn Hk.
  - destruct value; [now destruct k | simpl in Hn; lia].
  - destruct value as [|c value]; [now destruct k|].
    destruct k as [|k]; [simpl in Hk; lia|]. cbn [parse_attributes_loop].
    destruct (Re.re_match _attr_re (String c value)) as [m|] eqn:E; [|reflexivity].
    pose proof (attr_re_consumes _ _ E) as Hlt.
    apply IH; simpl in *; lia.
Qed.

Lemma parse_attributes_loop_unfold (fuel : nat) (value : string) (res : attrs) :
  (String.length value <= fuel)%nat ->
  parse_attributes_loop fuel value res
  = match value with
    | EmptyString => ret res
    | String _ _ =>
        match Re.re_match _attr_re value with
        | None => bind (warning discarded_attributes) (fun _ => ret ∅)
        | Some m =>
            parse_attributes_loop (String.length (Re.rest m)) (Re.rest m)
              (<[fst (attr_entry m) := snd (attr_entry m)]> res)
        end
    end.
Proof.
  intros Hle. destruct value as [|c value]; [now destruct fuel|].
  destruct fuel as [|fuel]; [simpl in Hle; lia|]. cbn [parse_attributes_loop].
  destruct (Re.re_match _attr_re (String c value)) as [m|] eqn:E; [|reflexivity].
  pose proof (attr_re_consumes _ _ E) as Hlt.
  apply parse_attributes_loop_fuel; simpl in *; lia.
Qed.

Lemma parse_attributes_loop_entries (value : string) (entries : list (string * string)) :
  attr_list value entries ->
  forall res,
    parse_attributes_loop (String.length value) value res
    = ([], Ok (assign entries res)).
Proof.
  induction 1 as [|value m entries Hne Hm _ IH]; intros res; [reflexivity|].
  rewrite parse_attributes_loop_unfold by lia.
  destruct value; [congruence|]. rewrite Hm, IH. reflexivity.
Qed.

Lemma parse_attributes_loop_broken (value : string) :
  attr_list_broken value ->
  forall res,
    parse_attributes_loop (String.length value) value res
    = ([discarded_attributes], Ok ∅).
Proof.
  induction 1 as [value Hne Hm|value m Hne Hm _ IH]; intros res;
    rewrite parse_attributes_loop_unfold by lia;
    (destruct value; [congruence|]); rewrite Hm; [reflexivity | apply IH].
Qed.

(** Every string is an attribute list or a broken one. *)
Lemma attr_list_total (value : string) :
  (exists entries, attr_list value entries) \/ attr_list_broken value.
Proof.
  remember (String.length value) as n eqn:Hn.
  assert (Hle : (String.length value <= n)%nat) by lia. clear Hn.
  revert value Hle. induction n as [|n IH]; intros value Hle.
  - destruct value; [|simpl in Hle; lia]. left. exists []. constructor.
  - destruct value as [|c value]; [left; exists []; constructor|].
    destruct (Re.re_match _attr_re (String c value)) as [m|] eqn:E.
    + pose proof (attr_re_consumes _ _ E) as Hlt.
      assert (Hr : (String.length (Re.rest m) <= n)%nat) by (simpl in *; lia).
      destruct (IH (Re.rest m) Hr) as [(entries & Hl) | Hb].
      * left. eexists. eapply attr_list_entry; eauto; discriminate.
      * right. eapply attr_list_broken_later; eauto; discriminate.
    + right. apply attr_list_broken_here; [discriminate | exact E].
Qed.

Lemma attr_list_not_broken (value : string) (entries : list (string * string)) :
  attr_list value entries -> attr_list_broken value -> False.
Proof.
  induction 1 as [|value m entries Hne Hm _ IH]; intros Hb.
  - inversion Hb; congruence.
  - inversion Hb as [? ? Hm'|? m' ? Hm' Hb']; subst; [congruence|].
    rewrite Hm in Hm'. injection Hm' as <-. auto.
Qed.

Lemma assign_lookup (entries : list (string * string)) :
  forall (res : attrs) (key : string),
    assign entries res !! key
    = match last_value key entries with
      | Some v => Some v
      | None => res !! key
      end.
Proof.
  induction entries as [|[k v] entries IH]; intros res key; [reflexivity|].
  cbn [assign fold_left last_value fst snd]. fold (assign entries (<[k:=v]> res)).
  rewrite IH. destruct (last_value key entries); [reflexivity|].
  destruct (String.eqb k key) eqn:E.
  - apply String.eqb_eq in E. subst. apply lookup_insert_eq.
  - apply String.eqb_neq in E. now apply lookup_insert_ne.
Qed.

Lemma last_value_In (entries : list (string * string)) (k v : string) :
  In (k, v) entries -> exists v', last_value k entries = Some v'.
Proof.
  induction entries as [|[k' v'] entries IH]; simpl; [tauto|].
  intros [E | H].
  - injection E as -> ->. destruct (last_value k entries); eauto.
    rewrite String.eqb_refl. eauto.
  - destruct (IH H) as (x & ->). eauto.
Qed.

(** [parse_attributes] returns a mapping, whatever the string. *)
Lemma parse_attributes_ok (value : string) :
  exists w attr, parse_attributes value = (w, Ok attr).
Proof.
  unfold parse_attributes. destruct (attr_list_total value) as [(entries & Hl) | Hb].
  - rewrite (parse_attributes_loop_entries value entries Hl). eauto.
  - rewrite (parse_attributes_loop_broken value Hb). eauto.
Qed.

(** C5.  [parse_attributes] never raises, and its result is all or
    nothing.  Either the string is a sequence of entries, each matched
    where the one before ended: then the mapping is the result of
    assigning every entry in order (it has a value for the key of every
    entry, the value of the last entry with that key) and nothing is
    logged.  Or some entry does not match where it is expected: then the
    mapping is empty and one warning is logged. *)
Theorem parse_attributes_all_or_nothing (value : string) :
  (exists entries,
     attr_list value entries /\
     parse_attributes value = ([], Ok (assign entries ∅)) /\
     (forall key, assign entries ∅ !! key = last_value key entries) /\
     (forall k v, In (k, v) entries -> is_Some (assign entries ∅ !! k))) \/
  (attr_list_broken value /\
   parse_attributes value = ([discarded_attributes], Ok ∅)).
Proof.
  destruct (attr_list_total value) as [(entries & Hl) | Hb].
  - left. exists entries. split; [exact Hl|]. split; [|split].
    + now apply parse_attributes_loop_entries.
    + intros key. rewrite assign_lookup, lookup_empty.
      now destruct (last_value key entries).
    + intros k v Hin. rewrite assign_lookup.
      destruct (last_value_In _ _ _ Hin) as (v' & ->). eauto.
  - right. split; [exact Hb|]. now apply parse_attributes_loop_broken.
Qed.

Example parse_attributes_quoted :
  parse_attributes ("BANDWIDTH=1280000,CODECS=" +:+ dq +:+ "a,b" +:+ dq)
  = ([], Ok (assign [("BANDWIDTH", "1280000"); ("CODECS", "a,b")] ∅)).
Proof. vm_compute. reflexivity. Qed.

Example parse_attributes_discarded :
  parse_attributes "BANDWIDTH=1280000,CODECS=a b" = ([discarded_attributes], Ok ∅).
Proof. vm_compute. reflexivity. Qed.

(** ** Numbers *)

Local Open Scope Z_scope.

Lemma size_nat_bound (p : positive) : Zpos p < 2 ^ Z.of_nat (Pos.size_nat p).
Proof.
  induction p as [p IH|p IH|]; cbn [Pos.size_nat].
  - rewrite Nat2Z.inj_succ, Z.pow_succ_r by lia. lia.
  - rewrite Nat2Z.inj_succ, Z.pow_succ_r by lia. lia.
  - reflexivity.
Qed.

Lemma ilog10_fuel_spec (fuel : nat) :
  forall n, 0 < n -> n < 2 ^ Z.of_nat fuel ->
    0 <= Py.ilog10_fuel fuel n /\
    10 ^ Py.ilog10_fuel fuel n <= n < 10 ^ (Py.ilog10_fuel fuel n + 1).
Proof.
  induction fuel as [|fuel IH]; intros n Hpos Hlt.
  - simpl in Hlt. lia.
  - cbn [Py.ilog10_fuel]. destruct (n <? 10) eqn:E.
    + apply Z.ltb_lt in E. simpl. lia.
    + apply Z.ltb_ge in E.
      rewrite Nat2Z.inj_succ, Z.pow_succ_r in Hlt by lia.
      assert (H10 : n = 10 * (n / 10) + n mod 10) by (apply Z.div_mod; lia).
      assert (Hmod : 0 <= n mod 10 < 10) by (apply Z.mod_pos_bound; lia).
      destruct (IH (n / 10)) as (H0 & Hlo & Hhi); [lia | lia |].
      set (r := Py.ilog10_fuel fuel (n / 10)) in *.
      replace (1 + r + 1) with (Z.succ (r + 1)) by lia.
      replace (1 + r) with (Z.succ r) by lia.
      rewrite !Z.pow_succ_r by lia. lia.
Qed.

Lemma ilog10_spec (n : Z) :
  0 < n -> 0 <= Py.ilog10 n /\ 10 ^ Py.ilog10 n <= n < 10 ^ (Py.ilog10 n + 1).
Proof.
  intros H. destruct n as [|p|p]; try lia.
  unfold Py.ilog10. apply ilog10_fuel_spec; [lia | apply size_nat_bound].
Qed.

Lemma round_two_significant (n : Z) :
  0 < n -> two_significant n (Py.round n (1 - Py.ilog10 n)).
Proof.
  intros Hpos. destruct (ilog10_spec n Hpos) as (H0 & Hlo & Hhi).
  exists (Py.ilog10 n). split; [lia|].
  unfold Py.round. destruct (Py.ilog10 n <=? 1) eqn:E.
  - apply Z.leb_le in E.
    replace (0 <=? 1 - Py.ilog10 n) with true by (symmetry; apply Z.leb_le; lia).
    reflexivity.
  - apply Z.leb_gt in E.
    replace (0 <=? 1 - Py.ilog10 n) with false by (symmetry; apply Z.leb_gt; lia).
    replace (- (1 - Py.ilog10 n)) with (Py.ilog10 n - 1) by lia.
    cbv zeta. set (u := 10 ^ (Py.ilog10 n - 1)).
    assert (Hu : 0 < u) by (apply Z.pow_pos_nonneg; lia).
    assert (Hdm : n = u * (n / u) + n mod u) by (apply Z.div_mod; lia).
    assert (Hmod : 0 <= n mod u < u) by (apply Z.mod_pos_bound; lia).
    set (q := n / u) in *. set (r := n mod u) in *.
    destruct (u <? 2 * r) eqn:E1; simpl orb.
    + apply Z.ltb_lt in E1. exists (q + 1). split; [reflexivity|]. split; nia.
    + apply Z.ltb_ge in E1. destruct (2 * r =? u) eqn:E2; simpl andb.
      * apply Z.eqb_eq in E2. destruct (Z.odd q) eqn:E3.
        -- exists (q + 1). split; [reflexivity|]. split; [nia|]. intros _.
           rewrite Z.even_add, <- Z.negb_odd, E3. reflexivity.
        -- exists q. split; [reflexivity|]. split; [nia|]. intros _.
           now rewrite <- Z.negb_odd, E3.
      * apply Z.eqb_neq in E2. exists q. split; [reflexivity|]. split; nia.
Qed.

Local Close Scope Z_scope.

(** *** Strings of digits *)

Lemma digit_facts (c : ascii) :
  Char.digit c = true ->
  Py.num_space c = false /\ Char.space c = false /\
  Char.eqb c "-" = false /\ Char.eqb c "+" = false /\
  Char.eqb c "_" = false /\ Char.eqb c "." = false /\
  (0 <= Py.digit_value c <= 9)%Z.
Proof.
  destruct c as [[] [] [] [] [] [] [] []]; vm_compute;
    intros H; try discriminate H; repeat split; congruence.
Qed.

Lemma lskip_digit (c : ascii) (s : string) :
  Char.digit c = true -> Py.lskip (String c s) = String c s.
Proof. intros H. simpl. now rewrite (proj1 (digit_facts c H)). Qed.

Lemma rskip_no_space (s : string) :
  Str.all (fun c => negb (Py.num_space c)) s = true -> Py.rskip s = s.
Proof.
  induction s as [|c s IH]; [reflexivity|]. rewrite all_cons.
  intros H. apply andb_prop in H as [Hc Hs]. cbn [Py.rskip]. rewrite (IH Hs).
  destruct s; [|reflexivity]. apply negb_true_iff in Hc. now rewrite Hc.
Qed.

Lemma all_impl (p q : ascii -> bool) (s : string) :
  (forall c, p c = true -> q c = true) -> Str.all p s = true -> Str.all q s = true.
Proof.
  intros Hpq. induction s as [|c s IH]; [reflexivity|]. rewrite !all_cons.
  intros H. apply andb_prop in H as [Hc Hs]. now rewrite (Hpq c Hc), (IH Hs).
Qed.

Lemma digits_from_digits (s : string) :
  Str.all Char.digit s = true ->
  forall acc, (0 <= acc)%Z ->
    exists n, Py.digits_from s acc false = Some n /\ (0 <= n)%Z.
Proof.
  induction s as [|c s IH]; intros Hall acc Hacc; [simpl; eauto|].
  rewrite all_cons in Hall. apply andb_prop in Hall as [Hc Hs].
  cbn [Py.digits_from]. rewrite Hc. apply IH; [exact Hs|].
  destruct (digit_facts c Hc) as (_ & _ & _ & _ & _ & _ & Hv). lia.
Qed.

(** [int] reads every string of digits that is not empty. *)
Lemma int_digits (s : string) :
  s <> EmptyString -> Str.all Char.digit s = true ->
  exists n, Py.int s = Ok n /\ (0 <= n)%Z.
Proof.
  intros Hne Hall. destruct s as [|c s]; [congruence|].
  pose proof Hall as Hall'. rewrite all_cons in Hall'.
  apply andb_prop in Hall' as [Hc Hs].
  destruct (digit_facts c Hc) as (Hsp & _ & Hm & Hp & _).
  unfold Py.int, Py.skip_spaces. rewrite (lskip_digit c s Hc).
  rewrite rskip_no_space.
  2:{ eapply all_impl; [|exact Hall]. intros x Hx.
      now rewrite (proj1 (digit_facts x Hx)). }
  rewrite Hm, Hp. unfold Py.digits. rewrite Hc.
  destruct (digits_from_digits (String c s) Hall 0%Z) as (n & -> & Hn); [lia|].
  eauto.
Qed.

(** ** The decoders that read numbers out of a match never raise *)

Ltac int_of_digits :=
  match goal with
  | |- context [Py.int ?s] =>
      let n := fresh "n" in
      let E := fresh "E" in
      destruct (int_digits s) as (n & E & _);
      [assumption | assumption | rewrite E; cbn [rbind]]
  end.

(** [parse_resolution] returns a resolution, whatever the string. *)
Lemma parse_resolution_ok (value : string) :
  exists r, parse_resolution value = Ok r.
Proof.
  unfold parse_resolution.
  destruct (Re.re_match _res_re value) as [m|] eqn:E; [|eauto].
  apply re_match_sound in E. destruct E as (pre & _ & Hm).
  unfold _res_re in Hm. destruct m as [rest groups]. simpl in Hm.
  inv_matches. unfold group_str, Re.group. simpl.
  do 2 int_of_digits. eauto.
Qed.

(** [parse_byterange] returns, whatever the string. *)
Lemma parse_byterange_ok (value : string) :
  exists r, parse_byterange value = Ok r.
Proof.
  unfold parse_byterange.
  destruct (Re.re_match _range_re value) as [m|] eqn:E; [|eauto].
  apply re_match_sound in E. destruct E as (pre & _ & Hm).
  unfold _range_re in Hm. destruct m as [rest groups]. simpl in Hm.
  inv_matches; unfold group_str, Re.group; simpl.
  - do 2 int_of_digits. eauto.
  - int_of_digits. eauto.
Qed.

(** *** Decimal numbers *)

Lemma decimal_char_facts (c : ascii) :
  decimal_char c = true -> Py.num_space c = false /\ Char.eqb c "_" = false.
Proof.
  destruct c as [[] [] [] [] [] [] [] []]; vm_compute;
    intros H; try discriminate H; split; congruence.
Qed.

Lemma underscores_ok_decimal_char (s : string) :
  Str.all decimal_char s = true ->
  forall prev,
    match prev with Some p => Char.eqb p "_" = false | None => True end ->
    Py.underscores_ok prev s = true.
Proof.
  induction s as [|c s IH]; intros Hall prev Hprev.
  - simpl. destruct prev as [p|]; [now rewrite Hprev | reflexivity].
  - rewrite all_cons in Hall. apply andb_prop in Hall as [Hc Hs].
    destruct (decimal_char_facts c Hc) as [_ Hu]. cbn [Py.underscores_ok]. rewrite Hu.
    rewrite (IH Hs (Some c) Hu).
    destruct prev as [p|]; [now rewrite Hprev | reflexivity].
Qed.

Lemma remove_underscores_decimal_char (s : string) :
  Str.all decimal_char s = true -> Py.remove_underscores s = s.
Proof.
  induction s as [|c s IH]; [reflexivity|]. rewrite all_cons.
  intros H. apply andb_prop in H as [Hc Hs]. cbn [Py.remove_underscores].
  now rewrite (proj2 (decimal_char_facts c Hc)), (IH Hs).
Qed.

Lemma span_digits (ds rest : string) :
  Str.all Char.digit ds = true ->
  match rest with String d _ => Char.digit d = false | EmptyString => True end ->
  Py.span Char.digit (ds +:+ rest) = (ds, rest).
Proof.
  intros Hall Hstop. induction ds as [|c ds IH].
  - rewrite append_nil_l. destruct rest as [|d rest]; [reflexivity|].
    simpl. now rewrite Hstop.
  - rewrite all_cons in Hall. apply andb_prop in Hall as [Hc Hs].
    rewrite append_cons. cbn [Py.span]. now rewrite Hc, (IH Hs).
Qed.

Lemma decimal_ok_digits (i : string) :
  i <> EmptyString -> Str.all Char.digit i = true ->
  Py.decimal_ok i = true.
Proof.
  intros Hne Hall. unfold Py.decimal_ok.
  rewrite <- (append_nil_r i) at 1. rewrite (span_digits i EmptyString Hall I).
  destruct i; [congruence | reflexivity].
Qed.

Lemma decimal_ok_point (i f : string) :
  i <> EmptyString -> Str.all Char.digit i = true ->
  Str.all Char.digit f = true ->
  Py.decimal_ok (i +:+ String "." f) = true.
Proof.
  intros Hne Hall Hf. unfold Py.decimal_ok.
  rewrite (span_digits i (String "." f) Hall eq_refl).
  change (Char.eqb "." ".") with true. cbv iota.
  rewrite <- (append_nil_r f) at 1. rewrite (span_digits f EmptyString Hf I).
  destruct i; [congruence | reflexivity].
Qed.

Lemma digit_decimal_char (c : ascii) : Char.digit c = true -> decimal_char c = true.
Proof. unfold decimal_char. now intros ->. Qed.

Lemma float_literal_decimal_char (c : ascii) (s : string) :
  Char.digit c = true -> Str.all decimal_char s = true ->
  Py.decimal_ok (String c s) = true ->
  Py.float_literal_ok (String c s) = true.
Proof.
  intros Hc Hs Hd.
  assert (Hall : Str.all decimal_char (String c s) = true).
  { rewrite all_cons, (digit_decimal_char c Hc). exact Hs. }
  destruct (digit_facts c Hc) as (_ & _ & Hm & Hp & _).
  unfold Py.float_literal_ok.
  rewrite (underscores_ok_decimal_char _ Hall None I), (remove_underscores_decimal_char _ Hall).
  unfold Py.skip_spaces. rewrite (lskip_digit c s Hc).
  rewrite rskip_no_space.
  2:{ eapply all_impl; [|exact Hall]. intros x Hx.
      now rewrite (proj1 (decimal_char_facts x Hx)). }
  unfold Py.drop_sign. rewrite Hm, Hp. cbn [orb andb]. rewrite Hd.
  now rewrite !orb_true_r.
Qed.

(** [float] reads the decimal numbers without sign and exponent. *)
Lemma float_of_decimal (s : string) (c : Re.captures) :
  matches (Re.Seq (Re.Plus Char.digit)
             (Re.Opt (Re.Group "2" (Re.Seq (Re.Chr ".") (Re.Plus Char.digit))))) s c ->
  Py.float_of_str s = Ok (Py.FloatOfStr s).
Proof.
  intros Hm. unfold Py.float_of_str.
  apply matches_seq_inv in Hm. destruct Hm as (i & f & c1 & c2 & -> & _ & Hi & Hf).
  apply matches_plus_inv in Hi. destruct Hi as (Hne & Hall & _).
  assert (Hok : Py.float_literal_ok (i +:+ f) = true).
  { destruct i as [|x i]; [congruence|].
    pose proof Hall as Hall'. rewrite all_cons in Hall'.
    apply andb_prop in Hall' as [Hx Hi].
    apply matches_opt_inv in Hf. destruct Hf as [Hf | [-> _]].
    - inv_matches.
      match goal with
      | H : Str.all Char.digit ?f = true |- context [String x i +:+ "." +:+ ?f] =>
          change (String x i +:+ "." +:+ f) with (String x (i +:+ String "." f));
          apply float_literal_decimal_char;
          [ exact Hx
          | rewrite all_append, all_cons;
            rewrite (all_impl _ _ _ digit_decimal_char Hi), (all_impl _ _ _ digit_decimal_char H);
            reflexivity
          | now apply (decimal_ok_point (String x i) f) ]
      end.
    - rewrite append_nil_r. apply float_literal_decimal_char; [exact Hx | |].
      + now apply (all_impl _ _ _ digit_decimal_char).
      + now apply (decimal_ok_digits (String x i)). }
  now rewrite Hok.
Qed.

(** [parse_extinf] returns, whatever the string. *)
Lemma parse_extinf_ok (value : string) :
  exists e, parse_extinf value = Ok e.
Proof.
  unfold parse_extinf.
  destruct (Re.re_match _extinf_re value) as [m|] eqn:E; [|eauto].
  apply re_match_sound in E. destruct E as (pre & _ & Hm).
  unfold _extinf_re in Hm. destruct m as [rest groups]. simpl in Hm.
  apply matches_seq_inv in Hm. destruct Hm as (s1 & s2 & c1 & c2 & -> & -> & H1 & H2).
  apply matches_group_inv in H1. destruct H1 as (c' & -> & H1).
  apply float_of_decimal in H1.
  assert (Hd : group_str {| Re.rest := rest; Re.groups := c2 ++ ("duration", s1) :: c' |}
                 "duration" = s1).
  { unfold group_str, Re.group. simpl. inv_matches; reflexivity. }
  rewrite Hd, H1. simpl. eauto.
Qed.

(** ** The bandwidth of a stream *)

Lemma stream_resolution_ok (r : option string) :
  exists x, stream_resolution r = Ok x.
Proof.
  unfold stream_resolution. destruct (negb (truthy_opt r)); [eauto|].
  destruct (parse_resolution_ok (default EmptyString r)) as (x & ->). simpl. eauto.
Qed.

(** What [create_stream_info] returns for a bandwidth. *)
Lemma create_stream_info_bandwidth (streaminf : attrs) (iframe : bool) (b : Z) :
  stream_bandwidth (streaminf !! "BANDWIDTH") = Ok b ->
  exists info,
    create_stream_info streaminf iframe = Ok info /\ stream_info_bandwidth info = b.
Proof.
  intros Hb. unfold create_stream_info. rewrite Hb. cbn [rbind].
  destruct (stream_resolution_ok (streaminf !! "RESOLUTION")) as (r & ->). cbn [rbind].
  destruct iframe; eexists; split; reflexivity.
Qed.

Lemma create_stream_info_raise (streaminf : attrs) (iframe : bool) (e : Exn) :
  create_stream_info streaminf iframe = Raise e <->
  stream_bandwidth (streaminf !! "BANDWIDTH") = Raise e.
Proof.
  unfold create_stream_info.
  destruct (stream_bandwidth (streaminf !! "BANDWIDTH")) as [b|e']; cbn [rbind].
  - destruct (stream_resolution_ok (streaminf !! "RESOLUTION")) as (r & ->). cbn [rbind].
    destruct iframe; split; discriminate.
  - split; intros H; injection H as ->; reflexivity.
Qed.


(** The same in a document. *)
Example bandwidth_zero_document :
  load example_host
    (DataStr ("#EXTM3U" +:+ nl +:+ "#EXT-X-STREAM-INF:BANDWIDTH=0" +:+ nl +:+ "v.m3u8"))
    None
  = ([], Raise Py.math_domain_error).
Proof. vm_compute. reflexivity. Qed.



Example bandwidth_absent :
  exists info,
    create_stream_info ∅ true = Ok info /\ stream_info_bandwidth info = 0%Z.
Proof. eexists. split; vm_compute; reflexivity. Qed.

Example bandwidth_tie_to_even :
  stream_bandwidth (Some "1250000") = Ok 1200000%Z /\
  stream_bandwidth (Some "1350000") = Ok 1400000%Z.
Proof. split; vm_compute; reflexivity. Qed.

(** ** [EXT-X-I-FRAME-STREAM-INF] *)


Lemma streaminf_or_cases (pending : option attrs) (attr : attrs) :
  (pending = None \/ pending = Some ∅ -> streaminf_or pending attr = attr) /\
  (forall s, pending = Some s -> s <> ∅ -> streaminf_or pending attr = s).
Proof.
  unfold streaminf_or, attrs_truthy. split.
  - intros [-> | ->]; [reflexivity|]. now rewrite bool_decide_eq_true_2.
  - intros s -> Hs. now rewrite bool_decide_eq_false_2.
Qed.



(** ** The association of the media with the playlists *)

Lemma fold_media_append (l : list Media.t) :
  forall p,
    fold_left media_append l p
    = Playlist.mk (Playlist.uri p) (Playlist.stream_info p)
        (Playlist.media p ++ l) (Playlist.is_iframe p).
Proof.
  induction l as [|m l IH]; intros p.
  - simpl. rewrite app_nil_r. now destruct p.
  - simpl. rewrite IH. simpl. now rewrite <- app_assoc.
Qed.

(** One turn of the loop over the media types. *)
Lemma associate_media_type (media : list Media.t) (p : Playlist.t) (media_type : string) :
  (if truthy_opt (getattr_group (Playlist.stream_info p) media_type) then
     fold_left media_append
       (List.filter
          (fun m =>
             String.eqb (Media.group_id m)
               (default EmptyString
                  (getattr_group (Playlist.stream_info p) media_type)))
          media)
       p
   else p)
  = Playlist.mk (Playlist.uri p) (Playlist.stream_info p)
      (Playlist.media p
       ++ flat_map (media_of_group media)
            match getattr_group (Playlist.stream_info p) media_type with
            | Some g => if Str.truthy g then [g] else []
            | None => []
            end)
      (Playlist.is_iframe p).
Proof.
  destruct (getattr_group (Playlist.stream_info p) media_type) as [[|c g]|];
    cbn [truthy_opt Str.truthy flat_map default from_option id];
    rewrite ?fold_media_append, ?app_nil_r; try reflexivity; now destruct p.
Qed.

(** The loops of the association, in closed form. *)
Lemma associate_media (media : list Media.t) (p : Playlist.t) :
  associate media p
  = Playlist.mk (Playlist.uri p) (Playlist.stream_info p)
      (Playlist.media p
       ++ flat_map (media_of_group media) (group_refs (Playlist.stream_info p)))
      (Playlist.is_iframe p).
Proof.
  unfold associate. cbn [fold_left]. cbv zeta.
  rewrite (associate_media_type media p "audio").
  rewrite (associate_media_type media _ "video").
  rewrite (associate_media_type media _ "subtitles").
  cbn [Playlist.uri Playlist.stream_info Playlist.media Playlist.is_iframe].
  f_equal. rewrite <- !app_assoc. f_equal.
  unfold group_refs. destruct (Playlist.stream_info p) as [s|s];
    cbn [getattr_group String.eqb Ascii.eqb Bool.eqb];
    cbn [flat_map]; rewrite ?List.flat_map_app, ?app_nil_r; reflexivity.
Qed.

(** Every playlist is made with an empty list of media. *)
Lemma handlers_playlists_without_media (host : Host) :
  Forall
    (fun th : string * handler =>
       forall self value w self',
         snd th self value = (w, Ok self') ->
         Forall (fun p => Playlist.media p = []) (M3U8.playlists (M3U8Parser.m3u8 self)) ->
         Forall (fun p => Playlist.media p = []) (M3U8.playlists (M3U8Parser.m3u8 self')))
    (_TAGS host).
Proof.
  unfold _TAGS.
  repeat (constructor;
          [simpl fst; simpl snd; intros self value w self' H Hall;
           unfold_handlers H; inv_ok;
           first [ exact Hall
                 | cbn; apply Forall_app; split; [exact Hall | repeat constructor] ]|]).
  constructor.
Qed.

Lemma parse_line_playlists_without_media (host : Host)
    (self self' : M3U8Parser.t) (line : string) (w : list string) :
  parse_line host self line = (w, Ok self') ->
  Forall (fun p => Playlist.media p = []) (M3U8.playlists (M3U8Parser.m3u8 self)) ->
  Forall (fun p => Playlist.media p = []) (M3U8.playlists (M3U8Parser.m3u8 self')).
Proof.
  intros H Hall. destruct (Str.startswith "#" line) eqn:Hs.
  - rewrite parse_line_directive in H by exact Hs.
    destruct (split_tag line) as [[tag|] [value|]]; inv_ok; try exact Hall.
    destruct (lookup_tag tag (_TAGS host)) as [h|] eqn:El; inv_ok; [|exact Hall].
    pose proof (lookup_tag_Forall host _ _ _
                  (handlers_playlists_without_media host) El) as HP.
    simpl in HP. eapply HP; eauto.
  - rewrite parse_line_content in H by exact Hs. cbv zeta in H.
    inv_ok; try exact Hall.
    destruct x as [p s]. apply get_playlist_ok in H0 as [-> (info & _ & ->)].
    cbn. apply Forall_app. split; [exact Hall | repeat constructor].
Qed.

Lemma parse_lines_playlists_without_media (host : Host) (lines : list string) :
  forall (self self' : M3U8Parser.t) (w : list string),
    parse_lines host self lines = (w, Ok self') ->
    Forall (fun p => Playlist.media p = []) (M3U8.playlists (M3U8Parser.m3u8 self)) ->
    Forall (fun p => Playlist.media p = []) (M3U8.playlists (M3U8Parser.m3u8 self')).
Proof.
  induction lines as [|line lines IH]; intros self self' w H Hall.
  - apply ret_ok in H as [-> _]. exact Hall.
  - apply parse_lines_cons_ok in H. destruct H as (self1 & w1 & w2 & H1 & H2 & _).
    eapply IH; [exact H2|]. eapply parse_line_playlists_without_media; eauto.
Qed.

(** C6.  In the document that [load] returns, the media of every playlist
    are, for each of its audio, video and subtitles references that is not
    empty, in that order, the media of the document whose group is that
    reference, in the order of the document; nothing is left out and
    nothing is removed when a medium comes up for two references. *)
Theorem playlist_media_association (host : Host) (data : Data) (base_uri : option string)
    (w : list string) (doc : M3U8.t) :
  load host data base_uri = (w, Ok doc) ->
  Forall
    (fun p =>
       Playlist.media p
       = flat_map (media_of_group (M3U8.media doc))
           (group_refs (Playlist.stream_info p)))
    (M3U8.playlists doc).
Proof.
  unfold load, parse. intros H.
  destruct (data_lines data) as [|line lines].
  - apply ret_ok in H as [<- _]. constructor.
  - destruct (Str.startswith "#EXTM3U" line); cbn [negb] in H; [|discriminate].
    apply bind_ok in H. destruct H as (self' & w1 & w2 & H & Hr & _).
    apply ret_ok in Hr as [<- _].
    apply parse_lines_playlists_without_media in H; [|constructor].
    unfold finish. cbn. rewrite List.Forall_forall in *.
    intros p Hp. apply List.in_map_iff in Hp. destruct Hp as (p0 & <- & Hp0).
    rewrite associate_media. cbn. now rewrite (H p0 Hp0).
Qed.

Lemma playlist_media_association_witness :
  let aac1 := Media.mk None "AUDIO" "aac" None "a1" false false false None in
  let mp3 := Media.mk None "AUDIO" "mp3" None "m" false false false None in
  let aac2 := Media.mk None "AUDIO" "aac" None "a2" false false false None in
  let text :=
    "#EXTM3U" +:+ nl
    +:+ "#EXT-X-MEDIA:TYPE=AUDIO,GROUP-ID=" +:+ dq +:+ "aac" +:+ dq
    +:+ ",NAME=" +:+ dq +:+ "a1" +:+ dq +:+ nl
    +:+ "#EXT-X-MEDIA:TYPE=AUDIO,GROUP-ID=" +:+ dq +:+ "mp3" +:+ dq
    +:+ ",NAME=" +:+ dq +:+ "m" +:+ dq +:+ nl
    +:+ "#EXT-X-MEDIA:TYPE=AUDIO,GROUP-ID=" +:+ dq +:+ "aac" +:+ dq
    +:+ ",NAME=" +:+ dq +:+ "a2" +:+ dq +:+ nl
    +:+ "#EXT-X-STREAM-INF:BANDWIDTH=1234567,AUDIO=" +:+ dq +:+ "aac" +:+ dq +:+ nl
    +:+ "v.m3u8" +:+ nl in
  exists doc playlist,
    load example_host (DataStr text) None = ([], Ok doc) /\
    M3U8.media doc = [aac1; mp3; aac2] /\
    M3U8.playlists doc = [playlist] /\
    group_refs (Playlist.stream_info playlist) = ["aac"] /\
    Playlist.media playlist
    = flat_map (media_of_group (M3U8.media doc))
        (group_refs (Playlist.stream_info playlist)) /\
    Playlist.media playlist = [aac1; aac2].
Proof.
  intros aac1 mp3 aac2 text.
  assert (H : exists doc, load example_host (DataStr text) None = ([], Ok doc))
    by (eexists; vm_compute; reflexivity).
  destruct H as (doc & H).
  pose proof (playlist_media_association example_host (DataStr text) None [] doc H) as Hall.
  assert (Hdoc : load example_host (DataStr text) None = ([], Ok doc)) by exact H.
  vm_compute in H. injection H as <-.
  cbn [M3U8.playlists] in Hall. apply List.Forall_inv in Hall.
  eexists. eexists. split; [exact Hdoc|]. split; [reflexivity|].
  split; [reflexivity|]. split; [reflexivity|]. split; [exact Hall | reflexivity].
Defined.

(** ** Exceptions *)

Lemma parse_attributes_no_raise (value : string) (w : list string) (e : Exn) :
  parse_attributes value = (w, Raise e) -> False.
Proof.
  destruct (parse_attributes_ok value) as (w' & attr & ->). discriminate.
Qed.

Lemma parse_iso8601_no_raise (host : Host) (value : option string)
    (w : list string) (e : Exn) :
  parse_iso8601 host value = (w, Raise e) -> False.
Proof.
  unfold parse_iso8601. destruct value as [v|]; [|discriminate].
  destruct (parse_datetime host v); discriminate.
Qed.

Lemma parse_extinf_no_raise (value : string) (e : Exn) :
  parse_extinf value = Raise e -> False.
Proof. destruct (parse_extinf_ok value) as (x & ->). discriminate. Qed.

Lemma parse_byterange_no_raise (value : string) (e : Exn) :
  parse_byterange value = Raise e -> False.
Proof. destruct (parse_byterange_ok value) as (x & ->). discriminate. Qed.

Lemma parse_hex_raise (value : option string) (w : list string) (e : Exn) :
  parse_hex value = (w, Raise e) ->
  e = not_ascii /\ w = [] /\
  exists v, value = Some v /\ Str.all Char.is_ascii v = false.
Proof.
  unfold parse_hex. destruct value as [v|]; [|discriminate]. cbv zeta.
  destruct (_ || _); [|discriminate].
  destruct (unhexlify _) eqn:E; try discriminate.
  intros H. inversion H; subst. split; [reflexivity|]. split; [reflexivity|].
  exists v. split; [reflexivity|].
  unfold unhexlify in E.
  destruct (Str.all Char.is_ascii _) eqn:Ha; simpl in E.
  - match type of E with (if ?b then _ else _) = _ => destruct b end; [discriminate|].
    match type of E with match ?x with _ => _ end = _ => destruct x end; discriminate.
  - destruct (Str.all Char.is_ascii v) eqn:Hv; [|reflexivity].
    rewrite all_append in Ha.
    assert (Hd : Str.all Char.is_ascii (Str.drop 2 v) = true).
    { destruct v as [|a [|b v]]; try reflexivity.
      rewrite !all_cons in Hv. apply andb_prop in Hv as [_ Hv].
      apply andb_prop in Hv as [_ Hv]. exact Hv. }
    rewrite Hd, andb_true_r in Ha. destruct (Nat.odd _); discriminate.
Qed.

Lemma stream_bandwidth_raise (host : Host) (b : option string) (e : Exn) :
  stream_bandwidth b = Raise e -> conversion_error host e.
Proof.
  unfold stream_bandwidth. destruct (negb (truthy_opt b)); [discriminate|].
  destruct (Py.int _) as [n|e'] eqn:E; cbn [rbind].
  - unfold Py.int_log10. destruct (n <=? 0)%Z; cbn [rbind]; [|discriminate].
    intros H. injection H as <-. right. right. now left.
  - intros H. injection H as <-. left. eauto.
Qed.

Lemma create_stream_info_conversion (host : Host) (s : attrs) (iframe : bool) (e : Exn) :
  create_stream_info s iframe = Raise e -> conversion_error host e.
Proof.
  intros H. apply create_stream_info_raise in H. eapply stream_bandwidth_raise; eauto.
Qed.

Lemma parse_timedelta_raise (host : Host) (v : option string) (e : Exn) :
  parse_timedelta host v = Raise e -> conversion_error host e.
Proof.
  unfold parse_timedelta. destruct v as [v|]; [|discriminate].
  destruct (Py.float_of_str v) as [f|e'] eqn:E; cbn [rbind].
  - destruct (timedelta_of_seconds host f) as [d|e'] eqn:Et; cbn [rbind]; [discriminate|].
    intros H. injection H as <-. right. right. right. right. eauto.
  - intros H. injection H as <-. right. left. eauto.
Qed.

Ltac inv_raise :=
  repeat (match goal with
    | H : bind _ _ = (_, Raise _) |- _ =>
        apply bind_raise in H; destruct H as [H | (? & ? & ? & ? & H & ?)]
    | H : lift _ = (_, Raise _) |- _ => apply lift_raise in H; destruct H
    | H : ret _ = (_, Raise _) |- _ => discriminate H
    | H : (if ?b then _ else _) = (_, Raise _) |- _ => destruct b eqn:?
    | H : parse_attributes _ = (_, Raise _) |- _ =>
        exfalso; exact (parse_attributes_no_raise _ _ _ H)
    | H : parse_iso8601 _ _ = (_, Raise _) |- _ =>
        exfalso; exact (parse_iso8601_no_raise _ _ _ _ H)
    | H : parse_extinf _ = Raise _ |- _ =>
        exfalso; exact (parse_extinf_no_raise _ _ H)
    | H : parse_byterange _ = Raise _ |- _ =>
        exfalso; exact (parse_byterange_no_raise _ _ H)
    end; subst).

Lemma handlers_raise (host : Host) :
  Forall
    (fun th : string * handler =>
       forall self value w e,
         snd th self value = (w, Raise e) ->
         conversion_error host e /\ In (fst th) unguarded_tags)
    (_TAGS host).
Proof.
  unfold _TAGS.
  repeat (constructor;
          [simpl fst; simpl snd; intros self value w e H;
           unfold_handlers H; inv_raise|]).
  all: try apply List.Forall_nil.
  all: try (split; [|simpl; tauto]).
  all: try (left; eexists; eassumption).
  all: try (right; left; eexists; eassumption).
  all: try match goal with
         | H : parse_hex _ = _ |- _ =>
             apply parse_hex_raise in H; destruct H as (-> & _);
             right; right; right; left; reflexivity
         | H : parse_timedelta _ _ = _ |- _ => exact (parse_timedelta_raise _ _ _ H)
         | H : create_stream_info _ _ = _ |- _ =>
             exact (create_stream_info_conversion _ _ _ _ H)
         | H : match ?x with _ => _ end = Raise _ |- _ =>
             destruct x; [right; left; eexists; eassumption | discriminate H]
         end.
Qed.

(** An exception of [parse_line] is one of a conversion without a guard,
    on a line where such a conversion runs. *)
Lemma parse_line_raise (host : Host) (self : M3U8Parser.t) (line : string)
    (w : list string) (e : Exn) :
  parse_line host self line = (w, Raise e) ->
  conversion_error host e /\ unguarded_line self line.
Proof.
  intros H. unfold unguarded_line. destruct (Str.startswith "#" line) eqn:Hs.
  - rewrite parse_line_directive in H by exact Hs.
    destruct (split_tag line) as [[tag|] [value|]] eqn:Et; try discriminate H.
    destruct (lookup_tag tag (_TAGS host)) as [h|] eqn:El; [|discriminate H].
    pose proof (lookup_tag_Forall host _ _ _ (handlers_raise host) El) as HP.
    simpl in HP. destruct (HP _ _ _ _ H) as [Hc Hin].
    split; [exact Hc|]. left. split; [reflexivity|]. eauto.
  - rewrite parse_line_content in H by exact Hs. cbv zeta in H.
    destruct (M3U8Parser._expect_segment self); [discriminate H|].
    destruct (M3U8Parser._expect_playlist self); [|discriminate H].
    inv_raise. split; [|right; auto].
    unfold get_playlist in H. cbv zeta in H.
    destruct (create_stream_info _ false) as [info|e'] eqn:E; [discriminate H|].
    injection H as <-. eapply create_stream_info_conversion; eauto.
Qed.


(** The same on every host, for every value that [int] rejects. *)
Lemma version_error_escapes (host : Host) (self : M3U8Parser.t) (value : string)
    (e : Exn) (rest : list string) :
  Py.int value = Raise e ->
  parse_tag_ext_x_version self value = ([], Raise e) /\
  (parse_line host self ("#EXT-X-VERSION:" +:+ "abc") = ([], Raise Py.invalid_int) /\
   parse_lines host self (("#EXT-X-VERSION:" +:+ "abc") :: rest)
   = ([], Raise Py.invalid_int)).
Proof.
  intros H. unfold parse_tag_ext_x_version. rewrite H. split; [reflexivity|].
  assert (Hl : parse_line host self ("#EXT-X-VERSION:" +:+ "abc")
               = ([], Raise Py.invalid_int)) by reflexivity.
  split; [exact Hl|]. cbn [parse_lines]. rewrite Hl. reflexivity.
Qed.

Lemma parse_hex_ascii (v : string) :
  Str.all Char.is_ascii v = true ->
  (exists b, parse_hex (Some v) = ([], Ok (Some b))) \/
  parse_hex (Some v) = ([discarded_hex], Ok None).
Proof.
  intros Ha. destruct (parse_hex (Some v)) as [w [r|e]] eqn:E.
  - unfold parse_hex in E. cbv zeta in E.
    destruct (_ || _); [|injection E as <- <-; now right].
    destruct (unhexlify _); inversion E; subst; eauto.
  - apply parse_hex_raise in E. destruct E as (_ & _ & v' & Hv & Hf).
    injection Hv as <-. congruence.
Qed.


(** Every tag of [unguarded_tags], and the URI line of a variant, raises
    on some value. *)
Example unguarded_lines_raise :
  let self := M3U8Parser.init None in
  let raises line e := outcome (parse_line example_host self line) = Raise e in
  raises "#EXT-X-VERSION:1.0" Py.invalid_int /\
  raises "#EXT-X-VERSION" Py.invalid_int /\
  raises "#EXT-X-MEDIA-SEQUENCE:x" Py.invalid_int /\
  raises "#EXT-X-DISCONTINUTY-SEQUENCE:x" Py.invalid_int /\
  raises "#EXT-X-TARGETDURATION:ten" Py.invalid_float /\
  raises "#EXT-X-START:TIME-OFFSET=soon" Py.invalid_float /\
  raises "#EXT-X-DATERANGE:ID=a,DURATION=long" Py.invalid_float /\
  raises ("#EXT-X-KEY:METHOD=AES-128,IV=0x" +:+ String (ascii_of_N 233) EmptyString)
    not_ascii /\
  raises ("#EXT-X-I-FRAME-STREAM-INF:BANDWIDTH=high,URI=" +:+ dq +:+ "i" +:+ dq)
    Py.invalid_int /\
  outcome
    (parse_lines example_host self ["#EXT-X-STREAM-INF:BANDWIDTH=-5"; "v.m3u8"])
  = Raise Py.math_domain_error.
Proof. cbv zeta. repeat split; vm_compute; reflexivity. Qed.

Example media_without_name_dropped :
  parse_line example_host (M3U8Parser.init None)
    ("#EXT-X-MEDIA:TYPE=AUDIO,GROUP-ID=" +:+ dq +:+ "aac" +:+ dq)
  = ([], Ok (M3U8Parser.init None)).
Proof. vm_compute. reflexivity. Qed.

Example key_with_bad_iv :
  exists self' key,
    parse_line example_host (M3U8Parser.init None) "#EXT-X-KEY:METHOD=AES-128,IV=0xZZ"
    = ([discarded_hex], Ok self') /\
    M3U8Parser._key self' = Some key /\ Key.iv key = None.
Proof. eexists. eexists. split; [vm_compute; reflexivity|]. split; reflexivity. Qed.

Example key_with_odd_iv :
  exists self' key,
    parse_line example_host (M3U8Parser.init None) "#EXT-X-KEY:METHOD=AES-128,IV=0x1A2"
    = ([], Ok self') /\
    M3U8Parser._key self' = Some key /\ Key.iv key = Some [1%N; 162%N].
Proof. eexists. eexists. split; [vm_compute; reflexivity|]. split; reflexivity. Qed.

(** * Further properties of the parser *)

(** ** The master flag and the base URI *)

Lemma handlers_keep_uri (host : Host) :
  Forall
    (fun th : string * handler =>
       forall self value w self',
         snd th self value = (w, Ok self') ->
         M3U8.uri (M3U8Parser.m3u8 self') = M3U8.uri (M3U8Parser.m3u8 self))
    (_TAGS host).
Proof.
  unfold _TAGS.
  repeat (constructor;
          [simpl fst; simpl snd; intros self value w self' H;
           unfold_handlers H; inv_ok; reflexivity|]).
  constructor.
Qed.

Lemma parse_line_keeps_uri (host : Host) (self self' : M3U8Parser.t)
    (line : string) (w : list string) :
  parse_line host self line = (w, Ok self') ->
  M3U8.uri (M3U8Parser.m3u8 self') = M3U8.uri (M3U8Parser.m3u8 self).
Proof.
  intros H. destruct (Str.startswith "#" line) eqn:Hs.
  - rewrite parse_line_directive in H by exact Hs.
    destruct (split_tag line) as [[tag|] [value|]]; inv_ok; try reflexivity.
    destruct (lookup_tag tag (_TAGS host)) as [h|] eqn:El; inv_ok; [|reflexivity].
    pose proof (lookup_tag_Forall host _ _ _ (handlers_keep_uri host) El) as HP.
    simpl in HP. eapply HP; eauto.
  - rewrite parse_line_content in H by exact Hs. cbv zeta in H.
    inv_ok; try reflexivity.
    destruct x as [p s]. apply get_playlist_ok in H0 as [-> _]. reflexivity.
Qed.

Lemma parse_lines_keep_uri (host : Host) (lines : list string) :
  forall (self self' : M3U8Parser.t) (w : list string),
    parse_lines host self lines = (w, Ok self') ->
    M3U8.uri (M3U8Parser.m3u8 self') = M3U8.uri (M3U8Parser.m3u8 self).
Proof.
  induction lines as [|line lines IH]; intros self self' w H.
  - apply ret_ok in H as [-> _]. reflexivity.
  - apply parse_lines_cons_ok in H. destruct H as (self1 & w1 & w2 & H1 & H2 & _).
    rewrite (IH _ _ _ H2). eapply parse_line_keeps_uri; eauto.
Qed.

(** What [load] returns when it returns: the parts of the run. *)
Lemma load_ok (host : Host) (data : Data) (base_uri : option string)
    (w : list string) (doc : M3U8.t) :
  load host data base_uri = (w, Ok doc) ->
  let base :=
    match base_uri, data with
    | None, DataResponse r => Some (url r)
    | _, _ => base_uri
    end in
  (data_lines data = [] /\ doc = M3U8.init base /\ w = []) \/
  exists line lines self',
    data_lines data = line :: lines /\
    Str.startswith "#EXTM3U" line = true /\
    parse_lines host (M3U8Parser.init base) lines = (w, Ok self') /\
    doc = finish self'.
Proof.
  intros H base. unfold load, parse in H. fold base in H.
  destruct (data_lines data) as [|line lines].
  - left. apply ret_ok in H as [<- <-]. auto.
  - right. destruct (Str.startswith "#EXTM3U" line) eqn:Hs; cbn [negb] in H;
      [|discriminate].
    apply bind_ok in H. destruct H as (self' & w1 & w2 & H & Hr & ->).
    apply ret_ok in Hr as [<- ->]. rewrite app_nil_r.
    exists line, lines, self'. auto.
Qed.

(** X1.  The document that [load] returns is a master playlist exactly
    when it has a playlist, and its URI is the base URI that was given, or
    the URL of the response when none was given. *)
Theorem load_master_and_uri (host : Host) (data : Data) (base_uri : option string)
    (w : list string) (doc : M3U8.t) :
  load host data base_uri = (w, Ok doc) ->
  (M3U8.is_master doc = true <-> M3U8.playlists doc <> []) /\
  M3U8.uri doc
  = match base_uri, data with
    | None, DataResponse r => Some (url r)
    | _, _ => base_uri
    end.
Proof.
  intros H. apply load_ok in H. cbv zeta in H.
  destruct H as [(_ & -> & _) | (line & lines & self' & _ & _ & H & ->)].
  - split; [simpl; split; [discriminate | congruence] | reflexivity].
  - apply parse_lines_keep_uri in H. split.
    + unfold finish. cbn.
      destruct (M3U8.playlists (M3U8Parser.m3u8 self')); cbn;
        split; congruence.
    + exact H.
Qed.

Lemma load_master_and_uri_witness :
  let data :=
    DataResponse
      {| url := "http://host/a/index.m3u8";
         iter_lines := ["#EXTM3U"; "#EXT-X-STREAM-INF:BANDWIDTH=1000"; "http://host/v"] |} in
  exists doc,
    load example_host data None = ([], Ok doc) /\
    (M3U8.is_master doc = true <-> M3U8.playlists doc <> []) /\
    M3U8.uri doc = Some "http://host/a/index.m3u8" /\
    M3U8.is_master doc = true.
Proof.
  intros data.
  assert (H : exists doc, load example_host data None = ([], Ok doc))
    by (eexists; vm_compute; reflexivity).
  destruct H as (doc & H). exists doc. split; [exact H|].
  destruct (load_master_and_uri example_host data None [] doc H) as [Hm Hu].
  split; [exact Hm|]. split; [exact Hu|].
  vm_compute in H. injection H as <-. reflexivity.
Defined.

(** ** The lists of the document only grow *)

Ltac solve_suffix :=
  first [ exists []; cbn; now rewrite app_nil_r | eexists; cbn; reflexivity ].

Lemma appends_to_refl (m : M3U8.t) : appends_to m m.
Proof. unfold appends_to. repeat split; exists []; now rewrite app_nil_r. Qed.

Lemma appends_to_trans (a b c : M3U8.t) :
  appends_to a b -> appends_to b c -> appends_to a c.
Proof.
  unfold appends_to.
  intros ((s1 & Hs1) & (p1 & Hp1) & (m1 & Hm1) & (d1 & Hd1))
         ((s2 & Hs2) & (p2 & Hp2) & (m2 & Hm2) & (d2 & Hd2)).
  rewrite Hs2, Hp2, Hm2, Hd2, Hs1, Hp1, Hm1, Hd1, <- !app_assoc. eauto 10.
Qed.

Lemma handlers_append (host : Host) :
  Forall
    (fun th : string * handler =>
       forall self value w self',
         snd th self value = (w, Ok self') ->
         appends_to (M3U8Parser.m3u8 self) (M3U8Parser.m3u8 self') /\
         M3U8.segments (M3U8Parser.m3u8 self') = M3U8.segments (M3U8Parser.m3u8 self))
    (_TAGS host).
Proof.
  unfold _TAGS.
  repeat (constructor;
          [simpl fst; simpl snd; intros self value w self' H;
           unfold_handlers H; inv_ok;
           (split; [unfold appends_to; repeat split; solve_suffix | reflexivity])|]).
  constructor.
Qed.

Lemma parse_line_appends (host : Host) (self self' : M3U8Parser.t)
    (line : string) (w : list string) :
  parse_line host self line = (w, Ok self') ->
  appends_to (M3U8Parser.m3u8 self) (M3U8Parser.m3u8 self') /\
  (length (M3U8.segments (M3U8Parser.m3u8 self'))
   <= length (M3U8.segments (M3U8Parser.m3u8 self))
      + (if content_line line then 1 else 0))%nat.
Proof.
  intros H. unfold content_line. destruct (Str.startswith "#" line) eqn:Hs; cbn [negb].
  - rewrite parse_line_directive in H by exact Hs.
    assert (Hsame : forall s : M3U8Parser.t,
               appends_to (M3U8Parser.m3u8 s) (M3U8Parser.m3u8 s) /\
               (length (M3U8.segments (M3U8Parser.m3u8 s))
                <= length (M3U8.segments (M3U8Parser.m3u8 s)) + 0)%nat)
      by (intros s; split; [apply appends_to_refl | lia]).
    destruct (split_tag line) as [[tag|] [value|]]; inv_ok; try apply Hsame.
    destruct (lookup_tag tag (_TAGS host)) as [h|] eqn:El; inv_ok; [|apply Hsame].
    pose proof (lookup_tag_Forall host _ _ _ (handlers_append host) El) as HP.
    simpl in HP. destruct (HP _ _ _ _ H) as [Ha Hseg].
    split; [exact Ha | rewrite Hseg; lia].
  - rewrite parse_line_content in H by exact Hs. cbv zeta in H. inv_ok.
    + split; [unfold appends_to; repeat split; solve_suffix|].
      cbn. rewrite length_app. simpl. lia.
    + destruct x as [p s]. apply get_playlist_ok in H0 as [-> _].
      split; [unfold appends_to; repeat split; solve_suffix | cbn; lia].
    + split; [apply appends_to_refl | lia].
Qed.

(** X2.  Reading lines only appends to the segments, playlists, media
    and date ranges of the document: what was there stays, in its place.
    A directive never adds a segment, so there are at most as many new
    segments as content lines. *)
Theorem parse_lines_append_only (host : Host) (lines : list string) :
  forall (self self' : M3U8Parser.t) (w : list string),
    parse_lines host self lines = (w, Ok self') ->
    appends_to (M3U8Parser.m3u8 self) (M3U8Parser.m3u8 self') /\
    (length (M3U8.segments (M3U8Parser.m3u8 self'))
     <= length (M3U8.segments (M3U8Parser.m3u8 self))
        + length (List.filter content_line lines))%nat.
Proof.
  induction lines as [|line lines IH]; intros self self' w H.
  - apply ret_ok in H as [-> _]. split; [apply appends_to_refl | simpl; lia].
  - apply parse_lines_cons_ok in H. destruct H as (self1 & w1 & w2 & H1 & H2 & _).
    destruct (parse_line_appends _ _ _ _ _ H1) as [Ha1 Hn1].
    destruct (IH _ _ _ H2) as [Ha2 Hn2].
    split; [eapply appends_to_trans; eauto|].
    cbn [List.filter]. destruct (content_line line); simpl length; lia.
Qed.

Lemma parse_lines_append_only_witness :
  exists self',
    parse_lines example_host (M3U8Parser.init None)
      ["#EXTINF:4"; "a.ts"; "stray"; "#EXTINF:4"; "b.ts"] = ([], Ok self') /\
    appends_to (M3U8Parser.m3u8 (M3U8Parser.init None)) (M3U8Parser.m3u8 self') /\
    (length (M3U8.segments (M3U8Parser.m3u8 self')) <= 0 + 3)%nat /\
    length (M3U8.segments (M3U8Parser.m3u8 self')) = 2%nat.
Proof.
  assert (H : exists self',
             parse_lines example_host (M3U8Parser.init None)
               ["#EXTINF:4"; "a.ts"; "stray"; "#EXTINF:4"; "b.ts"] = ([], Ok self'))
    by (eexists; vm_compute; reflexivity).
  destruct H as (self' & H). exists self'. split; [exact H|].
  destruct (parse_lines_append_only example_host _ _ _ _ H) as [Ha Hn].
  split; [exact Ha|]. split; [exact Hn|].
  vm_compute in H. injection H as <-. reflexivity.
Defined.

(** ** Segments *)

Lemma extinf_line_frame (host : Host) (self self' : M3U8Parser.t)
    (line : string) (w : list string) :
  extinf_line line ->
  parse_line host self line = (w, Ok self') ->
  self' = M3U8Parser.set_extinf (M3U8Parser._extinf self')
            (M3U8Parser.set_expect_segment true self) /\
  M3U8Parser._extinf self' <> None.
Proof.
  intros (Hs & value & Hsplit) H.
  rewrite parse_line_directive, Hsplit in H by exact Hs. simpl in H.
  unfold_handlers H. inv_ok. split; [reflexivity | discriminate].
Qed.

Lemma extinf_lines_frame (host : Host) (lines : list string) :
  forall (self self' : M3U8Parser.t) (w : list string),
    Forall extinf_line lines ->
    parse_lines host self lines = (w, Ok self') ->
    lines <> [] ->
    self' = M3U8Parser.set_extinf (M3U8Parser._extinf self')
              (M3U8Parser.set_expect_segment true self).
Proof.
  induction lines as [|line lines IH]; intros self self' w Hall H Hne; [congruence|].
  apply parse_lines_cons_ok in H. destruct H as (self1 & w1 & w2 & H1 & H2 & _).
  inversion Hall as [|? ? Hl Hls]; subst.
  destruct (extinf_line_frame _ _ _ _ _ Hl H1) as [E1 _].
  destruct lines as [|l2 lines].
  - apply ret_ok in H2 as [<- _]. exact E1.
  - rewrite (IH _ _ _ Hls H2) by discriminate. rewrite E1. reflexivity.
Qed.



(** ** Variants

    [self._streaminf or {}] with pending attributes is these attributes. *)
Lemma streaminf_or_own (attr : attrs) : streaminf_or (Some attr) ∅ = attr.
Proof.
  unfold streaminf_or, attrs_truthy.
  destruct (bool_decide (attr = ∅)) eqn:E; [|reflexivity].
  apply bool_decide_eq_true in E. now subst.
Qed.


(** ** The lines of a text *)

Lemma rev_onto_append (a b acc : string) :
  Str.rev_onto (a +:+ b) acc = Str.rev_onto b (Str.rev_onto a acc).
Proof.
  revert acc. induction a as [|c a IH]; intros acc; [reflexivity|].
  rewrite append_cons. simpl. apply IH.
Qed.

Lemma rev_onto_acc (s acc : string) :
  Str.rev_onto s acc = Str.rev_onto s EmptyString +:+ acc.
Proof.
  revert acc. induction s as [|c s IH]; intros acc; [reflexivity|].
  simpl. rewrite (IH (String c acc)), (IH (String c EmptyString)).
  now rewrite append_assoc.
Qed.

Lemma rev_rev_onto (s acc : string) :
  Str.rev (Str.rev_onto s acc) = Str.rev acc +:+ s.
Proof.
  revert acc. induction s as [|c s IH]; intros acc.
  - simpl. now rewrite append_nil_r.
  - simpl. rewrite IH. unfold Str.rev. simpl.
    rewrite (rev_onto_acc acc (String c EmptyString)).
    now rewrite append_assoc.
Qed.

Lemma splitlines_from_text (l rest cur : string) :
  line_text l = true ->
  Str.splitlines_from cur (l +:+ rest) = Str.splitlines_from (Str.rev_onto l cur) rest.
Proof.
  unfold line_text. revert cur. induction l as [|c l IH]; intros cur H; [reflexivity|].
  rewrite all_cons in H. apply andb_prop in H as [Hc Hl].
  rewrite append_cons, splitlines_from_cons.
  apply negb_true_iff in Hc. rewrite Hc. simpl. now apply IH.
Qed.

Lemma splitlines_last (last : string) :
  line_text last = true ->
  Str.splitlines_from EmptyString last
  = if Str.truthy last then [last] else [].
Proof.
  intros H. rewrite <- (append_nil_r last) at 1.
  rewrite splitlines_from_text by exact H. simpl.
  destruct last as [|c last]; [reflexivity|].
  assert (Hr : Str.rev (Str.rev_onto (String c last) EmptyString) = String c last)
    by (rewrite rev_rev_onto; reflexivity).
  destruct (Str.rev_onto (String c last) EmptyString) eqn:E.
  - discriminate Hr.
  - now rewrite Hr.
Qed.

(** What follows a line end: not a line feed after a carriage return alone. *)
Lemma unlines_start (term last : string) (lines : list string) :
  In term line_ends -> Forall (fun l => line_text l = true) lines ->
  line_text last = true ->
  term = String Char.CR EmptyString ->
  match unlines term lines +:+ last with
  | String d _ => Char.eqb d Char.LF = false
  | EmptyString => True
  end.
Proof.
  intros _ Hall Hlast ->.
  assert (Htext : forall l rest, line_text l = true ->
            match rest with String d _ => Char.eqb d Char.LF = false | EmptyString => True end ->
            match l +:+ rest with String d _ => Char.eqb d Char.LF = false | EmptyString => True end).
  { intros l rest Hl Hrest. destruct l as [|c l]; [exact Hrest|].
    unfold line_text in Hl. rewrite all_cons in Hl. apply andb_prop in Hl as [Hc _].
    rewrite append_cons.
    destruct c as [[] [] [] [] [] [] [] []]; try reflexivity; discriminate Hc. }
  destruct lines as [|l lines].
  - simpl. rewrite append_nil_l. rewrite <- (append_nil_r last). now apply Htext.
  - inversion Hall; subst. cbn [unlines]. rewrite !append_assoc.
    apply Htext; [assumption|]. reflexivity.
Qed.

Lemma splitlines_unlines (term last : string) (lines : list string) :
  In term line_ends -> Forall (fun l => line_text l = true) lines ->
  line_text last = true ->
  Str.splitlines (unlines term lines +:+ last)
  = lines ++ (if Str.truthy last then [last] else []).
Proof.
  intros Hterm Hall Hlast. unfold Str.splitlines.
  induction Hall as [|l lines Hl Hall IH].
  - simpl. rewrite append_nil_l. now apply splitlines_last.
  - cbn [unlines]. rewrite !append_assoc, splitlines_from_text by exact Hl.
    cbn [app]. rewrite <- IH.
    assert (Hrev : Str.rev (Str.rev_onto l EmptyString) = l)
      by (rewrite rev_rev_onto; reflexivity).
    pose proof (unlines_start term last lines Hterm Hall Hlast) as Hstart.
    destruct Hterm as [<- | [<- | [<- | []]]].
    + rewrite append_cons, append_nil_l, splitlines_from_cons.
      change (Char.linebreak Char.LF) with true. cbv iota.
      destruct (unlines _ lines +:+ last) eqn:E.
      * rewrite Hrev. reflexivity.
      * rewrite Hrev. reflexivity.
    + rewrite !append_cons, append_nil_l, splitlines_from_cons.
      change (Char.linebreak Char.CR) with true. cbv iota.
      change (Char.eqb Char.CR Char.CR && Char.eqb Char.LF Char.LF) with true.
      cbv iota. now rewrite Hrev.
    + rewrite append_cons, append_nil_l, splitlines_from_cons.
      change (Char.linebreak Char.CR) with true. cbv iota.
      specialize (Hstart eq_refl).
      destruct (unlines _ lines +:+ last) eqn:E.
      * rewrite Hrev. reflexivity.
      * rewrite Hstart, andb_false_r, Hrev. reflexivity.
Qed.

(** X5.  Of a text made of lines, each one followed by the same line end
    (a line feed, a carriage return and a line feed, or a carriage return
    alone), and possibly a last line without a line end, the parser reads
    the lines that are not empty, in their order: splitting undoes the
    joining, and empty lines are skipped. *)
Theorem data_lines_of_text (term last : string) (lines : list string) :
  In term line_ends -> Forall (fun l => line_text l = true) lines ->
  line_text last = true ->
  data_lines (DataStr (unlines term lines +:+ last))
  = List.filter Str.truthy (lines ++ [last]).
Proof.
  intros Hterm Hall Hlast. unfold data_lines.
  rewrite splitlines_unlines by assumption.
  rewrite !List.filter_app. f_equal.
  destruct last; reflexivity.
Qed.

Lemma data_lines_of_text_witness :
  data_lines
    (DataStr
       (unlines (String Char.CR (String Char.LF EmptyString))
          ["#EXTM3U"; ""; "#EXTINF:4,"; "a.ts"] +:+ "b.ts"))
  = ["#EXTM3U"; "#EXTINF:4,"; "a.ts"; "b.ts"].
Proof.
  apply (data_lines_of_text (String Char.CR (String Char.LF EmptyString)) "b.ts"
           ["#EXTM3U"; ""; "#EXTINF:4,"; "a.ts"]).
  - right. left. reflexivity.
  - repeat constructor.
  - reflexivity.
Defined.

Lemma all_rev_onto (p : ascii -> bool) (s acc : string) :
  Str.all p (Str.rev_onto s acc) = Str.all p s && Str.all p acc.
Proof.
  revert acc. induction s as [|c s IH]; intros acc; [reflexivity|].
  simpl Str.rev_onto. rewrite IH, !all_cons.
  destruct (p c), (Str.all p s), (Str.all p acc); reflexivity.
Qed.

Lemma splitlines_from_line_text (n : nat) :
  forall s cur, (String.length s <= n)%nat -> line_text cur = true ->
    Forall (fun l => line_text l = true) (Str.splitlines_from cur s).
Proof.
  induction n as [|n IH]; intros s cur Hle Hcur;
    assert (Hrev : line_text (Str.rev cur) = true)
      by (unfold line_text, Str.rev in *; now rewrite all_rev_onto, Hcur).
  - destruct s; [|simpl in Hle; lia]. simpl.
    destruct cur; constructor; [exact Hrev | constructor].
  - destruct s as [|c s].
    + simpl. destruct cur; constructor; [exact Hrev | constructor].
    + simpl in Hle. rewrite splitlines_from_cons.
      destruct (Char.linebreak c) eqn:Hc.
      * destruct s as [|d s]; [constructor; [exact Hrev | constructor]|].
        simpl in Hle.
        destruct (Char.eqb c Char.CR && Char.eqb d Char.LF);
          constructor; try exact Hrev; apply IH; simpl; try lia; reflexivity.
      * apply IH; [lia|]. unfold line_text. rewrite all_cons, Hc. exact Hcur.
Qed.

(** X6.  Every line that the parser reads from a string is not empty and
    has no line boundary in it: no line feed, no carriage return and none
    of the other characters at which [splitlines] splits; so the dot of
    the patterns matches each of its characters. *)
Theorem data_lines_are_lines (s : string) :
  Forall (fun l => l <> EmptyString /\ line_text l = true /\ Str.all Re.dot l = true)
    (data_lines (DataStr s)).
Proof.
  unfold data_lines. rewrite List.Forall_forall. intros l Hin.
  apply List.filter_In in Hin as [Hin Ht].
  pose proof (splitlines_from_line_text (String.length s) s EmptyString
                (Nat.le_refl _) eq_refl) as H.
  rewrite List.Forall_forall in H. specialize (H l Hin).
  split; [destruct l; [discriminate | discriminate]|]. split; [exact H|].
  eapply all_impl; [|exact H]. intros c Hc. unfold Re.dot.
  destruct c as [[] [] [] [] [] [] [] []]; try reflexivity; discriminate Hc.
Qed.
(** ** References without a base URI *)

Lemma uri_without_base (host : Host) (self : M3U8Parser.t) (line : string) :
  truthy_opt (M3U8.uri (M3U8Parser.m3u8 self)) = false -> uri host self line = line.
Proof.
  intros H. unfold uri. rewrite H, andb_false_r.
  now destruct (Str.truthy line && Str.truthy (urlparse_scheme host line)).
Qed.

Lemma handlers_iframe_playlists (host : Host) :
  Forall
    (fun th : string * handler =>
       forall self value w self',
         snd th self value = (w, Ok self') ->
         M3U8.segments (M3U8Parser.m3u8 self') = M3U8.segments (M3U8Parser.m3u8 self) /\
         forall P : Playlist.t -> Prop,
           (forall p, Playlist.is_iframe p = true -> P p) ->
           Forall P (M3U8.playlists (M3U8Parser.m3u8 self)) ->
           Forall P (M3U8.playlists (M3U8Parser.m3u8 self')))
    (_TAGS host).
Proof.
  unfold _TAGS.
  repeat (constructor;
          [simpl fst; simpl snd; intros self value w self' H;
           unfold_handlers H; inv_ok;
           (split; [reflexivity|]); intros P HP Hall;
           first [ exact Hall
                 | cbn; apply Forall_app; split;
                   [exact Hall | constructor; [now apply HP | constructor]] ]|]).
  constructor.
Qed.

Lemma parse_line_verbatim (host : Host) (lines : list string)
    (self self' : M3U8Parser.t) (line : string) (w : list string) :
  parse_line host self line = (w, Ok self') ->
  truthy_opt (M3U8.uri (M3U8Parser.m3u8 self)) = false ->
  In line lines ->
  Forall (fun s => line_of lines (Segment.uri s))
    (M3U8.segments (M3U8Parser.m3u8 self)) ->
  Forall (fun p => Playlist.is_iframe p = false -> line_of lines (Playlist.uri p))
    (M3U8.playlists (M3U8Parser.m3u8 self)) ->
  Forall (fun s => line_of lines (Segment.uri s))
    (M3U8.segments (M3U8Parser.m3u8 self')) /\
  Forall (fun p => Playlist.is_iframe p = false -> line_of lines (Playlist.uri p))
    (M3U8.playlists (M3U8Parser.m3u8 self')).
Proof.
  intros H Hbase Hin Hseg Hpl. destruct (Str.startswith "#" line) eqn:Hs.
  - rewrite parse_line_directive in H by exact Hs.
    destruct (split_tag line) as [[tag|] [value|]]; inv_ok; try (split; assumption).
    destruct (lookup_tag tag (_TAGS host)) as [h|] eqn:El; inv_ok; [|split; assumption].
    pose proof (lookup_tag_Forall host _ _ _ (handlers_iframe_playlists host) El) as HP.
    simpl in HP. destruct (HP _ _ _ _ H) as [E HP'].
    split; [now rewrite E|]. apply HP'; [|exact Hpl]. intros p Hp. congruence.
  - assert (Hline : line_of lines line).
    { unfold line_of. apply List.filter_In. split; [exact Hin|].
      unfold content_line. now rewrite Hs. }
    rewrite parse_line_content in H by exact Hs. cbv zeta in H.
    inv_ok; try (split; assumption).
    + split; [|exact Hpl]. cbn. apply Forall_app. split; [exact Hseg|].
      constructor; [|constructor]. cbn.
      rewrite uri_without_base by exact Hbase. exact Hline.
    + destruct x as [p s]. apply get_playlist_ok in H0 as [-> (info & _ & ->)].
      split; [exact Hseg|]. cbn. apply Forall_app. split; [exact Hpl|].
      constructor; [|constructor]. cbn. intros _.
      rewrite uri_without_base by exact Hbase. exact Hline.
Qed.

Lemma parse_lines_verbatim (host : Host) (all_lines : list string) (lines : list string) :
  forall (self self' : M3U8Parser.t) (w : list string),
    parse_lines host self lines = (w, Ok self') ->
    truthy_opt (M3U8.uri (M3U8Parser.m3u8 self)) = false ->
    (forall l, In l lines -> In l all_lines) ->
    Forall (fun s => line_of all_lines (Segment.uri s))
      (M3U8.segments (M3U8Parser.m3u8 self)) ->
    Forall (fun p => Playlist.is_iframe p = false -> line_of all_lines (Playlist.uri p))
      (M3U8.playlists (M3U8Parser.m3u8 self)) ->
    Forall (fun s => line_of all_lines (Segment.uri s))
      (M3U8.segments (M3U8Parser.m3u8 self')) /\
    Forall (fun p => Playlist.is_iframe p = false -> line_of all_lines (Playlist.uri p))
      (M3U8.playlists (M3U8Parser.m3u8 self')).
Proof.
  induction lines as [|line lines IH]; intros self self' w H Hbase Hin Hseg Hpl.
  - apply ret_ok in H as [-> _]. split; assumption.
  - apply parse_lines_cons_ok in H. destruct H as (self1 & w1 & w2 & H1 & H2 & _).
    destruct (parse_line_verbatim host all_lines _ _ _ _ H1 Hbase
                (Hin line (or_introl eq_refl)) Hseg Hpl) as [Hseg1 Hpl1].
    apply (IH _ _ _ H2); try assumption.
    + now rewrite (parse_line_keeps_uri _ _ _ _ _ H1).
    + intros l Hl. apply Hin. now right.
Qed.

(** X7.  When the document has no URI to resolve references against
    (none was given, or an empty one), the URI of every segment and of
    every playlist that is no i-frame playlist is, to the letter, one of
    the lines of the input that are no directives. *)
Theorem uris_verbatim_without_base (host : Host) (data : Data)
    (base_uri : option string) (w : list string) (doc : M3U8.t) :
  load host data base_uri = (w, Ok doc) ->
  truthy_opt (M3U8.uri doc) = false ->
  Forall (fun s => line_of (data_lines data) (Segment.uri s)) (M3U8.segments doc) /\
  Forall (fun p => Playlist.is_iframe p = false ->
                   line_of (data_lines data) (Playlist.uri p))
    (M3U8.playlists doc).
Proof.
  intros H Hbase. apply load_ok in H. cbv zeta in H.
  destruct H as [(_ & -> & _) | (line & lines & self' & Hl & _ & H & ->)].
  - split; constructor.
  - pose proof (parse_lines_keep_uri _ _ _ _ _ H) as Hu.
    change (M3U8.uri (finish self')) with (M3U8.uri (M3U8Parser.m3u8 self')) in Hbase.
    rewrite Hu in Hbase.
    destruct (parse_lines_verbatim host (data_lines data) lines _ _ _ H Hbase)
      as [Hseg Hpl].
    + intros l Hin. rewrite Hl. now right.
    + constructor.
    + constructor.
    + split; [exact Hseg|]. unfold finish. cbn.
      rewrite List.Forall_forall in *. intros p Hp.
      apply List.in_map_iff in Hp. destruct Hp as (p0 & <- & Hp0).
      rewrite associate_media. cbn. now apply Hpl.
Qed.

Lemma uris_verbatim_without_base_witness :
  let data := DataStr ("#EXTM3U" +:+ nl +:+ "#EXTINF:4," +:+ nl +:+ "a.ts" +:+ nl) in
  exists doc,
    load example_host data None = ([], Ok doc) /\
    map Segment.uri (M3U8.segments doc) = ["a.ts"] /\
    Forall (fun s => line_of (data_lines data) (Segment.uri s)) (M3U8.segments doc).
Proof.
  intros data.
  assert (H : exists doc, load example_host data None = ([], Ok doc))
    by (eexists; vm_compute; reflexivity).
  destruct H as (doc & H). exists doc. split; [exact H|].
  assert (Hu : truthy_opt (M3U8.uri doc) = false /\
               map Segment.uri (M3U8.segments doc) = ["a.ts"]).
  { pose proof H as H'. vm_compute in H'. injection H' as <-. split; reflexivity. }
  destruct Hu as [Hu Hs]. split; [exact Hs|].
  exact (proj1 (uris_verbatim_without_base example_host data None [] doc H Hu)).
Defined.
(** ** Hexadecimal sequences *)

Lemma hex_digit_facts (upper : bool) (n : N) :
  (n < 16)%N ->
  Char.hexdigit (hex_digit upper n) = true /\
  hex_value (hex_digit upper n) = n /\
  Char.is_ascii (hex_digit upper n) = true.
Proof.
  intros H.
  assert (Hn : In n [0; 1; 2; 3; 4; 5; 6; 7; 8; 9; 10; 11; 12; 13; 14; 15]%N).
  { simpl. lia. }
  simpl in Hn.
  destruct upper;
    repeat (destruct Hn as [<- | Hn]; [vm_compute; auto|]); destruct Hn.
Qed.

Lemma unhex_pairs_hexlify (upper : bool) (bs : list N) :
  Forall (fun b => (b < 256)%N) bs -> unhex_pairs (hexlify upper bs) = Some bs.
Proof.
  induction 1 as [|b bs Hb _ IH]; [reflexivity|].
  cbn [hexlify unhex_pairs].
  assert (Hhi : (b / 16 < 16)%N) by (apply N.Div0.div_lt_upper_bound; lia).
  assert (Hlo : (b mod 16 < 16)%N) by (apply N.mod_lt; lia).
  destruct (hex_digit_facts upper _ Hhi) as (-> & -> & _).
  destruct (hex_digit_facts upper _ Hlo) as (-> & -> & _).
  cbn [andb]. rewrite IH. f_equal. f_equal.
  rewrite (N.div_mod b 16) at 3 by lia. reflexivity.
Qed.

Lemma hexlify_ascii (upper : bool) (bs : list N) :
  Forall (fun b => (b < 256)%N) bs -> Str.all Char.is_ascii (hexlify upper bs) = true.
Proof.
  induction 1 as [|b bs Hb _ IH]; [reflexivity|].
  cbn [hexlify]. rewrite !all_cons, IH.
  assert (Hhi : (b / 16 < 16)%N) by (apply N.Div0.div_lt_upper_bound; lia).
  assert (Hlo : (b mod 16 < 16)%N) by (apply N.mod_lt; lia).
  destruct (hex_digit_facts upper _ Hhi) as (_ & _ & ->).
  destruct (hex_digit_facts upper _ Hlo) as (_ & _ & ->). reflexivity.
Qed.

Lemma hexlify_even (upper : bool) (bs : list N) :
  Nat.odd (String.length (hexlify upper bs)) = false.
Proof.
  induction bs as [|b bs IH]; [reflexivity|]. cbn [hexlify String.length].
  now rewrite Nat.odd_succ, Nat.even_succ.
Qed.

Lemma unhexlify_hexlify (upper : bool) (bs : list N) :
  Forall (fun b => (b < 256)%N) bs -> unhexlify (hexlify upper bs) = Unhexlified bs.
Proof.
  intros H. unfold unhexlify.
  now rewrite hexlify_ascii, hexlify_even, unhex_pairs_hexlify.
Qed.

(** X8.  [parse_hex] reads back what [hexlify] writes: the prefix [0x]
    or [0X] and two hexadecimal digits for every byte, in lower or in
    upper case, give the bytes, and nothing is logged.  When the first
    digit is left out, the length is odd and the sequence is read as if
    a zero stood before it. *)
Theorem parse_hex_hexlify (upper : bool) (x : ascii) (bs : list N) :
  Forall (fun b => (b < 256)%N) bs ->
  x = "x"%char \/ x = "X"%char ->
  parse_hex (Some (String "0" (String x (hexlify upper bs)))) = ret (Some bs) /\
  forall b, (b < 16)%N ->
    parse_hex (Some (String "0" (String x (String (hex_digit upper b) (hexlify upper bs)))))
    = ret (Some (b :: bs)).
Proof.
  intros H Hx.
  assert (Hp : String.eqb (String "0" (String x EmptyString)) "0x"
               || String.eqb (String "0" (String x EmptyString)) "0X" = true)
    by (destruct Hx as [-> | ->]; reflexivity).
  split.
  - unfold parse_hex.
    replace (Str.take 2 (String "0" (String x (hexlify upper bs))))
      with (String "0" (String x EmptyString)) by (now destruct (hexlify upper bs)).
    rewrite Hp. cbn [String.length Str.drop].
    change (Nat.odd (S (S ?n))) with (Nat.odd n). rewrite hexlify_even.
    rewrite ?append_nil_l.
    now rewrite unhexlify_hexlify.
  - intros b Hb. unfold parse_hex.
    replace (Str.take 2 (String "0" (String x (String (hex_digit upper b) (hexlify upper bs)))))
      with (String "0" (String x EmptyString)) by reflexivity.
    rewrite Hp. cbn [String.length Str.drop].
    change (Nat.odd (S (S ?n))) with (Nat.odd n).
    rewrite Nat.odd_succ, <- Nat.negb_odd, hexlify_even. cbn [negb].
    assert (E : "0" +:+ String (hex_digit upper b) (hexlify upper bs)
                = hexlify upper (b :: bs)).
    { cbn [hexlify]. rewrite N.div_small, N.mod_small by lia.
      destruct upper; reflexivity. }
    rewrite E, unhexlify_hexlify; [reflexivity|].
    constructor; [lia | exact H].
Qed.

Lemma parse_hex_hexlify_witness :
  parse_hex (Some "0x0a1B") = ret (Some [10; 27]%N) /\
  parse_hex (Some "0Xa1b") = ret (Some [10; 27]%N) /\
  parse_hex (Some ("0x" +:+ hexlify false [10; 27]%N)) = ret (Some [10; 27]%N) /\
  parse_hex (Some ("0X" +:+ String (hex_digit true 10) (hexlify true [27]%N)))
  = ret (Some [10; 27]%N).
Proof.
  split; [reflexivity|]. split; [reflexivity|]. split.
  - apply (parse_hex_hexlify false "x" [10; 27]%N);
      [repeat constructor | now left].
  - apply (parse_hex_hexlify true "X" [27]%N);
      [repeat constructor | now right | reflexivity].
Defined.
(** ** Byte ranges and resolutions *)

Lemma digits_from_decimal (s : string) :
  Str.all Char.digit s = true ->
  forall acc, Py.digits_from s acc false = Some (decimal_value_from s acc).
Proof.
  induction s as [|c s IH]; intros Hall acc; [reflexivity|].
  rewrite all_cons in Hall. apply andb_prop in Hall as [Hc Hs].
  cbn [Py.digits_from decimal_value_from]. rewrite Hc. now apply IH.
Qed.

(** [int] reads a string of digits as the number it writes in base 10. *)
Lemma int_decimal (s : string) :
  s <> EmptyString -> Str.all Char.digit s = true ->
  Py.int s = Ok (decimal_value s).
Proof.
  intros Hne Hall. destruct s as [|c s]; [congruence|].
  pose proof Hall as Hall'. rewrite all_cons in Hall'.
  apply andb_prop in Hall' as [Hc Hs].
  destruct (digit_facts c Hc) as (Hsp & _ & Hm & Hp & _).
  unfold Py.int, Py.skip_spaces. rewrite (lskip_digit c s Hc).
  rewrite rskip_no_space.
  2:{ eapply all_impl; [|exact Hall]. intros x Hx.
      now rewrite (proj1 (digit_facts x Hx)). }
  rewrite Hm, Hp. unfold Py.digits. rewrite Hc.
  now rewrite (digits_from_decimal (String c s) Hall 0%Z).
Qed.

(** A group of one or more characters of a class takes all of them. *)
Lemma group_plus_greedy {R : Type} (name : string) (p : ascii -> bool)
    (pre rest : string) (caps : Re.captures)
    (k : string -> Re.captures -> option R) (x : R) :
  pre <> EmptyString -> Str.all p pre = true -> stops p rest ->
  k rest ((name, pre) :: caps) = Some x ->
  Re.run (Re.Group name (Re.Plus p)) (pre +:+ rest) caps k = Some x.
Proof.
  intros Hne Hall Hstop Hk. destruct pre as [|c pre]; [congruence|].
  rewrite all_cons in Hall. apply andb_prop in Hall as [Hc Hall].
  rewrite append_cons. cbn [Re.run Re.Plus]. rewrite Hc.
  apply star_greedy; [exact Hall | destruct rest; exact Hstop|].
  change (String c (pre +:+ rest)) with (String c pre +:+ rest).
  now rewrite consumed_append.
Qed.

Lemma run_seq {R : Type} (r1 r2 : Re.regex) (s : string) (caps : Re.captures)
    (k : string -> Re.captures -> option R) :
  Re.run (Re.Seq r1 r2) s caps k
  = Re.run r1 s caps (fun s' caps' => Re.run r2 s' caps' k).
Proof. reflexivity. Qed.

Lemma run_opt {R : Type} (r : Re.regex) (s : string) (caps : Re.captures)
    (k : string -> Re.captures -> option R) :
  Re.run (Re.Opt r) s caps k
  = match Re.run r s caps k with
    | Some x => Some x
    | None => k s caps
    end.
Proof. reflexivity. Qed.

Lemma run_chr {R : Type} (a : ascii) (s : string) (caps : Re.captures)
    (k : string -> Re.captures -> option R) :
  Re.run (Re.Chr a) (String a s) caps k = k s caps.
Proof. cbn [Re.run]. now rewrite Ascii.eqb_refl. Qed.

Lemma stops_digit_no_match (r : Re.regex) (name : string) (value : string) :
  stops Char.digit value ->
  Re.re_match (Re.Seq (Re.Group name (Re.Plus Char.digit)) r) value = None.
Proof.
  intros H. unfold Re.re_match. cbn [Re.run Re.Plus].
  destruct value as [|c value]; [reflexivity|]. simpl in H. now rewrite H.
Qed.

Lemma range_re_offset (n o rest : string) :
  n <> EmptyString -> Str.all Char.digit n = true ->
  o <> EmptyString -> Str.all Char.digit o = true -> stops Char.digit rest ->
  Re.re_match _range_re (n +:+ "@" +:+ o +:+ rest)
  = Some {| Re.rest := rest; Re.groups := [("offset", o); ("range", n)] |}.
Proof.
  intros Hn Hdn Ho Hdo Hstop. unfold Re.re_match, _range_re. rewrite run_seq.
  apply group_plus_greedy; [exact Hn | exact Hdn | reflexivity|].
  rewrite run_opt, run_seq, append_cons, append_nil_l, run_chr.
  now rewrite (group_plus_greedy "offset" Char.digit o rest _ _
                 {| Re.rest := rest; Re.groups := [("offset", o); ("range", n)] |}).
Qed.

Lemma range_re_no_offset (n tail : string) :
  n <> EmptyString -> Str.all Char.digit n = true ->
  stops Char.digit tail -> offset_follows tail = false ->
  Re.re_match _range_re (n +:+ tail)
  = Some {| Re.rest := tail; Re.groups := [("range", n)] |}.
Proof.
  intros Hn Hdn Hstop Hoff. unfold Re.re_match, _range_re. rewrite run_seq.
  apply group_plus_greedy; [exact Hn | exact Hdn | exact Hstop|].
  cbn [Re.run Re.Opt Re.Plus].
  destruct tail as [|c [|d tail]]; [reflexivity | |].
  - now destruct (Ascii.eqb "@" c).
  - simpl in Hoff. unfold Char.eqb in Hoff. rewrite Ascii.eqb_sym in Hoff.
    destruct (Ascii.eqb "@" c); [|reflexivity].
    simpl in Hoff. now rewrite Hoff.
Qed.



(** Backtracking over a run of characters of a class does not help when
    what follows needs a character outside the class first. *)
Lemma star_none {R : Type} (p : ascii -> bool) (pre rest : string)
    (k : string -> option R) :
  Str.all p pre = true ->
  (forall a b, pre = a +:+ b -> k (b +:+ rest) = None) ->
  stops p rest ->
  Re.star p (pre +:+ rest) k = None.
Proof.
  intros Hall Hk Hstop. induction pre as [|c pre IH].
  - rewrite append_nil_l. specialize (Hk EmptyString EmptyString eq_refl).
    rewrite append_nil_l in Hk. destruct rest as [|d rest]; [exact Hk|].
    simpl in *. now rewrite Hstop.
  - rewrite all_cons in Hall. apply andb_prop in Hall as [Hc Hall].
    rewrite append_cons. cbn [Re.star]. rewrite Hc, IH.
    + apply (Hk EmptyString (String c pre)). reflexivity.
    + exact Hall.
    + intros a b ->. apply (Hk (String c a) b). reflexivity.
Qed.

Lemma res_re_match (w h rest : string) :
  w <> EmptyString -> Str.all Char.digit w = true ->
  h <> EmptyString -> Str.all Char.digit h = true -> stops Char.digit rest ->
  Re.re_match _res_re (w +:+ "x" +:+ h +:+ rest)
  = Some {| Re.rest := rest; Re.groups := [("2", h); ("1", w)] |}.
Proof.
  intros Hw Hdw Hh Hdh Hstop. unfold Re.re_match, _res_re. rewrite run_seq.
  apply group_plus_greedy; [exact Hw | exact Hdw | reflexivity|].
  rewrite run_seq, append_cons, append_nil_l, run_chr.
  now rewrite (group_plus_greedy "2" Char.digit h rest _ _
                 {| Re.rest := rest; Re.groups := [("2", h); ("1", w)] |}).
Qed.

Lemma res_re_no_match (w tail : string) :
  Str.all Char.digit w = true -> stops Char.digit tail ->
  height_follows tail = false ->
  Re.re_match _res_re (w +:+ tail) = None.
Proof.
  intros Hdw Hstop Hh. destruct w as [|c w].
  - rewrite append_nil_l. unfold _res_re. now apply stops_digit_no_match.
  - rewrite all_cons in Hdw. apply andb_prop in Hdw as [Hc Hdw].
    unfold Re.re_match, _res_re. rewrite append_cons. cbn [Re.run Re.Plus].
    rewrite Hc. apply star_none; [exact Hdw | | exact Hstop].
    intros a b ->. destruct b as [|d b].
    + rewrite append_nil_l. destruct tail as [|x [|y tail]]; [reflexivity | |].
      * now destruct (Ascii.eqb "x" x).
      * simpl in Hh. unfold Char.eqb in Hh. rewrite Ascii.eqb_sym in Hh.
        destruct (Ascii.eqb "x" x); [|reflexivity].
        simpl in Hh. now rewrite Hh.
    + rewrite append_cons.
      rewrite all_append, all_cons in Hdw.
      apply andb_prop in Hdw as [_ Hd]. apply andb_prop in Hd as [Hd _].
      destruct (Ascii.eqb "x" d) eqn:E; [|reflexivity].
      apply Ascii.eqb_eq in E. subst d. discriminate Hd.
Qed.


(** ** The tags with a number for value *)

Lemma rstrip_no_space (s : string) :
  Str.all (fun c => negb (Char.space c)) s = true -> Str.rstrip s = s.
Proof.
  induction s as [|c s IH]; [reflexivity|]. rewrite all_cons.
  intros H. apply andb_prop in H as [Hc Hs]. cbn [Str.rstrip]. rewrite (IH Hs).
  destruct s; [|reflexivity]. apply negb_true_iff in Hc. now rewrite Hc.
Qed.

Lemma strip_no_space (s : string) :
  Str.all (fun c => negb (Char.space c)) s = true -> Str.strip s = s.
Proof.
  intros H. unfold Str.strip.
  assert (Hl : Str.lstrip s = s).
  { destruct s as [|c s]; [reflexivity|]. rewrite all_cons in H.
    apply andb_prop in H as [Hc _]. apply negb_true_iff in Hc. simpl. now rewrite Hc. }
  rewrite Hl. now apply rstrip_no_space.
Qed.

Lemma strip_digits (d : string) : Str.all Char.digit d = true -> Str.strip d = d.
Proof.
  intros H. apply strip_no_space. eapply all_impl; [|exact H].
  intros c Hc. destruct (digit_facts c Hc) as (_ & -> & _). reflexivity.
Qed.

Lemma dot_digits (d : string) : Str.all Char.digit d = true -> Str.all Re.dot d = true.
Proof.
  apply all_impl. intros c Hc. unfold Re.dot.
  destruct c as [[] [] [] [] [] [] [] []]; try reflexivity; discriminate Hc.
Qed.

(** A line of a registered tag, a colon and a value runs the parser of the
    tag on the stripped value. *)
Lemma parse_line_tag_value (host : Host) (self : M3U8Parser.t) (tag v : string)
    (h : handler) :
  lookup_tag tag (_TAGS host) = Some h -> Str.all Re.dot v = true ->
  tag <> EmptyString -> Str.all tag_char tag = true ->
  parse_line host self ("#" +:+ tag +:+ ":" +:+ v) = h self (Str.strip v).
Proof.
  intros Hl Hv Hne Hall. rewrite parse_line_directive by reflexivity.
  now rewrite split_tag_value, Hl.
Qed.

Lemma float_of_digits (d : string) :
  d <> EmptyString -> Str.all Char.digit d = true ->
  Py.float_of_str d = Ok (Py.FloatOfStr d).
Proof.
  intros Hne Hall. unfold Py.float_of_str.
  destruct d as [|c d]; [congruence|].
  pose proof Hall as Hall'. rewrite all_cons in Hall'. apply andb_prop in Hall' as [Hc Hd].
  rewrite float_literal_decimal_char; [reflexivity | exact Hc | |].
  - now apply (all_impl _ _ _ digit_decimal_char).
  - now apply (decimal_ok_digits (String c d)).
Qed.


(** ** What is logged *)

Lemma logs_ret {A : Type} (a : A) : logs_discards (ret a).
Proof. constructor. Qed.

Lemma logs_raise {A : Type} (e : Exn) : logs_discards (raise e : M A).
Proof. constructor. Qed.

Lemma logs_lift {A : Type} (r : result A) : logs_discards (lift r).
Proof. constructor. Qed.

Lemma logs_bind {A B : Type} (m : M A) (f : A -> M B) :
  logs_discards m -> (forall a, logs_discards (f a)) -> logs_discards (bind m f).
Proof.
  unfold logs_discards, warnings. destruct m as [w [a|e]]; simpl; intros Hm Hf.
  - specialize (Hf a). destruct (f a) as [w' r]. simpl in *.
    apply Forall_app. auto.
  - exact Hm.
Qed.

Lemma logs_parse_attributes (value : string) : logs_discards (parse_attributes value).
Proof.
  unfold parse_attributes. destruct (attr_list_total value) as [(entries & Hl) | Hb].
  - rewrite (parse_attributes_loop_entries value entries Hl). constructor.
  - rewrite (parse_attributes_loop_broken value Hb).
    constructor; [simpl; auto | constructor].
Qed.

Lemma logs_parse_hex (value : option string) : logs_discards (parse_hex value).
Proof.
  assert (Hd : logs_discards (bind (warning discarded_hex) (fun _ => ret (@None (list N)))))
    by (constructor; [simpl; auto | constructor]).
  unfold parse_hex. destruct value as [value|]; [|constructor].
  cbv zeta. destruct (_ || _); [|exact Hd].
  destruct (unhexlify _); [constructor | exact Hd | constructor].
Qed.

Lemma logs_parse_iso8601 (host : Host) (value : option string) :
  logs_discards (parse_iso8601 host value).
Proof.
  unfold parse_iso8601. destruct value as [value|]; [|constructor].
  destruct (parse_datetime host value); [constructor|].
  constructor; [simpl; auto | constructor].
Qed.

Ltac logs :=
  repeat first
    [ apply logs_ret | apply logs_raise | apply logs_lift
    | apply logs_parse_attributes | apply logs_parse_hex | apply logs_parse_iso8601
    | apply logs_bind; [|intros ?]
    | match goal with |- logs_discards (if ?b then _ else _) => destruct b end
    | match goal with |- logs_discards (let '(_, _) := ?p in _) => destruct p end ].

Lemma handlers_log_discards (host : Host) :
  Forall
    (fun th : string * handler =>
       forall self value, logs_discards (snd th self value))
    (_TAGS host).
Proof.
  unfold _TAGS.
  repeat (constructor;
          [simpl fst; simpl snd; intros self value;
           unfold parse_tag_ext_x_version, parse_tag_extinf, parse_tag_ext_x_byterange,
             parse_tag_ext_x_discontinuity, parse_tag_ext_x_key, parse_tag_ext_x_map,
             parse_tag_ext_x_program_date_time, parse_tag_ext_x_daterange,
             parse_tag_ext_x_targetduration, parse_tag_ext_x_media_sequence,
             parse_tag_ext_x_discontinuity_sequence, parse_tag_ext_x_endlist,
             parse_tag_ext_x_playlist_type, parse_tag_ext_x_i_frames_only,
             parse_tag_ext_x_media, parse_tag_ext_x_stream_inf,
             parse_tag_ext_x_i_frame_stream_inf, parse_tag_ext_x_session_data,
             parse_tag_ext_x_session_key, parse_tag_ext_x_independent_segments,
             parse_tag_ext_x_start, parse_tag_ext_x_allow_cache, pop;
           cbv beta iota zeta; logs|]).
  constructor.
Qed.

Lemma parse_line_logs_discards (host : Host) (self : M3U8Parser.t) (line : string) :
  logs_discards (parse_line host self line).
Proof.
  destruct (Str.startswith "#" line) eqn:Hs.
  - rewrite parse_line_directive by exact Hs.
    destruct (split_tag line) as [[tag|] [value|]]; try apply logs_ret.
    destruct (lookup_tag tag (_TAGS host)) as [h|] eqn:El; [|apply logs_ret].
    pose proof (lookup_tag_Forall host _ _ _ (handlers_log_discards host) El) as HP.
    apply HP.
  - rewrite parse_line_content by exact Hs. cbv zeta. logs.
Qed.

Lemma parse_lines_log_discards (host : Host) (lines : list string) :
  forall self, logs_discards (parse_lines host self lines).
Proof.
  induction lines as [|line lines IH]; intros self; [apply logs_ret|].
  cbn [parse_lines]. apply logs_bind; [apply parse_line_logs_discards | apply IH].
Qed.

(** X12.  Whatever the input, and whether it returns or raises, [load]
    logs nothing but the three messages with which a value is discarded
    (an attribute list, a hexadecimal sequence, a timestamp); or else the
    input has no header: then the one message logged shows the first line
    and the error is the missing header. *)
Theorem load_warnings (host : Host) (data : Data) (base_uri : option string) :
  logs_discards (load host data base_uri) \/
  exists line,
    In line (data_lines data) /\
    load host data base_uri = ([malformed_playlist line], Raise missing_header).
Proof.
  unfold load, parse. destruct (data_lines data) as [|line lines].
  - left. apply logs_ret.
  - destruct (Str.startswith "#EXTM3U" line); cbn [negb].
    + left. apply logs_bind; [apply parse_lines_log_discards | intros; apply logs_ret].
    + right. exists line. split; [now left | reflexivity].
Qed.
(** ** Attribute lists that are discarded *)

Lemma parse_attributes_broken (value : string) :
  attr_list_broken value -> parse_attributes value = ([discarded_attributes], Ok ∅).
Proof. intros H. now apply parse_attributes_loop_broken. Qed.

(** X13.  What a tag does with an attribute list that is discarded.  A
    key, a map and a medium are dropped, the parser stays as it was.  An
    [EXT-X-I-FRAME-STREAM-INF] adds no playlist but clears the pending
    stream attributes.  The others go on with no attributes: an
    [EXT-X-STREAM-INF] expects a playlist, with empty attributes pending;
    an [EXT-X-START] sets the start to the offset 0, not precise; an
    [EXT-X-DATERANGE] appends a date range with no field set.  Each logs
    the one warning of the attribute list. *)
Theorem broken_attribute_list (host : Host) (self : M3U8Parser.t) (v : string) :
  Str.all Re.dot v = true ->
  attr_list_broken (Str.strip v) ->
  parse_line host self ("#EXT-X-KEY:" +:+ v) = ([discarded_attributes], Ok self) /\
  parse_line host self ("#EXT-X-MAP:" +:+ v) = ([discarded_attributes], Ok self) /\
  parse_line host self ("#EXT-X-MEDIA:" +:+ v) = ([discarded_attributes], Ok self) /\
  parse_line host self ("#EXT-X-I-FRAME-STREAM-INF:" +:+ v)
  = ([discarded_attributes], Ok (M3U8Parser.set_streaminf None self)) /\
  parse_line host self ("#EXT-X-STREAM-INF:" +:+ v)
  = ([discarded_attributes],
     Ok (M3U8Parser.set_streaminf (Some ∅) (M3U8Parser.set_expect_playlist true self))) /\
  parse_line host self ("#EXT-X-START:" +:+ v)
  = ([discarded_attributes],
     Ok (M3U8Parser.on_m3u8
           (M3U8.set_start (Some (Start.mk (Py.FloatOfInt 0) false))) self)) /\
  parse_line host self ("#EXT-X-DATERANGE:" +:+ v)
  = ([discarded_attributes],
     Ok (M3U8Parser.on_m3u8
           (fun m =>
              M3U8.set_dateranges
                (M3U8.dateranges m
                 ++ [DateRange.mk None None None None None None false ∅]) m)
           self)).
Proof.
  intros Hv Hb. pose proof (parse_attributes_broken _ Hb) as Ha.
  repeat split.
  - change ("#EXT-X-KEY:" +:+ v) with ("#" +:+ "EXT-X-KEY" +:+ ":" +:+ v).
    erewrite parse_line_tag_value;
      [|reflexivity | exact Hv | discriminate | reflexivity].
    unfold parse_tag_ext_x_key. rewrite Ha. reflexivity.
  - change ("#EXT-X-MAP:" +:+ v) with ("#" +:+ "EXT-X-MAP" +:+ ":" +:+ v).
    erewrite parse_line_tag_value;
      [|reflexivity | exact Hv | discriminate | reflexivity].
    unfold parse_tag_ext_x_map. rewrite Ha. reflexivity.
  - change ("#EXT-X-MEDIA:" +:+ v) with ("#" +:+ "EXT-X-MEDIA" +:+ ":" +:+ v).
    erewrite parse_line_tag_value;
      [|reflexivity | exact Hv | discriminate | reflexivity].
    unfold parse_tag_ext_x_media. rewrite Ha. reflexivity.
  - change ("#EXT-X-I-FRAME-STREAM-INF:" +:+ v)
      with ("#" +:+ "EXT-X-I-FRAME-STREAM-INF" +:+ ":" +:+ v).
    erewrite parse_line_tag_value;
      [|reflexivity | exact Hv | discriminate | reflexivity].
    unfold parse_tag_ext_x_i_frame_stream_inf. rewrite Ha. reflexivity.
  - change ("#EXT-X-STREAM-INF:" +:+ v)
      with ("#" +:+ "EXT-X-STREAM-INF" +:+ ":" +:+ v).
    erewrite parse_line_tag_value;
      [|reflexivity | exact Hv | discriminate | reflexivity].
    unfold parse_tag_ext_x_stream_inf. rewrite Ha. reflexivity.
  - change ("#EXT-X-START:" +:+ v) with ("#" +:+ "EXT-X-START" +:+ ":" +:+ v).
    erewrite parse_line_tag_value;
      [|reflexivity | exact Hv | discriminate | reflexivity].
    unfold parse_tag_ext_x_start. rewrite Ha. reflexivity.
  - change ("#EXT-X-DATERANGE:" +:+ v) with ("#" +:+ "EXT-X-DATERANGE" +:+ ":" +:+ v).
    erewrite parse_line_tag_value;
      [|reflexivity | exact Hv | discriminate | reflexivity].
    unfold parse_tag_ext_x_daterange, pop. rewrite Ha. reflexivity.
Qed.

Lemma broken_attribute_list_witness :
  attr_list_broken "TIME-OFFSET=1 0" /\
  parse_line example_host (M3U8Parser.init None) "#EXT-X-KEY: TIME-OFFSET=1 0"
  = ([discarded_attributes], Ok (M3U8Parser.init None)) /\
  exists self',
    parse_line example_host (M3U8Parser.init None) "#EXT-X-START: TIME-OFFSET=1 0"
    = ([discarded_attributes], Ok self') /\
    M3U8.start (M3U8Parser.m3u8 self') = Some (Start.mk (Py.FloatOfInt 0) false).
Proof.
  assert (Hb : attr_list_broken "TIME-OFFSET=1 0")
    by (apply attr_list_broken_here; [discriminate | reflexivity]).
  split; [exact Hb|].
  destruct (broken_attribute_list example_host (M3U8Parser.init None)
              " TIME-OFFSET=1 0" eq_refl Hb)
    as (Hkey & _ & _ & _ & _ & Hstart & _).
  split; [exact Hkey|]. eexists. split; [exact Hstart | reflexivity].
Defined.
(** ** The first match of a pattern *)

Lemma run_first {R : Type} (r : Re.regex) (pre rest : string) (c : Re.captures) :
  first_match r pre rest c ->
  forall (caps : Re.captures) (k : string -> Re.captures -> option R) (x : R),
    k rest (c ++ caps) = Some x ->
    Re.run r (pre +:+ rest) caps k = Some x.
Proof.
  induction 1 as [rest|a rest|p ch rest Hp|r1 r2 s1 s2 rest c1 c2 _ IH1 _ IH2
                  |r1 r2 s rest c _ IH|r1 r2 s rest c Hno _ IH|p s rest Hall Hstop
                  |name r s rest c _ IH];
    intros caps k x Hk.
  - exact Hk.
  - cbn [Re.run]. rewrite append_cons, append_nil_l, Ascii.eqb_refl. exact Hk.
  - cbn [Re.run]. rewrite append_cons, append_nil_l, Hp. exact Hk.
  - cbn [Re.run]. rewrite append_assoc. apply IH1. apply IH2.
    now rewrite <- app_assoc in Hk.
  - cbn [Re.run]. now rewrite (IH caps k x Hk).
  - cbn [Re.run]. rewrite (Hno R caps k). now apply IH.
  - cbn [Re.run]. apply star_greedy; [exact Hall | destruct rest; exact Hstop | exact Hk].
  - cbn [Re.run]. apply IH. now rewrite consumed_append.
Qed.

Lemma re_match_first (r : Re.regex) (pre rest : string) (c : Re.captures) :
  first_match r pre rest c ->
  Re.re_match r (pre +:+ rest) = Some {| Re.rest := rest; Re.groups := c |}.
Proof.
  intros H. unfold Re.re_match. apply (run_first r pre rest c H).
  now rewrite app_nil_r.
Qed.

Lemma first_plus (p : ascii -> bool) (s rest : string) :
  s <> EmptyString -> Str.all p s = true -> stops p rest ->
  first_match (Re.Plus p) s rest [].
Proof.
  intros Hne Hall Hstop. destruct s as [|c s]; [congruence|].
  rewrite all_cons in Hall. apply andb_prop in Hall as [Hc Hall].
  change (String c s) with (String c EmptyString +:+ s).
  change (@nil (string * string)) with (@nil (string * string) ++ []).
  apply first_seq; [now apply first_cls | now apply first_star].
Qed.

Lemma first_opt_none (r : Re.regex) (rest : string) :
  no_match r rest -> first_match (Re.Opt r) EmptyString rest [].
Proof. intros H. apply first_alt_r; [exact H | apply first_eps]. Qed.

(** A pattern that begins with a literal character matches nowhere on a
    string that does not begin with it. *)
Lemma no_match_chr (a : ascii) (r : Re.regex) (s : string) :
  match s with String c _ => Ascii.eqb a c = false | EmptyString => True end ->
  no_match (Re.Seq (Re.Chr a) r) s.
Proof.
  intros H R caps k. cbn [Re.run]. destruct s as [|c s]; [reflexivity|]. now rewrite H.
Qed.

Lemma no_match_group (name : string) (r : Re.regex) (s : string) :
  no_match r s -> no_match (Re.Group name r) s.
Proof. intros H R caps k. cbn [Re.run]. apply H. Qed.

(** ** Durations and titles *)

Lemma first_decimal (i : string) (f : option string) (rest : string) :
  is_digits i -> match f with Some f => is_digits f | None => True end ->
  rest = EmptyString \/ (exists t, rest = String "," t) ->
  exists c,
    first_match
      (Re.Seq (Re.Plus Char.digit)
         (Re.Opt (Re.Group "2" (Re.Seq (Re.Chr ".") (Re.Plus Char.digit)))))
      (decimal i f) rest c.
Proof.
  intros [Hi Hdi] Hf Hrest.
  assert (Hstop : stops Char.digit rest)
    by (destruct Hrest as [-> | (t & ->)]; reflexivity).
  destruct f as [f|]; cbn [decimal].
  - destruct Hf as [Hf Hdf]. eexists. apply first_seq.
    + apply first_plus; [exact Hi | exact Hdi | reflexivity].
    + apply first_alt_l. apply first_group.
      change ("." +:+ f) with (String "." EmptyString +:+ f).
      apply first_seq; [apply first_chr | now apply first_plus].
  - eexists. rewrite <- (append_nil_r i). apply first_seq.
    + rewrite append_nil_l. now apply first_plus.
    + apply first_opt_none. apply no_match_group. apply no_match_chr.
      destruct Hrest as [-> | (t & ->)]; [exact I | reflexivity].
Qed.

Lemma float_of_decimal_number (i : string) (f : option string) :
  is_digits i -> match f with Some f => is_digits f | None => True end ->
  Py.float_of_str (decimal i f) = Ok (Py.FloatOfStr (decimal i f)).
Proof.
  intros Hi Hf.
  destruct (first_decimal i f EmptyString Hi Hf (or_introl eq_refl)) as (c & Hc).
  apply re_match_first in Hc. apply re_match_sound in Hc.
  destruct Hc as (pre & E & Hm). cbn [Re.rest Re.groups] in *.
  rewrite !append_nil_r in E. subst pre. eapply float_of_decimal. exact Hm.
Qed.

Lemma lookup_group_app_not_in (name : string) (c1 c2 : Re.captures) :
  Re.lookup_group name c1 = None ->
  Re.lookup_group name (c1 ++ c2) = Re.lookup_group name c2.
Proof.
  induction c1 as [|[n v] c1 IH]; [reflexivity|]. simpl.
  destruct (String.eqb n name); [discriminate | exact IH].
Qed.

Lemma decimal_captures (i : string) (f : option string) (rest : string) (c : Re.captures) :
  first_match
    (Re.Seq (Re.Plus Char.digit)
       (Re.Opt (Re.Group "2" (Re.Seq (Re.Chr ".") (Re.Plus Char.digit)))))
    (decimal i f) rest c ->
  Re.lookup_group "duration" c = None /\ Re.lookup_group "title" c = None.
Proof.
  intros H. apply (re_match_first _ _ _ _) in H. apply re_match_sound in H.
  destruct H as (pre & _ & Hm). cbn [Re.groups] in Hm.
  inv_matches; split; reflexivity.
Qed.

Lemma extinf_re_first (i : string) (f : option string) (s2 rest : string)
    (c c3 : Re.captures) :
  first_match
    (Re.Seq (Re.Plus Char.digit)
       (Re.Opt (Re.Group "2" (Re.Seq (Re.Chr ".") (Re.Plus Char.digit)))))
    (decimal i f) (s2 +:+ rest) c ->
  first_match
    (Re.Opt (Re.Group "3" (Re.Seq (Re.Chr ",") (Re.Group "title" (Re.Plus Re.dot)))))
    s2 rest c3 ->
  Re.re_match _extinf_re (decimal i f +:+ s2 +:+ rest)
  = Some {| Re.rest := rest; Re.groups := c3 ++ ("duration", decimal i f) :: c |}.
Proof.
  intros Hc H3. rewrite <- append_assoc. apply re_match_first.
  unfold _extinf_re. apply first_seq; [apply first_group; exact Hc | exact H3].
Qed.

Lemma parse_extinf_number (i : string) (f : option string) :
  is_digits i -> match f with Some f => is_digits f | None => True end ->
  parse_extinf (decimal i f)
  = Ok (ExtInf.mk (Py.Float (Py.FloatOfStr (decimal i f))) None).
Proof.
  intros Hi Hf. pose proof (float_of_decimal_number i f Hi Hf) as Hfloat.
  destruct (first_decimal i f EmptyString Hi Hf (or_introl eq_refl)) as (c & Hc).
  destruct (decimal_captures _ _ _ _ Hc) as [Hd Ht].
  pose proof (extinf_re_first i f EmptyString EmptyString c [] Hc) as Hm.
  rewrite !append_nil_r in Hm. unfold parse_extinf. rewrite Hm.
  - unfold group_str, Re.group. cbn. rewrite Ht, Hfloat. reflexivity.
  - apply first_opt_none. apply no_match_group. now apply no_match_chr.
Qed.

Lemma parse_extinf_comma (i : string) (f : option string) :
  is_digits i -> match f with Some f => is_digits f | None => True end ->
  parse_extinf (decimal i f +:+ ",")
  = Ok (ExtInf.mk (Py.Float (Py.FloatOfStr (decimal i f))) None).
Proof.
  intros Hi Hf. pose proof (float_of_decimal_number i f Hi Hf) as Hfloat.
  destruct (first_decimal i f "," Hi Hf (or_intror (ex_intro _ EmptyString eq_refl)))
    as (c & Hc).
  destruct (decimal_captures _ _ _ _ Hc) as [Hd Ht].
  pose proof (extinf_re_first i f EmptyString "," c [] Hc) as Hm.
  rewrite append_nil_l in Hm. unfold parse_extinf. rewrite Hm.
  - unfold group_str, Re.group. cbn. rewrite Ht, Hfloat. reflexivity.
  - apply first_opt_none. apply no_match_group.
    intros R caps k. reflexivity.
Qed.

Lemma parse_extinf_title (i : string) (f : option string) (t : string) :
  is_digits i -> match f with Some f => is_digits f | None => True end ->
  t <> EmptyString -> Str.all Re.dot t = true ->
  parse_extinf (decimal i f +:+ "," +:+ t)
  = Ok (ExtInf.mk (Py.Float (Py.FloatOfStr (decimal i f))) (Some t)).
Proof.
  intros Hi Hf Hne Hdot. pose proof (float_of_decimal_number i f Hi Hf) as Hfloat.
  destruct (first_decimal i f (String "," t) Hi Hf (or_intror (ex_intro _ t eq_refl)))
    as (c & Hc).
  pose proof (extinf_re_first i f ("," +:+ t) EmptyString c
                [("3", "," +:+ t); ("title", t)]) as Hm.
  rewrite !append_nil_r in Hm. unfold parse_extinf. rewrite Hm.
  - unfold group_str, Re.group. cbn. rewrite Hfloat. reflexivity.
  - exact Hc.
  - apply first_alt_l. apply first_group.
    change ("," +:+ t) with (String "," EmptyString +:+ t).
    change [("title", t)] with ([("title", t)] ++ @nil (string * string)).
    apply first_seq; [apply first_chr|]. apply first_group.
    apply first_plus; [exact Hne | exact Hdot | exact I].
Qed.

Lemma parse_extinf_no_number (value : string) :
  stops Char.digit value -> parse_extinf value = Ok (ExtInf.mk (Py.Int 0) None).
Proof.
  intros Hstop. unfold parse_extinf, _extinf_re.
  unfold Re.re_match. cbn [Re.run Re.Plus].
  destruct value as [|ch value]; [reflexivity|]. simpl in Hstop. now rewrite Hstop.
Qed.

(** X14.  [parse_extinf] reads a decimal number, digits with or without
    a point and digits after it, as the duration, the float of that
    text, and what follows a comma after it as the title.  Without a
    comma, or with nothing after the comma, there is no title.  A string
    that does not start with a digit gives the duration 0, an integer,
    and no title. *)
Theorem parse_extinf_decode (i : string) (f : option string) :
  is_digits i -> match f with Some f => is_digits f | None => True end ->
  parse_extinf (decimal i f)
  = Ok (ExtInf.mk (Py.Float (Py.FloatOfStr (decimal i f))) None) /\
  parse_extinf (decimal i f +:+ ",")
  = Ok (ExtInf.mk (Py.Float (Py.FloatOfStr (decimal i f))) None) /\
  (forall t,
     t <> EmptyString -> Str.all Re.dot t = true ->
     parse_extinf (decimal i f +:+ "," +:+ t)
     = Ok (ExtInf.mk (Py.Float (Py.FloatOfStr (decimal i f))) (Some t))) /\
  (forall value,
     stops Char.digit value -> parse_extinf value = Ok (ExtInf.mk (Py.Int 0) None)).
Proof.
  intros Hi Hf. split; [|split; [|split]].
  - now apply parse_extinf_number.
  - now apply parse_extinf_comma.
  - intros t. now apply parse_extinf_title.
  - apply parse_extinf_no_number.
Qed.

Lemma parse_extinf_decode_witness :
  parse_extinf "9.009,Intro, part 1"
  = Ok (ExtInf.mk (Py.Float (Py.FloatOfStr "9.009")) (Some "Intro, part 1")) /\
  parse_extinf "10," = Ok (ExtInf.mk (Py.Float (Py.FloatOfStr "10")) None) /\
  parse_extinf "-1,live" = Ok (ExtInf.mk (Py.Int 0) None).
Proof.
  assert (H9 : is_digits "9") by (split; [discriminate | reflexivity]).
  assert (H009 : is_digits "009") by (split; [discriminate | reflexivity]).
  assert (H10 : is_digits "10") by (split; [discriminate | reflexivity]).
  split; [|split].
  - destruct (parse_extinf_decode "9" (Some "009") H9 H009) as (_ & _ & H & _).
    apply (H "Intro, part 1"); [discriminate | reflexivity].
  - exact (proj1 (proj2 (parse_extinf_decode "10" None H10 I))).
  - destruct (parse_extinf_decode "10" None H10 I) as (_ & _ & _ & H).
    apply (H "-1,live"). reflexivity.
Defined.
(** ** Media playlists *)

Lemma rstrip_append (a t : string) :
  t <> EmptyString -> Str.rstrip t = t -> Str.rstrip (a +:+ t) = a +:+ t.
Proof.
  intros Hne Ht. induction a as [|c a IH]; [exact Ht|].
  rewrite append_cons. cbn [Str.rstrip]. rewrite IH.
  destruct (a +:+ t) eqn:E; [|reflexivity].
  destruct a; [|discriminate E]. rewrite append_nil_l in E. congruence.
Qed.

Lemma line_text_dot (s : string) : line_text s = true -> Str.all Re.dot s = true.
Proof.
  apply all_impl. intros c Hc. unfold Re.dot.
  destruct c as [[] [] [] [] [] [] [] []]; try reflexivity; discriminate Hc.
Qed.

Lemma line_text_digits (s : string) : Str.all Char.digit s = true -> line_text s = true.
Proof.
  apply all_impl. intros c Hc.
  destruct c as [[] [] [] [] [] [] [] []]; try reflexivity; discriminate Hc.
Qed.

Lemma line_text_append (a b : string) :
  line_text (a +:+ b) = line_text a && line_text b.
Proof. apply all_append. Qed.

Lemma line_text_duration (e : Entry.t) :
  entry_ok e -> line_text (entry_duration e) = true.
Proof.
  intros ((_ & Hi) & Hf & _). unfold entry_duration, decimal.
  destruct (Entry.fraction e) as [f|].
  - destruct Hf as [_ Hf]. rewrite !line_text_append.
    now rewrite (line_text_digits _ Hi), (line_text_digits _ Hf).
  - now apply line_text_digits.
Qed.

Lemma duration_starts_with_digit (e : Entry.t) :
  entry_ok e ->
  exists c s, entry_duration e = String c s /\ Char.digit c = true.
Proof.
  intros ((Hne & Hi) & _). unfold entry_duration, decimal.
  destruct (Entry.seconds e) as [|c s]; [congruence|].
  rewrite all_cons in Hi. apply andb_prop in Hi as [Hc _].
  destruct (Entry.fraction e); rewrite ?append_cons; eauto.
Qed.

Lemma line_text_title (e : Entry.t) :
  entry_ok e -> line_text (default EmptyString (Entry.title e)) = true.
Proof.
  intros (_ & _ & Ht & _). destruct (Entry.title e) as [t|]; [|reflexivity].
  apply Ht.
Qed.

(** The value of the [EXTINF] line of an entry is not changed by [strip]. *)
Lemma strip_entry_value (e : Entry.t) :
  entry_ok e ->
  Str.strip (entry_duration e +:+ "," +:+ default EmptyString (Entry.title e))
  = entry_duration e +:+ "," +:+ default EmptyString (Entry.title e).
Proof.
  intros He. destruct (duration_starts_with_digit e He) as (c & s & E & Hc).
  destruct He as (_ & _ & Ht & _).
  unfold Str.strip. rewrite E, append_cons. cbn [Str.lstrip].
  destruct (digit_facts c Hc) as (_ & -> & _).
  change (String c (s +:+ "," +:+ default EmptyString (Entry.title e)))
    with (String c s +:+ "," +:+ default EmptyString (Entry.title e)).
  destruct (Entry.title e) as [t|]; cbn [default from_option id].
  - destruct Ht as (Hne & _ & Hr). rewrite <- append_assoc.
    now apply rstrip_append.
  - rewrite append_nil_r. now apply rstrip_append.
Qed.

Lemma parse_extinf_entry (e : Entry.t) :
  entry_ok e ->
  parse_extinf (entry_duration e +:+ "," +:+ default EmptyString (Entry.title e))
  = Ok (ExtInf.mk (Py.Float (Py.FloatOfStr (entry_duration e))) (Entry.title e)).
Proof.
  intros (Hi & Hf & Ht & _). unfold entry_duration.
  destruct (Entry.title e) as [t|]; cbn [default from_option id].
  - destruct Ht as (Hne & Hl & _).
    apply parse_extinf_title; try assumption. now apply line_text_dot.
  - rewrite append_nil_r. now apply parse_extinf_comma.
Qed.

Lemma entry_lines_parse (host : Host) (self : M3U8Parser.t) (e : Entry.t) :
  entry_ok e -> nothing_pending self ->
  parse_lines host self (entry_lines e)
  = ret (M3U8Parser.on_m3u8
           (fun m => M3U8.set_segments (M3U8.segments m ++ [entry_segment host self e]) m)
           self).
Proof.
  intros He Hself. unfold entry_lines. cbn [parse_lines].
  change ("#EXTINF:" +:+ entry_duration e +:+ "," +:+ default EmptyString (Entry.title e))
    with ("#" +:+ "EXTINF" +:+ ":"
          +:+ (entry_duration e +:+ "," +:+ default EmptyString (Entry.title e))).
  erewrite parse_line_tag_value; [|reflexivity | | discriminate | reflexivity].
  2:{ apply line_text_dot. rewrite !line_text_append.
      now rewrite (line_text_duration e He), (line_text_title e He). }
  rewrite (strip_entry_value e He). unfold parse_tag_extinf.
  rewrite (parse_extinf_entry e He). cbv zeta.
  change (lift (Ok ?x)) with (ret x). rewrite !bind_ret_l.
  destruct He as (_ & _ & _ & _ & _ & Hs).
  rewrite (parse_line_content host _ _ Hs). cbn.
  destruct Hself as (H1 & H2 & H3 & H4 & H5).
  destruct self. cbn in *. subst. reflexivity.
Qed.

Lemma entries_parse (host : Host) (es : list Entry.t) :
  Forall entry_ok es ->
  forall self, nothing_pending self ->
    parse_lines host self (flat_map entry_lines es)
    = ret (M3U8Parser.on_m3u8
             (fun m =>
                M3U8.set_segments
                  (M3U8.segments m ++ map (entry_segment host self) es) m)
             self).
Proof.
  induction 1 as [|e es He _ IH]; intros self Hself.
  - cbn [flat_map parse_lines map]. destruct self as [[]].
    unfold M3U8Parser.on_m3u8, M3U8Parser.set_m3u8, M3U8.set_segments. cbn.
    now rewrite app_nil_r.
  - cbn [flat_map]. rewrite parse_lines_app, (entry_lines_parse host self e He Hself).
    rewrite bind_ret_l, IH.
    + destruct self.
      unfold M3U8Parser.on_m3u8, M3U8Parser.set_m3u8, M3U8.set_segments. cbn.
      rewrite <- app_assoc. reflexivity.
    + destruct Hself as (H1 & H2 & H3 & H4 & H5). repeat split; assumption.
Qed.

Lemma entry_lines_text (e : Entry.t) :
  entry_ok e ->
  Forall (fun l => line_text l = true /\ Str.truthy l = true) (entry_lines e).
Proof.
  intros He. unfold entry_lines. constructor; [|constructor; [|constructor]].
  - split; [|reflexivity].
    rewrite !line_text_append.
    now rewrite (line_text_duration e He), (line_text_title e He).
  - destruct He as (_ & _ & _ & Hne & Hl & _). split; [exact Hl|].
    destruct (Entry.uri e); [congruence | reflexivity].
Qed.

Lemma filter_truthy_all (l : list string) :
  Forall (fun s => Str.truthy s = true) l -> List.filter Str.truthy l = l.
Proof.
  induction 1 as [|s l Hs _ IH]; [reflexivity|]. simpl. now rewrite Hs, IH.
Qed.

Lemma media_playlist_lines (es : list Entry.t) :
  Forall entry_ok es ->
  data_lines (DataStr (media_playlist es)) = "#EXTM3U" :: flat_map entry_lines es.
Proof.
  intros Hes.
  assert (Hall : Forall (fun l => line_text l = true /\ Str.truthy l = true)
                   (flat_map entry_lines es)).
  { induction Hes as [|e es He _ IH]; [constructor|].
    cbn [flat_map]. apply Forall_app. split; [now apply entry_lines_text | exact IH]. }
  unfold data_lines, media_playlist.
  rewrite <- (append_nil_r (unlines _ _)).
  rewrite splitlines_unlines.
  - cbn [Str.truthy]. rewrite app_nil_r. apply filter_truthy_all.
    constructor; [reflexivity|]. eapply List.Forall_impl; [|exact Hall]. now intros l [_ H].
  - now left.
  - constructor; [reflexivity|]. eapply List.Forall_impl; [|exact Hall]. now intros l [H _].
  - reflexivity.
Qed.


(** ** Attribute lists as they are written *)

Lemma star_complete {R : Type} (p : ascii -> bool) (pre rest : string)
    (k : string -> option R) (x : R) :
  Str.all p pre = true -> k rest = Some x ->
  exists y, Re.star p (pre +:+ rest) k = Some y.
Proof.
  intros Hall Hk. induction pre as [|c pre IH].
  - rewrite append_nil_l. destruct rest as [|d rest]; simpl; [eauto|].
    destruct (p d); [|eauto]. destruct (Re.star p rest k); eauto.
  - rewrite all_cons in Hall. apply andb_prop in Hall as [Hc Hall].
    rewrite append_cons. cbn [Re.star]. rewrite Hc.
    destruct (IH Hall) as (y & ->). eauto.
Qed.

(** The matcher finds a match when there is one: if the pattern matches a
    prefix after which the rest of the work succeeds, the matcher
    succeeds (not necessarily with this match). *)
Lemma run_complete {R : Type} (r : Re.regex) (pre : string) (c : Re.captures) :
  matches r pre c -> no_eol r = true ->
  forall (rest : string) (caps : Re.captures)
         (k : string -> Re.captures -> option R) (x : R),
    k rest (c ++ caps) = Some x ->
    exists y, Re.run r (pre +:+ rest) caps k = Some y.
Proof.
  induction 1 as [|a|p ch Hp|r1 r2 s1 s2 c1 c2 _ IH1 _ IH2|r1 r2 s c _ IH
                  |r1 r2 s c _ IH|p s Hall|name r s c _ IH|];
    intros Hno rest caps k x Hk; cbn [no_eol] in Hno.
  - eauto.
  - cbn [Re.run]. rewrite append_cons, append_nil_l, Ascii.eqb_refl. eauto.
  - cbn [Re.run]. rewrite append_cons, append_nil_l, Hp. eauto.
  - apply andb_prop in Hno as [Hno1 Hno2]. cbn [Re.run]. rewrite append_assoc.
    rewrite <- app_assoc in Hk.
    destruct (IH2 Hno2 rest (c1 ++ caps) k x Hk) as (y & Hy).
    exact (IH1 Hno1 (s2 +:+ rest) caps _ y Hy).
  - apply andb_prop in Hno as [Hno1 _]. cbn [Re.run].
    destruct (IH Hno1 rest caps k x Hk) as (y & ->). eauto.
  - apply andb_prop in Hno as [_ Hno2]. cbn [Re.run].
    destruct (Re.run r1 (s +:+ rest) caps k); [eauto|].
    exact (IH Hno2 rest caps k x Hk).
  - cbn [Re.run]. eapply star_complete; eauto.
  - cbn [Re.run]. eapply IH; [exact Hno|]. rewrite consumed_append. exact Hk.
  - discriminate.
Qed.

Lemma star_stops {R : Type} (p : ascii -> bool) (s : string) (k : string -> option R) :
  stops p s -> Re.star p s k = k s.
Proof. destruct s as [|c s]; [reflexivity|]. simpl. now intros ->. Qed.

Lemma sep_starts {R : Type} (s : string) (caps : Re.captures)
    (k : string -> Re.captures -> option R) (x : R) :
  Re.run attr_sep_re s caps k = Some x -> separator_starts s.
Proof.
  unfold attr_sep_re. cbn [Re.run]. intros H. apply star_sound in H.
  destruct H as (pre & s' & -> & Hall & H).
  destruct pre as [|c pre].
  - rewrite append_nil_l. destruct s' as [|c s']; [exact I|]. simpl.
    destruct (Ascii.eqb "," c) eqn:E.
    + apply Ascii.eqb_eq in E. now right.
    + destruct s'; [|discriminate].
      destruct (Char.eqb c Char.LF) eqn:E'; [|discriminate].
      apply Ascii.eqb_eq in E'. subst c. now left.
  - rewrite all_cons in Hall. apply andb_prop in Hall as [Hc _].
    rewrite append_cons. simpl. now left.
Qed.

Lemma sep_end {R : Type} (caps : Re.captures)
    (k : string -> Re.captures -> option R) :
  Re.run attr_sep_re EmptyString caps k = k EmptyString caps.
Proof. reflexivity. Qed.

Lemma sep_comma {R : Type} (next : string) (caps : Re.captures)
    (k : string -> Re.captures -> option R) (x : R) :
  stops Char.space next -> k next caps = Some x ->
  Re.run attr_sep_re (String "," next) caps k = Some x.
Proof.
  intros Hstop Hk. unfold attr_sep_re. cbn [Re.run Re.star].
  change (Char.space ",") with false. cbv iota.
  change (Ascii.eqb "," ",") with true. cbv iota.
  now rewrite star_stops, Hk.
Qed.

Lemma append_eq_cases (a b c d : string) :
  a +:+ b = c +:+ d ->
  exists e, (c = a +:+ e /\ b = e +:+ d) \/ (a = c +:+ e /\ d = e +:+ b).
Proof.
  revert c. induction a as [|x a IH]; intros c H.
  - exists c. left. rewrite append_nil_l in *. auto.
  - destruct c as [|y c].
    + exists (String x a). right. rewrite append_nil_l in *. auto.
    + rewrite !append_cons in H. injection H as -> H.
      destruct (IH c H) as (e & [[-> ->] | [-> ->]]); exists e; [left | right];
        rewrite ?append_cons; auto.
Qed.

(** Two texts up to the first occurrence of a character. *)
Lemma split_at_first (x : ascii) (a b s t : string) :
  Str.all (fun c => negb (Char.eqb c x)) a = true ->
  Str.all (fun c => negb (Char.eqb c x)) b = true ->
  a +:+ String x s = b +:+ String x t -> a = b /\ s = t.
Proof.
  revert b. induction a as [|c a IH]; intros b Ha Hb H.
  - destruct b as [|d b]; [rewrite !append_nil_l in H; injection H; auto|].
    rewrite append_nil_l, append_cons in H. injection H as <- _.
    rewrite all_cons in Hb. unfold Char.eqb in Hb. now rewrite Ascii.eqb_refl in Hb.
  - rewrite all_cons in Ha. apply andb_prop in Ha as [Hc Ha].
    destruct b as [|d b].
    + rewrite append_nil_l, append_cons in H. injection H as -> _.
      unfold Char.eqb in Hc. now rewrite Ascii.eqb_refl in Hc.
    + rewrite all_cons in Hb. apply andb_prop in Hb as [_ Hb].
      rewrite !append_cons in H. injection H as -> H.
      destruct (IH b Ha Hb H) as [-> ->]. auto.
Qed.

Ltac class_facts :=
  let c := fresh "c" in
  intros c; destruct c as [[] [] [] [] [] [] [] []]; vm_compute;
  let H := fresh "H" in
  intros H; try discriminate H; repeat split; congruence.

Lemma digit_plain c : Char.digit c = true -> plain_char c = true.
Proof. revert c. class_facts. Qed.

Lemma hexdigit_plain c : Char.hexdigit c = true -> plain_char c = true.
Proof. revert c. class_facts. Qed.

Lemma enumerated_plain c : enumerated_char c = true -> plain_char c = true.
Proof. revert c. class_facts. Qed.

Lemma one_of_x_plain c : Re.one_of "xX" c = true -> plain_char c = true.
Proof. revert c. class_facts. Qed.

Lemma quoted_not_dquote c : quoted_char c = true -> negb (Char.eqb c dquote) = true.
Proof. revert c. class_facts. Qed.

Lemma enumerated_no_separator c :
  enumerated_char c = true -> Char.space c = false /\ c <> ","%char.
Proof. revert c. class_facts. Qed.

Lemma key_char_no_space c : attr_key_char c = true -> Char.space c = false.
Proof. revert c. class_facts. Qed.

Lemma key_char_not_equals c : attr_key_char c = true -> Ascii.eqb c "=" = false.
Proof. revert c. class_facts. Qed.

(** The matches of the pattern of a value: a quoted string, or a text
    without comma and double quote. *)
Lemma value_match_shape (val : string) (c : Re.captures) :
  matches attr_value_re val c ->
  val <> EmptyString /\
  ((exists q, val = dq +:+ q +:+ dq /\ Str.all quoted_char q = true /\
              c = [("quoted", q)]) \/
   (Str.all plain_char val = true /\ c = [])).
Proof.
  unfold attr_value_re. intros H. inv_matches.
  all: split;
    [ rewrite ?append_nil_l;
      match goal with
      | |- String _ _ +:+ _ <> _ => discriminate
      | |- ?x +:+ _ <> _ => destruct x; [congruence | discriminate]
      | |- ?x <> _ => assumption
      end
    | ].
  all: try (left; eexists; split; [reflexivity|]; split; [assumption | reflexivity]).
  all: right; split; [|reflexivity].
  all: rewrite ?all_append, ?all_cons;
    repeat match goal with
      | H : Str.all Char.digit ?s = true |- context [Str.all plain_char ?s] =>
          rewrite (all_impl _ _ s digit_plain H)
      | H : Str.all Char.hexdigit ?s = true |- context [Str.all plain_char ?s] =>
          rewrite (all_impl _ _ s hexdigit_plain H)
      | H : Str.all enumerated_char ?s = true |- context [Str.all plain_char ?s] =>
          rewrite (all_impl _ _ s enumerated_plain H)
      | H : Re.one_of "xX" ?x = true |- context [plain_char ?x] =>
          rewrite (one_of_x_plain x H)
      end.
  all: reflexivity.
Qed.

Lemma enumerated_not_quoted (v q : string) :
  v <> EmptyString -> Str.all enumerated_char v = true ->
  forall s, v +:+ s = dq +:+ q -> False.
Proof.
  intros Hne Hall s H. destruct v as [|y v]; [congruence|].
  rewrite all_cons in Hall. apply andb_prop in Hall as [Hy _].
  unfold dq in H. rewrite !append_cons in H. injection H as -> _. discriminate Hy.
Qed.

(** The value that the pattern takes of a plain value is all of it. *)
Lemma plain_value_unique (v tail val rest : string) (c : Re.captures) :
  v <> EmptyString -> Str.all enumerated_char v = true ->
  tail = EmptyString \/ (exists next, tail = String "," next) ->
  separator_starts rest ->
  matches attr_value_re val c ->
  val +:+ rest = v +:+ tail ->
  val = v /\ rest = tail /\ c = [].
Proof.
  intros Hne Hall Htail Hrest Hm E.
  destruct (value_match_shape val c Hm) as [Hval Hshape].
  assert (Hplain : Str.all plain_char val = true /\ c = []).
  { destruct Hshape as [(q & -> & _) | H]; [|exact H]. exfalso.
    destruct (append_eq_cases _ _ _ _ E) as (e & [[Hv _] | [Hv _]]).
    - rewrite append_assoc in Hv. rewrite Hv in Hall. unfold dq in Hall.
      rewrite append_cons, all_cons in Hall. discriminate Hall.
    - symmetry in Hv. eapply (enumerated_not_quoted v); eauto. }
  destruct Hplain as [Hplain ->].
  destruct (append_eq_cases _ _ _ _ E) as (e & [[Hv Hr] | [Hv Ht]]).
  - destruct e as [|x e]; [rewrite append_nil_r in Hv; rewrite append_nil_l in Hr; auto|].
    exfalso. subst. rewrite all_append, all_cons in Hall.
    apply andb_prop in Hall as [_ Hall]. apply andb_prop in Hall as [Hx _].
    destruct (enumerated_no_separator x Hx) as [Hs Hc].
    simpl in Hrest. destruct Hrest as [Hrest | Hrest]; congruence.
  - destruct e as [|x e]; [rewrite append_nil_r in Hv; rewrite append_nil_l in Ht; auto|].
    exfalso. destruct Htail as [-> | (next & ->)]; [discriminate Ht|].
    rewrite append_cons in Ht. injection Ht as <- _.
    subst val. rewrite all_append, all_cons in Hplain.
    apply andb_prop in Hplain as [_ Hplain]. discriminate Hplain.
Qed.

(** The value that the pattern takes of a quoted string is the string
    with its quotes, and the group of the quoted text is the text. *)
Lemma quoted_value_unique (q tail val rest : string) (c : Re.captures) :
  Str.all quoted_char q = true ->
  matches attr_value_re val c ->
  val +:+ rest = (dq +:+ q +:+ dq) +:+ tail ->
  val = dq +:+ q +:+ dq /\ rest = tail /\ c = [("quoted", q)].
Proof.
  intros Hq Hm E.
  destruct (value_match_shape val c Hm) as [Hval [(q' & -> & Hq' & ->) | [Hplain _]]].
  - unfold dq in E. rewrite !append_assoc, !append_cons, !append_nil_l in E.
    injection E as E.
    apply split_at_first in E.
    + destruct E as [-> ->]. auto.
    + eapply all_impl; [|exact Hq']. apply quoted_not_dquote.
    + eapply all_impl; [|exact Hq]. apply quoted_not_dquote.
  - exfalso. destruct val as [|y val]; [congruence|].
    rewrite all_cons in Hplain. apply andb_prop in Hplain as [Hy _].
    unfold dq in E. rewrite !append_cons in E. injection E as -> _. discriminate Hy.
Qed.

Lemma run_group {R : Type} (name : string) (r : Re.regex) (s : string)
    (caps : Re.captures) (k : string -> Re.captures -> option R) :
  Re.run (Re.Group name r) s caps k
  = Re.run r s caps (fun s' caps' => k s' ((name, Re.consumed s s') :: caps')).
Proof. reflexivity. Qed.

Lemma matches_render_value (v : attr_value) :
  match v with
  | Plain v => v <> EmptyString /\ Str.all enumerated_char v = true
  | Quoted q => Str.all quoted_char q = true
  end ->
  matches attr_value_re (render_value v)
    match v with Plain _ => [] | Quoted q => [("quoted", q)] end.
Proof.
  unfold attr_value_re. destruct v as [v|q]; cbn [render_value].
  - intros [Hne Hall]. do 4 apply matches_alt_r. apply matches_alt_l.
    destruct v as [|c v]; [congruence|].
    rewrite all_cons in Hall. apply andb_prop in Hall as [Hc Hall].
    change (String c v) with (String c EmptyString +:+ v).
    change (@nil (string * string)) with (@nil (string * string) ++ []).
    apply matches_seq; [now apply matches_cls | now apply matches_star].
  - intros Hall. do 3 apply matches_alt_r. apply matches_alt_l.
    change [("quoted", q)] with (([] ++ [("quoted", q)]) ++ @nil (string * string)).
    apply matches_seq; [apply matches_chr|].
    apply matches_seq; [|apply matches_chr].
    apply matches_group. now apply matches_star.
Qed.

(** An attribute as it is written is matched whole by [_attr_re], with the
    separator after it. *)
Lemma attr_re_render (k : string) (v : attr_value) (tail next : string) :
  attribute_ok (k, v) ->
  (tail = EmptyString /\ next = EmptyString) \/
  (tail = String "," next /\ stops Char.space next) ->
  exists m,
    Re.re_match _attr_re (k +:+ "=" +:+ render_value v +:+ tail) = Some m /\
    attr_entry m = (k, value_text v) /\ Re.rest m = next.
Proof.
  intros (Hk & Hkey & Hv) Htail. cbn [fst snd] in *.
  set (c0 := match v with Plain _ => [] | Quoted q => [("quoted", q)] end).
  set (result := {| Re.rest := next;
                    Re.groups := ("value", render_value v) :: c0 ++ [("key", k)] |}).
  assert (Hentry : attr_entry result = (k, value_text v)).
  { unfold attr_entry, group_str, Re.group, result, c0.
    destruct v; reflexivity. }
  exists result. split; [|split; [exact Hentry | reflexivity]].
  unfold Re.re_match, _attr_re. fold attr_sep_re. rewrite run_seq.
  apply group_plus_greedy; [exact Hk | exact Hkey | reflexivity|].
  rewrite run_seq, append_cons, append_nil_l, run_chr, run_seq, run_group.
  set (K := fun (s' : string) (caps' : Re.captures) =>
              Re.run attr_sep_re s'
                (("value", Re.consumed (render_value v +:+ tail) s') :: caps')
                (fun s'0 caps => Some {| Re.rest := s'0; Re.groups := caps |})).
  assert (HK : K tail (c0 ++ [("key", k)]) = Some result).
  { unfold K. rewrite consumed_append.
    destruct Htail as [[-> ->] | [-> Hstop]]; [reflexivity|].
    now apply sep_comma. }
  destruct (run_complete attr_value_re (render_value v) c0
              (matches_render_value v Hv) eq_refl tail [("key", k)] K result HK)
    as (y & Hy).
  rewrite Hy. f_equal.
  apply run_sound in Hy. destruct Hy as (val & rest' & c & E & Hm & Hy).
  assert (Hsep : separator_starts rest') by (unfold K in Hy; eapply sep_starts; eauto).
  assert (Hu : val = render_value v /\ rest' = tail /\ c = c0).
  { destruct v as [v|q]; cbn [render_value] in *.
    - destruct Hv as [Hne Hall].
      eapply plain_value_unique; eauto.
      destruct Htail as [[-> _] | [-> _]]; eauto.
    - eapply quoted_value_unique; eauto. }
  destruct Hu as (_ & -> & ->). rewrite HK in Hy. now injection Hy.
Qed.

Lemma render_attributes_starts (l : list (string * attr_value)) :
  Forall attribute_ok l -> stops Char.space (render_attributes l).
Proof.
  intros H. destruct H as [|[k v] l (Hk & Hkey & _) _]; [exact I|].
  unfold render_attributes. cbn [map join render_attribute fst snd] in *.
  destruct k as [|c k]; [congruence|].
  rewrite all_cons in Hkey. apply andb_prop in Hkey as [Hc _].
  rewrite !append_cons. simpl. now apply key_char_no_space.
Qed.

Lemma render_attributes_cons (kv : string * attr_value)
    (l : list (string * attr_value)) :
  render_attributes (kv :: l)
  = render_attribute kv
    +:+ match l with
        | [] => EmptyString
        | _ :: _ => "," +:+ render_attributes l
        end.
Proof. unfold render_attributes. cbn [map join]. now destruct l. Qed.

Lemma render_attributes_list (l : list (string * attr_value)) :
  Forall attribute_ok l ->
  attr_list (render_attributes l) (map attribute_entry l).
Proof.
  induction 1 as [|[k v] l Hkv Hl IH]; [constructor|].
  rewrite render_attributes_cons. cbn [map].
  set (tail := match l with [] => EmptyString | _ :: _ => "," +:+ render_attributes l end).
  destruct (attr_re_render k v tail (render_attributes l) Hkv) as (m & Hm & He & Hr).
  { unfold tail. destruct l as [|kv l]; [left; auto|].
    right. split; [reflexivity|]. now apply render_attributes_starts. }
  unfold render_attribute. cbn [fst snd]. rewrite !append_assoc.
  change (String "=" (render_value v +:+ tail)) with ("=" +:+ render_value v +:+ tail).
  unfold attribute_entry at 1. cbn [fst snd]. rewrite <- He.
  eapply attr_list_entry; [|exact Hm|now rewrite Hr].
  destruct Hkv as (Hk & _). cbn [fst] in Hk. destruct k; [congruence | discriminate].
Qed.

Lemma last_value_key (entries : list (string * string)) (k : string) :
  last_value k entries <> None -> In k (map fst entries).
Proof.
  induction entries as [|[a b] entries IH]; simpl; [congruence|].
  destruct (last_value k entries).
  - intros _. right. apply IH. discriminate.
  - destruct (String.eqb a k) eqn:E; [|congruence].
    apply String.eqb_eq in E. now left.
Qed.

Lemma last_value_NoDup (entries : list (string * string)) (k v : string) :
  List.NoDup (map fst entries) -> In (k, v) entries -> last_value k entries = Some v.
Proof.
  induction entries as [|[k' v'] entries IH]; simpl; [tauto|].
  intros Hnd Hin. apply List.NoDup_cons_iff in Hnd as [Hnotin Hnd].
  destruct Hin as [E | Hin].
  - injection E as -> ->.
    destruct (last_value k entries) as [x|] eqn:El.
    + exfalso. apply Hnotin. apply last_value_key. congruence.
    + now rewrite String.eqb_refl.
  - now rewrite (IH Hnd Hin).
Qed.

(** X16.  [parse_attributes] reads back an attribute list that is
    written in the plain way, the attributes with a comma between them,
    each one a key, the equals sign and a value, plain or between double
    quotes: the mapping is the one that assigning the attributes in their
    order gives, a quoted value without its quotes (commas and spaces in
    it are kept), and nothing is logged.  When no key comes twice, every
    key has the text of its value. *)
Theorem parse_attributes_render (l : list (string * attr_value)) :
  Forall attribute_ok l ->
  parse_attributes (render_attributes l) = ret (assign (map attribute_entry l) ∅) /\
  (List.NoDup (map fst l) ->
   forall k v, In (k, v) l ->
     assign (map attribute_entry l) ∅ !! k = Some (value_text v)).
Proof.
  intros Hl. split.
  - apply parse_attributes_loop_entries. now apply render_attributes_list.
  - intros Hnd k v Hin. rewrite assign_lookup.
    rewrite (last_value_NoDup _ k (value_text v)); [reflexivity | |].
    + now rewrite map_map.
    + apply in_map_iff. exists (k, v). auto.
Qed.

Lemma parse_attributes_render_witness :
  let l := [("BANDWIDTH", Plain "1280000"); ("CODECS", Quoted "avc1.4d401f, mp4a.40.2");
            ("RESOLUTION", Plain "1280x720")] in
  render_attributes l
  = "BANDWIDTH=1280000,CODECS=" +:+ dq +:+ "avc1.4d401f, mp4a.40.2" +:+ dq
    +:+ ",RESOLUTION=1280x720" /\
  exists attr,
    parse_attributes (render_attributes l) = ret attr /\
    attr !! "CODECS" = Some "avc1.4d401f, mp4a.40.2" /\
    attr !! "RESOLUTION" = Some "1280x720".
Proof.
  intros l. split; [reflexivity|].
  assert (Hl : Forall attribute_ok l)
    by (repeat constructor; discriminate).
  assert (Hnd : List.NoDup (map fst l))
    by (repeat constructor; simpl; intuition discriminate).
  destruct (parse_attributes_render l Hl) as [Hparse Hlookup].
  eexists. split; [exact Hparse|]. split.
  - apply (Hlookup Hnd "CODECS" (Quoted "avc1.4d401f, mp4a.40.2")). simpl. auto.
  - apply (Hlookup Hnd "RESOLUTION" (Plain "1280x720")). simpl. auto.
Defined.
(** ** The codecs of a stream *)

Lemma split_from_text (a rest cur : string) :
  no_comma a = true ->
  Str.split_from "," cur (a +:+ rest) = Str.split_from "," (Str.rev_onto a cur) rest.
Proof.
  unfold no_comma. revert cur. induction a as [|c a IH]; intros cur H; [reflexivity|].
  rewrite all_cons in H. apply andb_prop in H as [Hc Ha].
  rewrite append_cons. cbn [Str.split_from Str.rev_onto].
  apply negb_true_iff in Hc. rewrite Hc. now apply IH.
Qed.

(** [split] undoes [join]. *)
Lemma split_join (cs : list string) :
  cs <> nil -> Forall (fun c => no_comma c = true) cs ->
  Str.split "," (join "," cs) = cs.
Proof.
  intros Hne Hall. unfold Str.split.
  induction Hall as [|c cs Hc Hall IH]; [congruence|].
  assert (Hrev : Str.rev (Str.rev_onto c EmptyString) = c)
    by (rewrite rev_rev_onto; reflexivity).
  cbn [join]. rewrite split_from_text by exact Hc.
  destruct cs as [|c' cs].
  - cbn [Str.split_from]. now rewrite Hrev.
  - rewrite append_cons, append_nil_l. cbn [Str.split_from].
    change (Char.eqb "," ",") with true. cbv iota.
    rewrite Hrev, IH by discriminate. reflexivity.
Qed.

(** [split] never gives an empty list. *)
Lemma split_from_nonempty (s cur : string) : Str.split_from "," cur s <> nil.
Proof.
  revert cur. induction s as [|c s IH]; intros cur; cbn [Str.split_from].
  - intros H. discriminate H.
  - destruct (Char.eqb c ","); [intros H; discriminate H | apply IH].
Qed.

Lemma create_stream_info_codecs (streaminf : attrs) (iframe : bool) (info : stream_info) :
  create_stream_info streaminf iframe = Ok info ->
  stream_info_codecs info
  = Str.split ","
      (if truthy_opt (streaminf !! "CODECS")
       then default EmptyString (streaminf !! "CODECS") else EmptyString).
Proof.
  unfold create_stream_info. cbv zeta.
  destruct (stream_bandwidth _) as [b|]; cbn [rbind]; [|discriminate].
  destruct (stream_resolution _) as [r|]; cbn [rbind]; [|discriminate].
  destruct iframe; intros H; injection H as <-; reflexivity.
Qed.

(** X17.  The codecs of a stream are the parts of the [CODECS] attribute
    between its commas: splitting undoes the joining of codecs that have
    no comma in them.  The list is never empty: without the attribute, or
    with an empty one, it is the list of the empty string alone. *)
Theorem stream_codecs (streaminf : attrs) (iframe : bool) (info : stream_info) :
  create_stream_info streaminf iframe = Ok info ->
  stream_info_codecs info <> nil /\
  (truthy_opt (streaminf !! "CODECS") = false ->
   stream_info_codecs info = [EmptyString]) /\
  (forall cs,
     cs <> nil -> Forall (fun c => no_comma c = true) cs ->
     streaminf !! "CODECS" = Some (join "," cs) ->
     stream_info_codecs info = cs).
Proof.
  intros H. apply create_stream_info_codecs in H. rewrite H. clear H.
  split; [|split].
  - apply split_from_nonempty.
  - intros ->. reflexivity.
  - intros cs Hne Hall ->. cbn [truthy_opt default from_option id].
    destruct (Str.truthy (join "," cs)) eqn:E; [now apply split_join|].
    rewrite <- (split_join cs Hne Hall).
    destruct (join "," cs); [reflexivity | discriminate E].
Qed.

Lemma stream_codecs_witness :
  exists info,
    create_stream_info {["CODECS" := "avc1.4d401f,mp4a.40.2"]} false = Ok info /\
    stream_info_codecs info = ["avc1.4d401f"; "mp4a.40.2"] /\
    exists info',
      create_stream_info ∅ true = Ok info' /\ stream_info_codecs info' = [EmptyString].
Proof.
  assert (H : exists info,
             create_stream_info {["CODECS" := "avc1.4d401f,mp4a.40.2"]} false = Ok info)
    by (eexists; vm_compute; reflexivity).
  destruct H as (info & H). exists info. split; [exact H|]. split.
  - destruct (stream_codecs _ _ _ H) as (_ & _ & Hjoin).
    apply (Hjoin ["avc1.4d401f"; "mp4a.40.2"]);
      [discriminate | repeat constructor | reflexivity].
  - assert (H' : exists info', create_stream_info ∅ true = Ok info')
      by (eexists; vm_compute; reflexivity).
    destruct H' as (info' & H'). exists info'. split; [exact H'|].
    destruct (stream_codecs _ _ _ H') as (_ & Hempty & _).
    apply Hempty. reflexivity.
Defined.
(** ** Lines with an attribute list *)

Lemma key_char_dot c : attr_key_char c = true -> Re.dot c = true.
Proof. revert c. class_facts. Qed.

Lemma enumerated_dot c : enumerated_char c = true -> Re.dot c = true.
Proof. revert c. class_facts. Qed.

Lemma quoted_dot c : quoted_char c = true -> Re.dot c = true.
Proof. revert c. class_facts. Qed.

Lemma enumerated_no_space c : enumerated_char c = true -> negb (Char.space c) = true.
Proof. revert c. class_facts. Qed.

Lemma render_attribute_dot (kv : string * attr_value) :
  attribute_ok kv -> Str.all Re.dot (render_attribute kv) = true.
Proof.
  destruct kv as [k v]. intros (_ & Hkey & Hv). cbn [fst snd] in *.
  unfold render_attribute. cbn [fst snd]. rewrite !all_append.
  rewrite (all_impl _ _ k key_char_dot Hkey). cbn [andb].
  destruct v as [v|q]; cbn [render_value].
  - destruct Hv as [_ Hv]. now rewrite (all_impl _ _ v enumerated_dot Hv).
  - unfold dq. rewrite !all_append, (all_impl _ _ q quoted_dot Hv). reflexivity.
Qed.

Lemma render_attributes_dot (l : list (string * attr_value)) :
  Forall attribute_ok l -> Str.all Re.dot (render_attributes l) = true.
Proof.
  induction 1 as [|kv l Hkv Hl IH]; [reflexivity|].
  rewrite render_attributes_cons, all_append, (render_attribute_dot kv Hkv).
  destruct l; [reflexivity|]. rewrite all_append, IH. reflexivity.
Qed.

(** An attribute as it is written does not end with white space. *)
Lemma rstrip_render_attribute (kv : string * attr_value) :
  attribute_ok kv -> Str.rstrip (render_attribute kv) = render_attribute kv.
Proof.
  destruct kv as [k v]. intros (_ & _ & Hv). cbn [fst snd] in *.
  unfold render_attribute. cbn [fst snd].
  destruct v as [v|q]; cbn [render_value].
  - destruct Hv as [Hne Hv]. rewrite <- append_assoc.
    apply rstrip_append; [exact Hne|]. apply rstrip_no_space.
    eapply all_impl; [|exact Hv]. apply enumerated_no_space.
  - rewrite <- !append_assoc. apply rstrip_append; [discriminate | reflexivity].
Qed.

Lemma render_attribute_nonempty (kv : string * attr_value) :
  attribute_ok kv -> render_attribute kv <> EmptyString.
Proof.
  destruct kv as [k v]. intros (Hk & _). cbn [fst] in Hk.
  unfold render_attribute. cbn [fst snd]. destruct k; [congruence | discriminate].
Qed.

Lemma strip_render_attributes (l : list (string * attr_value)) :
  Forall attribute_ok l -> Str.strip (render_attributes l) = render_attributes l.
Proof.
  intros Hl. unfold Str.strip.
  assert (Hlstrip : Str.lstrip (render_attributes l) = render_attributes l).
  { pose proof (render_attributes_starts l Hl) as Hs.
    destruct (render_attributes l) as [|c s]; [reflexivity|].
    simpl in *. now rewrite Hs. }
  rewrite Hlstrip. clear Hlstrip.
  induction Hl as [|kv l Hkv Hl IH]; [reflexivity|].
  rewrite render_attributes_cons. destruct l as [|kv' l].
  - rewrite append_nil_r. now apply rstrip_render_attribute.
  - rewrite <- append_assoc. apply rstrip_append; [|exact IH].
    rewrite render_attributes_cons. inversion Hl; subst.
    pose proof (render_attribute_nonempty kv' ltac:(assumption)) as Hne.
    destruct (render_attribute kv'); [congruence | discriminate].
Qed.

(** A line of a registered tag and an attribute list as it is written runs
    the parser of the tag on the list, and the list is read back. *)
Lemma parse_line_attributes (host : Host) (self : M3U8Parser.t) (tag : string)
    (h : handler) (l : list (string * attr_value)) :
  lookup_tag tag (_TAGS host) = Some h ->
  tag <> EmptyString -> Str.all tag_char tag = true ->
  Forall attribute_ok l ->
  parse_line host self ("#" +:+ tag +:+ ":" +:+ render_attributes l)
  = h self (render_attributes l) /\
  parse_attributes (render_attributes l) = ret (assign (map attribute_entry l) ∅).
Proof.
  intros Hlook Hne Htag Hl. split.
  - rewrite (parse_line_tag_value host self tag _ h Hlook);
      [now rewrite strip_render_attributes | now apply render_attributes_dot
      | exact Hne | exact Htag].
  - apply parse_attributes_loop_entries. now apply render_attributes_list.
Qed.

Lemma hexdigit_enumerated c : Char.hexdigit c = true -> enumerated_char c = true.
Proof. revert c. class_facts. Qed.

Lemma hexlify_enumerated (upper : bool) (bs : list N) :
  Forall (fun b => (b < 256)%N) bs ->
  Str.all enumerated_char (hexlify upper bs) = true.
Proof.
  induction 1 as [|b bs Hb _ IH]; [reflexivity|].
  cbn [hexlify]. rewrite !all_cons, IH.
  assert (Hhi : (b / 16 < 16)%N) by (apply N.Div0.div_lt_upper_bound; lia).
  assert (Hlo : (b mod 16 < 16)%N) by (apply N.mod_lt; lia).
  destruct (hex_digit_facts upper _ Hhi) as (H1 & _).
  destruct (hex_digit_facts upper _ Hlo) as (H2 & _).
  now rewrite (hexdigit_enumerated _ H1), (hexdigit_enumerated _ H2).
Qed.

Lemma parse_hex_bytes (upper : bool) (bs : list N) :
  Forall (fun b => (b < 256)%N) bs ->
  parse_hex (Some ("0x" +:+ hexlify upper bs)) = ret (Some bs).
Proof.
  intros H. unfold parse_hex.
  replace (Str.take 2 ("0x" +:+ hexlify upper bs)) with "0x"
    by (now destruct (hexlify upper bs)).
  cbn [String.eqb Ascii.eqb Bool.eqb orb].
  rewrite !append_cons, append_nil_l. cbn [String.length Str.drop].
  change (Nat.odd (S (S ?n))) with (Nat.odd n). rewrite hexlify_even.
  rewrite ?append_nil_l. now rewrite unhexlify_hexlify.
Qed.



Lemma digit_quoted c : Char.digit c = true -> quoted_char c = true.
Proof. revert c. class_facts. Qed.

Lemma parse_byterange_offset (n o : string) :
  is_digits n -> is_digits o ->
  parse_byterange (n +:+ "@" +:+ o)
  = Ok (Some (ByteRange.mk (decimal_value n) (Some (decimal_value o)))).
Proof.
  intros [Hn Hdn] [Ho Hdo]. unfold parse_byterange.
  pose proof (range_re_offset n o EmptyString Hn Hdn Ho Hdo I) as Hr.
  rewrite append_nil_r in Hr. rewrite Hr.
  unfold group_str, Re.group. cbn.
  now rewrite (int_decimal n Hn Hdn), (int_decimal o Ho Hdo).
Qed.


(** ** Master playlists *)

Lemma key_char_line_text c : attr_key_char c = true -> negb (Char.linebreak c) = true.
Proof. revert c. class_facts. Qed.

Lemma enumerated_line_text c : enumerated_char c = true -> negb (Char.linebreak c) = true.
Proof. revert c. class_facts. Qed.

Lemma digit_enumerated c : Char.digit c = true -> enumerated_char c = true.
Proof. revert c. class_facts. Qed.

Lemma variant_attributes_ok (v : Variant.t) :
  variant_ok v -> Forall attribute_ok (variant_attributes v).
Proof.
  intros ((Hb & Hdb) & _ & Hr & _). unfold variant_attributes.
  apply List.Forall_cons.
  - split; [discriminate|]. split; [reflexivity|]. split; [exact Hb|].
    now apply (all_impl _ _ _ digit_enumerated).
  - destruct (Variant.resolution v) as [[w h]|]; [|apply List.Forall_nil].
    destruct Hr as [[Hw Hdw] [Hh Hdh]].
    apply List.Forall_cons; [|apply List.Forall_nil].
    split; [discriminate|]. split; [reflexivity|]. cbn [snd]. split.
    + destruct w; [congruence | discriminate].
    + rewrite !all_append.
      rewrite (all_impl _ _ w digit_enumerated Hdw), (all_impl _ _ h digit_enumerated Hdh).
      reflexivity.
Qed.

Lemma variant_attributes_line_text (v : Variant.t) :
  variant_ok v -> line_text (render_attributes (variant_attributes v)) = true.
Proof.
  intros ((Hb & Hdb) & _ & Hr & _). unfold variant_attributes.
  rewrite render_attributes_cons. unfold render_attribute. cbn [fst snd render_value].
  rewrite !line_text_append, (line_text_digits _ Hdb).
  destruct (Variant.resolution v) as [[w h]|]; [|reflexivity].
  destruct Hr as [[Hw Hdw] [Hh Hdh]].
  rewrite render_attributes_cons. unfold render_attribute. cbn [fst snd render_value].
  rewrite !line_text_append, (line_text_digits _ Hdw), (line_text_digits _ Hdh).
  reflexivity.
Qed.

Lemma parse_resolution_digits (w h : string) :
  is_digits w -> is_digits h ->
  parse_resolution (w +:+ "x" +:+ h)
  = Ok (Resolution.mk (decimal_value w) (decimal_value h)).
Proof.
  intros [Hw Hdw] [Hh Hdh]. unfold parse_resolution.
  pose proof (res_re_match w h EmptyString Hw Hdw Hh Hdh I) as Hr.
  rewrite append_nil_r in Hr. rewrite Hr.
  unfold group_str, Re.group. cbn.
  now rewrite (int_decimal w Hw Hdw), (int_decimal h Hh Hdh).
Qed.

(** The stream information of the attributes of a variant. *)
Lemma variant_create_stream_info (v : Variant.t) :
  variant_ok v ->
  create_stream_info (assign (map attribute_entry (variant_attributes v)) ∅) false
  = Ok (variant_stream_info v).
Proof.
  intros ((Hb & Hdb) & Hpos & Hr & _).
  assert (Htruthy : forall s, s <> EmptyString -> Str.truthy s = true)
    by (intros [|c s] H; [congruence | reflexivity]).
  unfold create_stream_info, variant_attributes, variant_stream_info. cbv zeta.
  destruct (Variant.resolution v) as [[w h]|].
  - destruct Hr as [Hw Hh].
    replace (assign _ ∅ !! "BANDWIDTH") with (Some (Variant.bandwidth v)) by reflexivity.
    replace (assign _ ∅ !! "RESOLUTION") with (Some (w +:+ "x" +:+ h)) by reflexivity.
    replace (assign _ ∅ !! "PROGRAM-ID") with (@None string) by reflexivity.
    replace (assign _ ∅ !! "CODECS") with (@None string) by reflexivity.
    replace (assign _ ∅ !! "AUDIO") with (@None string) by reflexivity.
    replace (assign _ ∅ !! "VIDEO") with (@None string) by reflexivity.
    replace (assign _ ∅ !! "SUBTITLES") with (@None string) by reflexivity.
    unfold stream_bandwidth, stream_resolution, Py.int_log10.
    cbn [truthy_opt default from_option id].
    rewrite (Htruthy _ Hb), (int_decimal _ Hb Hdb). cbn [negb rbind].
    replace (decimal_value (Variant.bandwidth v) <=? 0)%Z with false
      by (symmetry; apply Z.leb_gt; exact Hpos).
    cbn [rbind].
    assert (Hwh : Str.truthy (w +:+ "x" +:+ h) = true)
      by (destruct Hw as [Hw _]; destruct w; [congruence | reflexivity]).
    rewrite Hwh, (parse_resolution_digits w h Hw Hh). reflexivity.
  - replace (assign _ ∅ !! "BANDWIDTH") with (Some (Variant.bandwidth v)) by reflexivity.
    replace (assign _ ∅ !! "RESOLUTION") with (@None string) by reflexivity.
    replace (assign _ ∅ !! "PROGRAM-ID") with (@None string) by reflexivity.
    replace (assign _ ∅ !! "CODECS") with (@None string) by reflexivity.
    replace (assign _ ∅ !! "AUDIO") with (@None string) by reflexivity.
    replace (assign _ ∅ !! "VIDEO") with (@None string) by reflexivity.
    replace (assign _ ∅ !! "SUBTITLES") with (@None string) by reflexivity.
    unfold stream_bandwidth, stream_resolution, Py.int_log10.
    cbn [truthy_opt default from_option id].
    rewrite (Htruthy _ Hb), (int_decimal _ Hb Hdb). cbn [negb rbind].
    replace (decimal_value (Variant.bandwidth v) <=? 0)%Z with false
      by (symmetry; apply Z.leb_gt; exact Hpos).
    reflexivity.
Qed.

Lemma variant_lines_parse (host : Host) (self : M3U8Parser.t) (v : Variant.t) :
  variant_ok v -> nothing_expected self ->
  parse_lines host self (variant_lines v)
  = ret (M3U8Parser.on_m3u8
           (fun m => M3U8.set_playlists (M3U8.playlists m ++ [variant_playlist host self v]) m)
           self).
Proof.
  intros Hv (Hseg & Hpl & Hsi). unfold variant_lines. cbn [parse_lines].
  change ("#EXT-X-STREAM-INF:" +:+ ?a) with ("#" +:+ "EXT-X-STREAM-INF" +:+ ":" +:+ a).
  destruct (parse_line_attributes host self "EXT-X-STREAM-INF" _
              (variant_attributes v) eq_refl ltac:(discriminate) eq_refl
              (variant_attributes_ok v Hv)) as [-> Ha].
  unfold parse_tag_ext_x_stream_inf. cbv zeta. rewrite Ha, !bind_ret_l.
  destruct Hv as (Hb & Hpos & Hr & Hne & Hl & Hs).
  rewrite (parse_line_content host _ _ Hs).
  cbn [M3U8Parser._expect_segment M3U8Parser.set_streaminf M3U8Parser.set_expect_playlist
       M3U8Parser._expect_playlist].
  rewrite Hseg. cbv zeta. unfold get_playlist. cbv zeta.
  cbn [M3U8Parser._streaminf M3U8Parser.set_streaminf M3U8Parser.set_expect_playlist].
  rewrite streaminf_or_own.
  rewrite (variant_create_stream_info v (conj Hb (conj Hpos (conj Hr (conj Hne (conj Hl Hs)))))).
  cbn [rbind]. change (lift (Ok ?x)) with (ret x). rewrite !bind_ret_l, ?bind_ret_r.
  destruct self. cbn in *. subst. reflexivity.
Qed.

Lemma variants_parse (host : Host) (vs : list Variant.t) :
  Forall variant_ok vs ->
  forall self, nothing_expected self ->
    parse_lines host self (flat_map variant_lines vs)
    = ret (M3U8Parser.on_m3u8
             (fun m =>
                M3U8.set_playlists
                  (M3U8.playlists m ++ map (variant_playlist host self) vs) m)
             self).
Proof.
  induction 1 as [|v vs Hv _ IH]; intros self Hself.
  - cbn [flat_map parse_lines map]. destruct self as [[]].
    unfold M3U8Parser.on_m3u8, M3U8Parser.set_m3u8, M3U8.set_playlists. cbn.
    now rewrite app_nil_r.
  - cbn [flat_map]. rewrite parse_lines_app, (variant_lines_parse host self v Hv Hself).
    rewrite bind_ret_l, IH.
    + destruct self.
      unfold M3U8Parser.on_m3u8, M3U8Parser.set_m3u8, M3U8.set_playlists. cbn.
      rewrite <- app_assoc. reflexivity.
    + destruct Hself as (H1 & H2 & H3). repeat split; assumption.
Qed.

Lemma variant_lines_text (v : Variant.t) :
  variant_ok v ->
  Forall (fun l => line_text l = true /\ Str.truthy l = true) (variant_lines v).
Proof.
  intros Hv. unfold variant_lines. constructor; [|constructor; [|constructor]].
  - split; [|reflexivity].
    rewrite line_text_append. now rewrite (variant_attributes_line_text v Hv).
  - destruct Hv as (_ & _ & _ & Hne & Hl & _). split; [exact Hl|].
    destruct (Variant.uri v); [congruence | reflexivity].
Qed.

Lemma master_playlist_lines (vs : list Variant.t) :
  Forall variant_ok vs ->
  data_lines (DataStr (master_playlist vs)) = "#EXTM3U" :: flat_map variant_lines vs.
Proof.
  intros Hvs.
  assert (Hall : Forall (fun l => line_text l = true /\ Str.truthy l = true)
                   (flat_map variant_lines vs)).
  { induction Hvs as [|v vs Hv _ IH]; [constructor|].
    cbn [flat_map]. apply Forall_app. split; [now apply variant_lines_text | exact IH]. }
  unfold data_lines, master_playlist.
  rewrite <- (append_nil_r (unlines _ _)).
  rewrite splitlines_unlines.
  - cbn [Str.truthy]. rewrite app_nil_r. apply filter_truthy_all.
    constructor; [reflexivity|]. eapply List.Forall_impl; [|exact Hall]. now intros l [_ H].
  - now left.
  - constructor; [reflexivity|]. eapply List.Forall_impl; [|exact Hall]. now intros l [H _].
  - reflexivity.
Qed.

(** The final pass leaves a variant without a group of media as it is. *)
Lemma associate_variant (host : Host) (self : M3U8Parser.t) (media : list Media.t)
    (v : Variant.t) :
  associate media (variant_playlist host self v) = variant_playlist host self v.
Proof. rewrite associate_media. reflexivity. Qed.


(** ** Date ranges *)

Lemma parse_iso8601_value (host : Host) (value : option string)
    (w : list string) (d : option datetime) :
  parse_iso8601 host value = (w, Ok d) ->
  d = match value with
      | Some v => parse_datetime host v
      | None => None
      end.
Proof.
  unfold parse_iso8601. destruct value as [v|]; [|intros H; now apply ret_ok in H as [<- _]].
  destruct (parse_datetime host v) as [x|].
  - intros H. now apply ret_ok in H as [<- _].
  - intros H. apply bind_ok in H. destruct H as (? & ? & ? & _ & H & _).
    now apply ret_ok in H as [<- _].
Qed.

(** X21.  An [EXT-X-DATERANGE] that returns appends one date range and
    changes nothing else.  Its identifier and class are the attributes
    [ID] and [CLASS]; its dates are the timestamps of [START-DATE] and
    [END-DATE], absent when the attribute is absent or not a timestamp;
    its durations are the time spans of [DURATION] and
    [PLANNED-DURATION]; it ends on the next one exactly when
    [END-ON-NEXT] is [YES]; and its other attributes are the attributes
    of the list without these seven. *)
Theorem daterange_fields (host : Host) (self self' : M3U8Parser.t) (value : string)
    (w : list string) :
  parse_tag_ext_x_daterange host self value = (w, Ok self') ->
  exists (attr : attrs) (w0 : list string) (r : DateRange.t),
    parse_attributes value = (w0, Ok attr) /\
    self' = M3U8Parser.on_m3u8
              (fun m => M3U8.set_dateranges (M3U8.dateranges m ++ [r]) m) self /\
    DateRange.id r = attr !! "ID" /\
    DateRange.classname r = attr !! "CLASS" /\
    DateRange.start_date r
    = match attr !! "START-DATE" with Some v => parse_datetime host v | None => None end /\
    DateRange.end_date r
    = match attr !! "END-DATE" with Some v => parse_datetime host v | None => None end /\
    parse_timedelta host (attr !! "DURATION") = Ok (DateRange.duration r) /\
    parse_timedelta host (attr !! "PLANNED-DURATION") = Ok (DateRange.planned_duration r) /\
    DateRange.end_on_next r
    = (if decide (attr !! "END-ON-NEXT" = Some "YES") then true else false) /\
    forall k,
      DateRange.x r !! k = if decide (In k daterange_keys) then None else attr !! k.
Proof.
  intros H. unfold parse_tag_ext_x_daterange, pop in H. cbv beta iota zeta in H.
  apply bind_ok in H. destruct H as (attr & w0 & w1 & Ha & H & _).
  apply bind_ok in H. destruct H as (sd & ? & ? & Hsd & H & _).
  apply bind_ok in H. destruct H as (ed & ? & ? & Hed & H & _).
  apply bind_ok in H. destruct H as (du & ? & ? & Hdu & H & _).
  apply bind_ok in H. destruct H as (pd & ? & ? & Hpd & H & _).
  apply ret_ok in H as [<- _].
  apply lift_ok in Hdu as [Hdu _]. apply lift_ok in Hpd as [Hpd _].
  apply parse_iso8601_value in Hsd, Hed.
  exists attr, w0. eexists. split; [exact Ha|]. split; [reflexivity|].
  cbn [DateRange.id DateRange.classname DateRange.start_date DateRange.end_date
       DateRange.duration DateRange.planned_duration DateRange.end_on_next DateRange.x].
  repeat rewrite lookup_delete_ne in * by discriminate.
  split; [reflexivity|]. split; [reflexivity|].
  split; [exact Hsd|]. split; [exact Hed|].
  split; [exact Hdu|]. split; [exact Hpd|]. split.
  - unfold parse_bool. destruct (attr !! "END-ON-NEXT") as [v|] eqn:E;
      cbn [default from_option id].
    + destruct (decide (Some v = Some "YES")) as [Heq | Hne].
      * injection Heq as ->. reflexivity.
      * apply String.eqb_neq. congruence.
    + destruct (decide (None = Some "YES")); [discriminate | reflexivity].
  - intros k. destruct (decide (In k daterange_keys)) as [Hin | Hnot].
    + simpl in Hin.
      repeat (destruct Hin as [<- | Hin];
              [repeat first [ apply lookup_delete_eq
                            | rewrite lookup_delete_ne by discriminate ]|]).
      destruct Hin.
    + repeat rewrite lookup_delete_ne
        by (intros <-; apply Hnot; simpl; tauto).
      reflexivity.
Qed.

Lemma daterange_fields_witness :
  let value := "ID=" +:+ dq +:+ "ad1" +:+ dq +:+ ",CLASS=" +:+ dq +:+ "com.example" +:+ dq
               +:+ ",X-AD-ID=" +:+ dq +:+ "42" +:+ dq +:+ ",END-ON-NEXT=YES" in
  exists self' attr r,
    parse_tag_ext_x_daterange example_host (M3U8Parser.init None) value = ([], Ok self') /\
    parse_attributes value = ([], Ok attr) /\
    attr !! "ID" = Some "ad1" /\ attr !! "X-AD-ID" = Some "42" /\
    attr !! "END-ON-NEXT" = Some "YES" /\
    M3U8.dateranges (M3U8Parser.m3u8 self') = [r] /\
    DateRange.id r = attr !! "ID" /\
    DateRange.end_on_next r = true /\
    DateRange.x r !! "X-AD-ID" = attr !! "X-AD-ID" /\
    DateRange.x r !! "CLASS" = None.
Proof.
  intros value.
  assert (H : exists self',
             parse_tag_ext_x_daterange example_host (M3U8Parser.init None) value
             = ([], Ok self'))
    by (eexists; vm_compute; reflexivity).
  destruct H as (self' & H).
  assert (Hp : exists a,
             parse_attributes value = ([], Ok a) /\
             a !! "ID" = Some "ad1" /\ a !! "X-AD-ID" = Some "42" /\
             a !! "END-ON-NEXT" = Some "YES")
    by (eexists; repeat split; vm_compute; reflexivity).
  destruct Hp as (a & Hp & Hid' & Hx' & Hnext').
  destruct (daterange_fields example_host _ _ _ _ H)
    as (attr & w0 & r & Ha & -> & Hid & _ & _ & _ & _ & _ & Hnext & Hx).
  rewrite Hp in Ha. injection Ha as <- <-.
  eexists. exists a, r. split; [exact H|]. split; [exact Hp|].
  split; [exact Hid'|]. split; [exact Hx'|]. split; [exact Hnext'|].
  split; [reflexivity|]. split; [exact Hid|]. split.
  - rewrite Hnext, Hnext'. reflexivity.
  - split; rewrite Hx; reflexivity.
Defined.
(** ** The tags that a content line needs *)

Lemma handlers_expect (host : Host) :
  Forall
    (fun th : string * handler =>
       forall self value w self',
         snd th self value = (w, Ok self') ->
         (~ In (fst th) ["EXTINF"; "EXT-X-BYTERANGE"] ->
          M3U8Parser._expect_segment self' = M3U8Parser._expect_segment self) /\
         (fst th <> "EXT-X-STREAM-INF" ->
          M3U8Parser._expect_playlist self' = M3U8Parser._expect_playlist self))
    (_TAGS host).
Proof.
  unfold _TAGS.
  repeat (constructor;
          [simpl fst; simpl snd; intros self value w self' H;
           unfold_handlers H; inv_ok;
           (split; intros Hne; first [reflexivity | exfalso; apply Hne; simpl; tauto
                                     | congruence])|]).
  constructor.
Qed.

Lemma handlers_add_iframe (host : Host) :
  Forall
    (fun th : string * handler =>
       forall self value w self',
         snd th self value = (w, Ok self') ->
         exists added,
           M3U8.playlists (M3U8Parser.m3u8 self')
           = M3U8.playlists (M3U8Parser.m3u8 self) ++ added /\
           Forall (fun p => Playlist.is_iframe p = true) added)
    (_TAGS host).
Proof.
  unfold _TAGS.
  repeat (constructor;
          [simpl fst; simpl snd; intros self value w self' H;
           unfold_handlers H; inv_ok;
           first [ exists []; split; [cbn; now rewrite app_nil_r | constructor]
                 | eexists; split; [cbn; reflexivity | repeat constructor] ]|]).
  constructor.
Qed.

Lemma parse_line_expect (host : Host) (self self' : M3U8Parser.t)
    (line : string) (w : list string) :
  parse_line host self line = (w, Ok self') ->
  (no_tag_of ["EXTINF"; "EXT-X-BYTERANGE"] line ->
   M3U8Parser._expect_segment self = false ->
   M3U8Parser._expect_segment self' = false /\
   M3U8.segments (M3U8Parser.m3u8 self') = M3U8.segments (M3U8Parser.m3u8 self)) /\
  (no_tag_of ["EXT-X-STREAM-INF"] line ->
   M3U8Parser._expect_playlist self = false ->
   M3U8Parser._expect_playlist self' = false /\
   exists added,
     M3U8.playlists (M3U8Parser.m3u8 self')
     = M3U8.playlists (M3U8Parser.m3u8 self) ++ added /\
     Forall (fun p => Playlist.is_iframe p = true) added).
Proof.
  assert (Hsame : forall s : M3U8Parser.t,
             exists added,
               M3U8.playlists (M3U8Parser.m3u8 s)
               = M3U8.playlists (M3U8Parser.m3u8 s) ++ added /\
               Forall (fun p => Playlist.is_iframe p = true) added)
    by (intros s; exists []; split; [now rewrite app_nil_r | constructor]).
  intros H. destruct (Str.startswith "#" line) eqn:Hs.
  - rewrite parse_line_directive in H by exact Hs.
    destruct (split_tag line) as [[tag|] [value|]] eqn:Hsplit; inv_ok;
      try (split; intros _ Hexp; (split; [exact Hexp |]); auto).
    destruct (lookup_tag tag (_TAGS host)) as [h|] eqn:El; inv_ok;
      [|split; intros _ Hexp; (split; [exact Hexp |]); auto].
    pose proof (lookup_tag_Forall host _ _ _ (handlers_expect host) El) as HP.
    pose proof (lookup_tag_Forall host _ _ _ (handlers_add_iframe host) El) as HQ.
    pose proof (lookup_tag_Forall host _ _ _ (handlers_append host) El) as HR.
    simpl in HP, HQ, HR.
    destruct (HP _ _ _ _ H) as [Hseg Hpl]. pose proof (HQ _ _ _ _ H) as Hif.
    destruct (HR _ _ _ _ H) as [_ Hsegs].
    split; intros Hno Hexp.
    + split; [|exact Hsegs]. rewrite Hseg; [exact Hexp|].
      intros Hin. apply (Hno tag Hin). now rewrite Hsplit.
    + split; [|exact Hif]. rewrite Hpl; [exact Hexp|].
      intros ->. apply (Hno "EXT-X-STREAM-INF"); [now left | now rewrite Hsplit].
  - rewrite parse_line_content in H by exact Hs. cbv zeta in H.
    destruct (M3U8Parser._expect_segment self) eqn:Eseg.
    + apply ret_ok in H as [<- _]. split; [intros _ Hexp; discriminate Hexp|].
      intros _ Hexp. split; [exact Hexp | exact (Hsame self)].
    + destruct (M3U8Parser._expect_playlist self) eqn:Epl.
      * apply bind_ok in H. destruct H as ([p s] & ? & ? & Hg & H & _).
        apply lift_ok in Hg as [Hg _]. apply get_playlist_ok in Hg as [-> _].
        apply ret_ok in H as [<- _].
        split; [intros _ _; split; [exact Eseg | reflexivity]|].
        intros _ Hexp. discriminate Hexp.
      * apply ret_ok in H as [<- _].
        split; intros _ Hexp; (split; [assumption|]); auto.
Qed.

(** X22.  A content line makes a segment only after an [EXTINF] or an
    [EXT-X-BYTERANGE], and a variant only after an [EXT-X-STREAM-INF]:
    when no segment is expected and no line has one of the first two
    tags, the segments stay as they are, whatever else the lines say (a
    date, a key, a discontinuity expect no segment); when no playlist is
    expected and no line has the third tag, every playlist that is added
    is an i-frame playlist. *)
Theorem content_lines_need_tags (host : Host) (lines : list string) :
  forall (self self' : M3U8Parser.t) (w : list string),
    parse_lines host self lines = (w, Ok self') ->
    (Forall (no_tag_of ["EXTINF"; "EXT-X-BYTERANGE"]) lines ->
     M3U8Parser._expect_segment self = false ->
     M3U8.segments (M3U8Parser.m3u8 self') = M3U8.segments (M3U8Parser.m3u8 self)) /\
    (Forall (no_tag_of ["EXT-X-STREAM-INF"]) lines ->
     M3U8Parser._expect_playlist self = false ->
     exists added,
       M3U8.playlists (M3U8Parser.m3u8 self')
       = M3U8.playlists (M3U8Parser.m3u8 self) ++ added /\
       Forall (fun p => Playlist.is_iframe p = true) added).
Proof.
  induction lines as [|line lines IH]; intros self self' w H.
  - apply ret_ok in H as [-> _].
    split; [reflexivity|]. intros _ _. exists []. split; [now rewrite app_nil_r | constructor].
  - apply parse_lines_cons_ok in H. destruct H as (self1 & w1 & w2 & H1 & H2 & _).
    destruct (parse_line_expect host _ _ _ _ H1) as [Hseg Hpl].
    destruct (IH _ _ _ H2) as [IHseg IHpl].
    split; intros Hall Hexp; inversion Hall as [|? ? Hl Hls]; subst.
    + destruct (Hseg Hl Hexp) as [Hexp1 Hsegs]. now rewrite (IHseg Hls Hexp1).
    + destruct (Hpl Hl Hexp) as [Hexp1 (one & Hone & Hall1)].
      destruct (IHpl Hls Hexp1) as (added & -> & Hadded).
      exists (one ++ added). split; [now rewrite Hone, app_assoc|].
      apply Forall_app. auto.
Qed.

Lemma content_lines_need_tags_witness :
  let lines := ["#EXT-X-DISCONTINUITY"; "a.ts";
                "#EXT-X-I-FRAME-STREAM-INF:BANDWIDTH=1000,URI=" +:+ dq +:+ "i.m3u8" +:+ dq;
                "b.m3u8"] in
  exists self',
    parse_lines example_host (M3U8Parser.init None) lines = ([], Ok self') /\
    M3U8.segments (M3U8Parser.m3u8 self') = [] /\
    exists added,
      M3U8.playlists (M3U8Parser.m3u8 self') = [] ++ added /\
      Forall (fun p => Playlist.is_iframe p = true) added /\
      length added = 1%nat.
Proof.
  intros lines.
  assert (H : exists self',
             parse_lines example_host (M3U8Parser.init None) lines = ([], Ok self'))
    by (eexists; vm_compute; reflexivity).
  destruct H as (self' & H). exists self'. split; [exact H|].
  destruct (content_lines_need_tags example_host lines _ _ _ H) as [Hseg Hpl].
  split.
  - apply Hseg; [|reflexivity].
    repeat (apply List.Forall_cons;
            [intros tag [<- | [<- | []]]; vm_compute; discriminate|]).
    apply List.Forall_nil.
  - destruct Hpl as (added & Hadded & Hall); [|reflexivity|].
    + repeat (apply List.Forall_cons;
              [intros tag [<- | []]; vm_compute; discriminate|]).
      apply List.Forall_nil.
    + exists added. split; [exact Hadded|]. split; [exact Hall|].
      change (M3U8.playlists (M3U8Parser.m3u8 (M3U8Parser.init None)) ++ added)
        with added in Hadded.
      rewrite <- Hadded. vm_compute in H. injection H as <-. reflexivity.
Defined.
(** ** The date of a segment and a date range *)

Lemma between_dates_true (clock : Clock) (lo date hi : datetime) :
  between_dates clock lo date hi = Fine true ->
  datetime_le clock lo date = Fine true /\ datetime_lt clock date hi = Fine true.
Proof.
  unfold between_dates. destruct (datetime_le clock lo date) as [[|]|e]; cbn [cbind];
    intros H; try discriminate H. auto.
Qed.

(** X23.  [is_date_in_daterange] answers [None] exactly when the date or
    the start of the range is missing.  When it answers [True], the date
    is not before the start, and before the end when the range has an
    end date.  A duration of zero counts as no duration, so that the
    planned duration is used, or the range is open; and the durations are
    not looked at when the range has an end date. *)
Theorem date_in_daterange (clock : Clock) (date : option datetime) (r : DateRange.t) :
  (is_date_in_daterange clock date r = Fine None <->
   date = None \/ DateRange.start_date r = None) /\
  (is_date_in_daterange clock date r = Fine (Some true) ->
   exists d start,
     date = Some d /\ DateRange.start_date r = Some start /\
     datetime_le clock start d = Fine true /\
     forall e, DateRange.end_date r = Some e -> datetime_lt clock d e = Fine true) /\
  is_date_in_daterange clock date (with_duration (Some (Build_timedelta 0 0 0)) r)
  = is_date_in_daterange clock date (with_duration None r) /\
  (forall e d,
     DateRange.end_date r = Some e ->
     is_date_in_daterange clock date (with_duration d r)
     = is_date_in_daterange clock date r).
Proof.
  split; [|split; [|split]].
  - unfold is_date_in_daterange.
    destruct date as [d|]; [|split; auto].
    destruct (DateRange.start_date r) as [start|]; [|split; auto].
    split; [|intros [H | H]; discriminate H].
    intros H. exfalso.
    destruct (DateRange.end_date r) as [e|].
    + destruct (between_dates clock start d e); discriminate H.
    + destruct (timedelta_or _ _) as [du|].
      * destruct (datetime_add clock start du) as [e|]; cbn [cbind] in H;
          [|discriminate H].
        destruct (between_dates clock start d e); discriminate H.
      * destruct (datetime_le clock start d); discriminate H.
  - unfold is_date_in_daterange.
    destruct date as [d|]; [|discriminate].
    destruct (DateRange.start_date r) as [start|]; [|discriminate].
    intros H. exists d, start. split; [reflexivity|]. split; [reflexivity|].
    destruct (DateRange.end_date r) as [e|].
    + destruct (between_dates clock start d e) as [[|]|] eqn:E; try discriminate H.
      apply between_dates_true in E as [Hle Hlt].
      split; [exact Hle|]. intros e' He'. now injection He' as <-.
    + split; [|discriminate].
      destruct (timedelta_or _ _) as [du|].
      * destruct (datetime_add clock start du) as [e|]; cbn [cbind] in H;
          [|discriminate H].
        destruct (between_dates clock start d e) as [[|]|] eqn:E; try discriminate H.
        now apply between_dates_true in E as [Hle _].
      * destruct (datetime_le clock start d) as [[|]|]; try discriminate H. reflexivity.
  - reflexivity.
  - intros e d He. unfold is_date_in_daterange, with_duration.
    cbn [DateRange.start_date DateRange.end_date]. now rewrite He.
Qed.

Lemma date_in_daterange_witness :
  let r := DateRange.mk None None (Some (new_year 2020)) (Some (new_year 2022))
             None None false ∅ in
  is_date_in_daterange example_clock (Some (new_year 2021)) r = Fine (Some true) /\
  exists d start,
    Some (new_year 2021) = Some d /\ DateRange.start_date r = Some start /\
    datetime_le example_clock start d = Fine true /\
    forall e, DateRange.end_date r = Some e -> datetime_lt example_clock d e = Fine true.
Proof.
  intros r. split; [reflexivity|].
  apply (proj1 (proj2 (date_in_daterange example_clock (Some (new_year 2021)) r))).
  reflexivity.
Defined.
